(** * Broad-phase core of box2d: a shallow embedding and its properties

    The development follows the C++ sources:
    - [b2_collision.h]        : [b2AABB], [b2TestOverlap]
    - [b2_stack_allocator.*]  : [b2StackAllocator]
    - [b2_dynamic_tree.cpp]   : [b2DynamicTree]
    - [b2_broad_phase.*]      : [b2BroadPhase]

    Conventions.  [int32] values are integers of [Z].  Signed overflow is
    undefined in C++: where an argument of the caller enters the arithmetic
    (the sizes given to the stack allocator) the result is checked against
    the range of [int32] ([int32_of]) and an overflow has no result;
    counters of nodes, proxies and pairs, which grow by one per allocated
    element, are not checked.  [float] values are exact rationals of [Q]:
    comparisons, [b2Min] and [b2Max] are exact on finite floats, while
    rounding, infinities and NaN are outside the model.  A failed
    [b2Assert], an access outside an array and a signed overflow all make
    an operation return [None]. *)

From Stdlib Require Import ZArith QArith Qminmax Lia Lqa.
From stdpp Require Import base tactics option list sets.

#[local] Open Scope Z_scope.

(** ** The state-and-failure monad shared by the stateful components *)

Definition M (St A : Type) : Type := St -> option (A * St).

Definition ret {St A} (a : A) : M St A := fun s => Some (a, s).

Definition bind {St A B} (m : M St A) (k : A -> M St B) : M St B :=
  fun s => match m s with
           | Some (a, s') => k a s'
           | None => None
           end.

Definition fail {St A} : M St A := fun _ => None.

Definition get {St} : M St St := fun s => Some (s, s).

Definition put {St} (s : St) : M St unit := fun _ => Some (tt, s).

Definition modify {St} (f : St -> St) : M St unit := fun s => Some (tt, f s).

(** [b2Assert(c)]: the run stops when [c] is false. *)
Definition b2Assert {St} (c : bool) : M St unit :=
  if c then ret tt else fail.

(** The range of [int32]. *)
Definition int32_min : Z := - 2 ^ 31.
Definition int32_max : Z := 2 ^ 31 - 1.

Definition is_int32 (z : Z) : bool := (int32_min <=? z) && (z <=? int32_max).

(** The value of an [int32] expression whose exact result is [z]: outside
    the range of the type the operation overflows and has no defined
    result. *)
Definition int32_of {St} (z : Z) : M St Z :=
  if is_int32 z then ret z else fail.

Notation "'let*' x ':=' c1 'in' c2" := (bind c1 (fun x => c2))
  (at level 10, x pattern, c1 at level 100, c2 at level 200).
Notation "c1 '>>' c2" := (bind c1 (fun _ => c2))
  (at level 100, c2 at level 200, right associativity).

(** ** Geometry ([b2_math.h], [b2_collision.h]) *)

Definition float := Q.
Bind Scope Q_scope with float.

Definition flt (a b : float) : bool :=
  match (a ?= b)%Q with Lt => true | _ => false end.

Definition fle (a b : float) : bool :=
  match (a ?= b)%Q with Gt => false | _ => true end.

(** [template <typename T> T b2Min(T a, T b) { return a < b ? a : b; }] *)
Definition b2MinF (a b : float) : float := if flt a b then a else b.
Definition b2MaxF (a b : float) : float := if flt b a then a else b.
Definition b2Min (a b : Z) : Z := if a <? b then a else b.
Definition b2Max (a b : Z) : Z := if a >? b then a else b.

Record b2Vec2 := mkVec2 { x : float; y : float }.

Definition vadd (a b : b2Vec2) : b2Vec2 := mkVec2 (x a + x b)%Q (y a + y b)%Q.
Definition vsub (a b : b2Vec2) : b2Vec2 := mkVec2 (x a - x b)%Q (y a - y b)%Q.
Definition vscale (k : float) (a : b2Vec2) : b2Vec2 := mkVec2 (k * x a)%Q (k * y a)%Q.
Definition vmin (a b : b2Vec2) : b2Vec2 := mkVec2 (b2MinF (x a) (x b)) (b2MinF (y a) (y b)).
Definition vmax (a b : b2Vec2) : b2Vec2 := mkVec2 (b2MaxF (x a) (x b)) (b2MaxF (y a) (y b)).

Record b2AABB := mkAABB { lowerBound : b2Vec2; upperBound : b2Vec2 }.

(** [b2AABB::GetPerimeter] *)
Definition GetPerimeter (a : b2AABB) : float :=
  let wx := (x (upperBound a) - x (lowerBound a))%Q in
  let wy := (y (upperBound a) - y (lowerBound a))%Q in
  (2 * (wx + wy))%Q.

(** [b2AABB::Combine(aabb1, aabb2)] *)
Definition Combine (aabb1 aabb2 : b2AABB) : b2AABB :=
  mkAABB (vmin (lowerBound aabb1) (lowerBound aabb2))
         (vmax (upperBound aabb1) (upperBound aabb2)).

(** [b2AABB::Contains]: does [a] contain [b]. *)
Definition Contains (a b : b2AABB) : bool :=
  let result := true in
  let result := result && fle (x (lowerBound a)) (x (lowerBound b)) in
  let result := result && fle (y (lowerBound a)) (y (lowerBound b)) in
  let result := result && fle (x (upperBound b)) (x (upperBound a)) in
  let result := result && fle (y (upperBound b)) (y (upperBound a)) in
  result.

(** [b2TestOverlap(const b2AABB&, const b2AABB&)] *)
Definition b2TestOverlap (a b : b2AABB) : bool :=
  let d1 := vsub (lowerBound b) (upperBound a) in
  let d2 := vsub (lowerBound a) (upperBound b) in
  if flt 0%Q (x d1) || flt 0%Q (y d1) then false
  else if flt 0%Q (x d2) || flt 0%Q (y d2) then false
  else true.

(** The gap between two boxes along an axis: the distance from the end of
    the one to the start of the other, whichever box comes first. *)
Definition gap_x (a b : b2AABB) : float :=
  Qmax (x (lowerBound b) - x (upperBound a))%Q (x (lowerBound a) - x (upperBound b))%Q.
Definition gap_y (a b : b2AABB) : float :=
  Qmax (y (lowerBound b) - y (upperBound a))%Q (y (lowerBound a) - y (upperBound b))%Q.

(** ** C arrays: a list addressed by an [int32] index

    Reading or writing outside the array has no defined result. *)

Definition zget {A} (l : list A) (i : Z) : option A :=
  if decide (0 <= i) then l !! Z.to_nat i else None.

Definition upd {A} (l : list A) (i : Z) (v : A) : list A :=
  if decide (0 <= i) then <[Z.to_nat i := v]> l else l.

Definition zset {A} (l : list A) (i : Z) (v : A) : option (list A) :=
  if decide (0 <= i < Z.of_nat (length l)) then Some (upd l i v) else None.

(** ** The other members of [b2AABB] ([b2_collision.h]) *)

(** [b2Vec2::IsValid] ([b2_math.h]) tells whether both coordinates are
    finite; every float of the model is. *)
Definition vIsValid (v : b2Vec2) : bool := true.

(** [bool operator == (const b2Vec2& a, const b2Vec2& b)] ([b2_math.h]) *)
Definition veq (a b : b2Vec2) : bool :=
  Qeq_bool (x a) (x b) && Qeq_bool (y a) (y b).

(** [b2Vec2::operator -=] applied to both corners of a box, as
    [ShiftOrigin] does. *)
Definition shifted (newOrigin : b2Vec2) (a : b2AABB) : b2AABB :=
  mkAABB (vsub (lowerBound a) newOrigin) (vsub (upperBound a) newOrigin).

(** [bool b2AABB::IsValid() const] *)
Definition IsValid (a : b2AABB) : bool :=
  let d := vsub (upperBound a) (lowerBound a) in
  let valid := fle 0 (x d) && fle 0 (y d) in
  let valid := valid && vIsValid (lowerBound a) && vIsValid (upperBound a) in
  valid.

(** [b2Vec2 b2AABB::GetCenter() const] *)
Definition GetCenter (a : b2AABB) : b2Vec2 :=
  vscale (1 # 2) (vadd (lowerBound a) (upperBound a)).

(** [b2Vec2 b2AABB::GetExtents() const] *)
Definition GetExtents (a : b2AABB) : b2Vec2 :=
  vscale (1 # 2) (vsub (upperBound a) (lowerBound a)).

(** [void b2AABB::Combine(const b2AABB& aabb)]: the box after the call. *)
Definition Combine_into (this aabb : b2AABB) : b2AABB :=
  mkAABB (vmin (lowerBound this) (lowerBound aabb))
         (vmax (upperBound this) (upperBound aabb)).

(** A point of the plane lies in a box, borders included. *)
Definition inside (p : b2Vec2) (a : b2AABB) : Prop :=
  (x (lowerBound a) <= x p <= x (upperBound a))%Q /\
  (y (lowerBound a) <= y p <= y (upperBound a))%Q.

(** ** The stack allocator ([b2_stack_allocator.h], [b2_stack_allocator.cpp]) *)

Module Stack.

Definition b2_stackSize : Z := 100 * 1024.
Definition b2_maxStackEntries : Z := 32.

(** A [char*] handed out by the allocator: an address inside the arena
    [m_data], or a block of the system heap. *)
Inductive pointer :=
| ArenaAt (offset : Z)
| HeapBlock (address : Z).

#[global] Instance pointer_eq_dec : EqDecision pointer.
Proof. solve_decision. Defined.

(** Modelled from the spec: [b2Alloc] and [b2Free] forward to the system
    heap; their definitions ([b2_settings.h]) are not part of the sources.
    The heap hands out fresh blocks and remembers the live ones with their
    sizes. *)
Record SystemHeap := mkHeap { heap_fresh : Z; heap_live : list (Z * Z) }.

Definition b2Alloc (size : Z) (h : SystemHeap) : pointer * SystemHeap :=
  (HeapBlock (heap_fresh h),
   mkHeap (heap_fresh h + 1) ((heap_fresh h, size) :: heap_live h)).

Definition release (a : Z) (h : SystemHeap) : SystemHeap :=
  mkHeap (heap_fresh h) (filter (fun b => b.1 <> a) (heap_live h)).

Definition b2Free (p : pointer) (h : SystemHeap) : option SystemHeap :=
  match p with
  | HeapBlock a => Some (release a h)
  | ArenaAt _ => None
  end.

Record b2StackEntry := mkEntry { data : pointer; size : Z; usedMalloc : bool }.

Record b2StackAllocator := mkStack {
  m_index : Z;
  m_allocation : Z;
  m_maxAllocation : Z;
  m_entries : list b2StackEntry;
  m_entryCount : Z;
  heap : SystemHeap
}.

(** [b2StackAllocator::b2StackAllocator]; the entry array is not
    initialised by the code, the model fills it with a fixed entry. *)
Definition b2StackAllocator_new (h : SystemHeap) : b2StackAllocator :=
  mkStack 0 0 0 (replicate (Z.to_nat b2_maxStackEntries) (mkEntry (ArenaAt 0) 0 false)) 0 h.

(** [void* b2StackAllocator::Allocate(int32 size)].  The argument is an
    [int32]; the sums [m_index + size] and [m_allocation + size] are
    [int32] additions, which overflow for large sizes.  [m_entryCount] stays
    below [b2_maxStackEntries]. *)
Definition Allocate (sz : Z) : M b2StackAllocator pointer :=
  let* sz := int32_of sz in
  let* s := get in
  b2Assert (m_entryCount s <? b2_maxStackEntries) >>
  let* sum := int32_of (m_index s + sz) in
  let '(entry, index', heap') :=
    if sum >? b2_stackSize then
      let '(p, h) := b2Alloc sz (heap s) in
      (mkEntry p sz true, m_index s, h)
    else
      (mkEntry (ArenaAt (m_index s)) sz false, sum, heap s) in
  let* allocation' := int32_of (m_allocation s + sz) in
  let maxAllocation' := b2Max (m_maxAllocation s) allocation' in
  match zset (m_entries s) (m_entryCount s) entry with
  | Some entries' =>
      put (mkStack index' allocation' maxAllocation' entries' (m_entryCount s + 1) heap') >>
      ret (data entry)
  | None => fail
  end.

(** [void b2StackAllocator::Free(void* p)] *)
Definition Free (p : pointer) : M b2StackAllocator unit :=
  let* s := get in
  b2Assert (0 <? m_entryCount s) >>
  match zget (m_entries s) (m_entryCount s - 1) with
  | Some entry =>
      b2Assert (bool_decide (p = data entry)) >>
      if usedMalloc entry then
        match b2Free p (heap s) with
        | Some h =>
            put (mkStack (m_index s) (m_allocation s - size entry) (m_maxAllocation s)
                         (m_entries s) (m_entryCount s - 1) h)
        | None => fail
        end
      else
        put (mkStack (m_index s - size entry) (m_allocation s - size entry)
                     (m_maxAllocation s) (m_entries s) (m_entryCount s - 1) (heap s))
  | None => fail
  end.

(** [int32 b2StackAllocator::GetMaxAllocation() const] *)
Definition GetMaxAllocation (s : b2StackAllocator) : Z := m_maxAllocation s.

(** [b2StackAllocator::~b2StackAllocator] *)
Definition b2StackAllocator_delete : M b2StackAllocator unit :=
  let* s := get in
  b2Assert (m_index s =? 0) >>
  b2Assert (m_entryCount s =? 0).

(** The entry on top of the stack: the most recently allocated one that has
    not been freed. *)
Definition top (s : b2StackAllocator) : option b2StackEntry :=
  if 0 <? m_entryCount s then zget (m_entries s) (m_entryCount s - 1) else None.

(** The allocator's array of entries has its declared size and the entry
    count is not negative. *)
Definition stack_ok (s : b2StackAllocator) : Prop :=
  Z.of_nat (length (m_entries s)) = b2_maxStackEntries /\ 0 <= m_entryCount s.

(** The entries in use, from the bottom of the stack to its top. *)
Definition entries (s : b2StackAllocator) : list b2StackEntry :=
  take (Z.to_nat (m_entryCount s)) (m_entries s).

(** The states of an allocator that is asked for blocks of non-negative
    sizes. *)
Inductive reachable : b2StackAllocator -> Prop :=
| reach_new h : reachable (b2StackAllocator_new h)
| reach_allocate s sz p s' :
    reachable s -> 0 <= sz -> Allocate sz s = Some (p, s') -> reachable s'
| reach_free s p s' :
    reachable s -> Free p s = Some (tt, s') -> reachable s'.

(** The bytes of a list of entries, and those of them that are in the arena. *)
Definition total_size (es : list b2StackEntry) : Z :=
  foldr (fun e acc => size e + acc) 0 es.

Definition arena_size (es : list b2StackEntry) : Z :=
  foldr (fun e acc => (if usedMalloc e then 0 else size e) + acc) 0 es.

End Stack.

(** ** The dynamic tree ([b2_dynamic_tree.cpp]) *)

Definition b2_nullNode : Z := -1.

(** Modelled from the spec: the tunables [b2_aabbExtension] and
    [b2_aabbMultiplier] are declared in [b2_common.h], which is not part of
    the sources; the spec gives 0.1 and 4.0. *)
Definition b2_aabbExtension : float := 1 # 10.
Definition b2_aabbMultiplier : float := 4.

(** Modelled from the spec: [b2TreeNode] is declared in
    [b2_dynamic_tree.h], which is not part of the sources.  [parent] and
    [next] share one slot (a union): a free node keeps the next free index
    where a live node keeps its parent. *)
Record b2TreeNode := mkNode {
  aabb : b2AABB;
  userData : Z;
  parent : Z;
  child1 : Z;
  child2 : Z;
  height : Z;
  moved : bool
}.

Definition next (n : b2TreeNode) : Z := parent n.

Definition IsLeaf (n : b2TreeNode) : bool := child1 n =? b2_nullNode.

Definition with_aabb (v : b2AABB) (n : b2TreeNode) : b2TreeNode :=
  mkNode v (userData n) (parent n) (child1 n) (child2 n) (height n) (moved n).
Definition with_userData (v : Z) (n : b2TreeNode) : b2TreeNode :=
  mkNode (aabb n) v (parent n) (child1 n) (child2 n) (height n) (moved n).
Definition with_parent (v : Z) (n : b2TreeNode) : b2TreeNode :=
  mkNode (aabb n) (userData n) v (child1 n) (child2 n) (height n) (moved n).
Definition with_next (v : Z) (n : b2TreeNode) : b2TreeNode := with_parent v n.
Definition with_child1 (v : Z) (n : b2TreeNode) : b2TreeNode :=
  mkNode (aabb n) (userData n) (parent n) v (child2 n) (height n) (moved n).
Definition with_child2 (v : Z) (n : b2TreeNode) : b2TreeNode :=
  mkNode (aabb n) (userData n) (parent n) (child1 n) v (height n) (moved n).
Definition with_height (v : Z) (n : b2TreeNode) : b2TreeNode :=
  mkNode (aabb n) (userData n) (parent n) (child1 n) (child2 n) v (moved n).
Definition with_moved (v : bool) (n : b2TreeNode) : b2TreeNode :=
  mkNode (aabb n) (userData n) (parent n) (child1 n) (child2 n) (height n) v.

Record b2DynamicTree := mkTree {
  m_root : Z;
  m_nodes : list b2TreeNode;
  m_nodeCount : Z;
  m_nodeCapacity : Z;
  m_freeList : Z;
  m_insertionCount : Z
}.

Definition with_root (v : Z) (t : b2DynamicTree) : b2DynamicTree :=
  mkTree v (m_nodes t) (m_nodeCount t) (m_nodeCapacity t) (m_freeList t) (m_insertionCount t).
Definition with_nodes (v : list b2TreeNode) (t : b2DynamicTree) : b2DynamicTree :=
  mkTree (m_root t) v (m_nodeCount t) (m_nodeCapacity t) (m_freeList t) (m_insertionCount t).
Definition with_nodeCount (v : Z) (t : b2DynamicTree) : b2DynamicTree :=
  mkTree (m_root t) (m_nodes t) v (m_nodeCapacity t) (m_freeList t) (m_insertionCount t).
Definition with_nodeCapacity (v : Z) (t : b2DynamicTree) : b2DynamicTree :=
  mkTree (m_root t) (m_nodes t) (m_nodeCount t) v (m_freeList t) (m_insertionCount t).
Definition with_freeList (v : Z) (t : b2DynamicTree) : b2DynamicTree :=
  mkTree (m_root t) (m_nodes t) (m_nodeCount t) (m_nodeCapacity t) v (m_insertionCount t).
Definition with_insertionCount (v : Z) (t : b2DynamicTree) : b2DynamicTree :=
  mkTree (m_root t) (m_nodes t) (m_nodeCount t) (m_nodeCapacity t) (m_freeList t) v.

(** *** Statements on the node array *)

(** [m_nodes[i]] read as a whole. *)
Definition node (i : Z) : M b2DynamicTree b2TreeNode :=
  fun t => match zget (m_nodes t) i with
           | Some n => Some (n, t)
           | None => None
           end.

(** [m_nodes[i].f] *)
Definition fld {A} (f : b2TreeNode -> A) (i : Z) : M b2DynamicTree A :=
  let* n := node i in ret (f n).

(** [m_nodes[i].f = v], with [upd] the update of field [f]. *)
Definition store (upd : b2TreeNode -> b2TreeNode) (i : Z) : M b2DynamicTree unit :=
  fun t => match zget (m_nodes t) i with
           | Some n =>
               match zset (m_nodes t) i (upd n) with
               | Some ns => Some (tt, with_nodes ns t)
               | None => None
               end
           | None => None
           end.

(** [0 <= i && i < m_nodeCapacity] *)
Definition in_capacity (i : Z) : M b2DynamicTree bool :=
  let* t := get in ret ((0 <=? i) && (i <? m_nodeCapacity t)).

(** [for (int32 i = lo; i < hi; ++i) body(i)] *)
Definition for_range {St} (lo hi : Z) (body : Z -> M St unit) : M St unit :=
  foldr (fun i k => body i >> k) (ret tt) (seqZ lo (hi - lo)).

(** The content of memory that the code obtains and does not initialise
    ([b2Alloc]), or clears with [memset]. *)
Definition zero_node : b2TreeNode :=
  mkNode (mkAABB (mkVec2 0 0) (mkVec2 0 0)) 0 0 0 0 0 false.

(** The two places that thread nodes [lo .. m_nodeCapacity-1] into a free
    list: the loop, and the last node closing the list. *)
Definition link_free_nodes (lo : Z) : M b2DynamicTree unit :=
  let* t := get in
  for_range lo (m_nodeCapacity t - 1) (fun i =>
    store (with_next (i + 1)) i >>
    store (with_height (-1)) i) >>
  store (with_next b2_nullNode) (m_nodeCapacity t - 1) >>
  store (with_height (-1)) (m_nodeCapacity t - 1).

(** [b2DynamicTree::b2DynamicTree] *)
Definition b2DynamicTree_init : M b2DynamicTree unit :=
  put (mkTree b2_nullNode (replicate 16 zero_node) 0 16 0 0) >>
  link_free_nodes 0 >>
  modify (with_freeList 0) >>
  modify (with_insertionCount 0).

Definition b2DynamicTree_new : b2DynamicTree :=
  match b2DynamicTree_init (mkTree 0 [] 0 0 0 0) with
  | Some (_, t) => t
  | None => mkTree 0 [] 0 0 0 0
  end.

(** [int32 b2DynamicTree::AllocateNode()] *)
Definition AllocateNode : M b2DynamicTree Z :=
  let* t := get in
  (if m_freeList t =? b2_nullNode then
     b2Assert (m_nodeCount t =? m_nodeCapacity t) >>
     let capacity := m_nodeCapacity t * 2 in
     modify (with_nodeCapacity capacity) >>
     modify (with_nodes (take (Z.to_nat (m_nodeCount t)) (m_nodes t)
                         ++ replicate (Z.to_nat (capacity - m_nodeCount t)) zero_node)) >>
     link_free_nodes (m_nodeCount t) >>
     modify (with_freeList (m_nodeCount t))
   else ret tt) >>
  let* t := get in
  let nodeId := m_freeList t in
  let* nx := fld next nodeId in
  modify (with_freeList nx) >>
  store (with_parent b2_nullNode) nodeId >>
  store (with_child1 b2_nullNode) nodeId >>
  store (with_child2 b2_nullNode) nodeId >>
  store (with_height 0) nodeId >>
  store (with_userData 0) nodeId >>
  store (with_moved false) nodeId >>
  modify (fun t => with_nodeCount (m_nodeCount t + 1) t) >>
  ret nodeId.

(** [void b2DynamicTree::FreeNode(int32 nodeId)] *)
Definition FreeNode (nodeId : Z) : M b2DynamicTree unit :=
  let* ok := in_capacity nodeId in
  b2Assert ok >>
  let* t := get in
  b2Assert (0 <? m_nodeCount t) >>
  store (with_next (m_freeList t)) nodeId >>
  store (with_height (-1)) nodeId >>
  modify (with_freeList nodeId) >>
  modify (fun t => with_nodeCount (m_nodeCount t - 1) t).

(** [int32 b2DynamicTree::Balance(int32 iA)] *)
Definition Balance (iA : Z) : M b2DynamicTree Z :=
  b2Assert (negb (iA =? b2_nullNode)) >>
  let* A := node iA in
  if IsLeaf A || (height A <? 2) then ret iA
  else
    let iB := child1 A in
    let iC := child2 A in
    let* okB := in_capacity iB in
    b2Assert okB >>
    let* okC := in_capacity iC in
    b2Assert okC >>
    let* hB := fld height iB in
    let* hC := fld height iC in
    let balance := hC - hB in
    (* Rotate C up *)
    if balance >? 1 then
      let* iF := fld child1 iC in
      let* iG := fld child2 iC in
      let* okF := in_capacity iF in
      b2Assert okF >>
      let* okG := in_capacity iG in
      b2Assert okG >>
      (* Swap A and C *)
      store (with_child1 iA) iC >>
      let* pA := fld parent iA in
      store (with_parent pA) iC >>
      store (with_parent iC) iA >>
      (* A's old parent should point to C *)
      let* pC := fld parent iC in
      (if negb (pC =? b2_nullNode) then
         let* c1 := fld child1 pC in
         if c1 =? iA then store (with_child1 iC) pC
         else
           let* c2 := fld child2 pC in
           b2Assert (c2 =? iA) >>
           store (with_child2 iC) pC
       else modify (with_root iC)) >>
      (* Rotate *)
      let* hF := fld height iF in
      let* hG := fld height iG in
      (if hF >? hG then
         store (with_child2 iF) iC >>
         store (with_child2 iG) iA >>
         store (with_parent iA) iG >>
         (let* aB := fld aabb iB in
          let* aG := fld aabb iG in
          store (with_aabb (Combine aB aG)) iA) >>
         (let* aA := fld aabb iA in
          let* aF := fld aabb iF in
          store (with_aabb (Combine aA aF)) iC) >>
         (let* hB := fld height iB in
          let* hG := fld height iG in
          store (with_height (1 + b2Max hB hG)) iA) >>
         (let* hA := fld height iA in
          let* hF := fld height iF in
          store (with_height (1 + b2Max hA hF)) iC)
       else
         store (with_child2 iG) iC >>
         store (with_child2 iF) iA >>
         store (with_parent iA) iF >>
         (let* aB := fld aabb iB in
          let* aF := fld aabb iF in
          store (with_aabb (Combine aB aF)) iA) >>
         (let* aA := fld aabb iA in
          let* aG := fld aabb iG in
          store (with_aabb (Combine aA aG)) iC) >>
         (let* hB := fld height iB in
          let* hF := fld height iF in
          store (with_height (1 + b2Max hB hF)) iA) >>
         (let* hA := fld height iA in
          let* hG := fld height iG in
          store (with_height (1 + b2Max hA hG)) iC)) >>
      ret iC
    (* Rotate B up *)
    else if balance <? -1 then
      let* iD := fld child1 iB in
      let* iE := fld child2 iB in
      let* okD := in_capacity iD in
      b2Assert okD >>
      let* okE := in_capacity iE in
      b2Assert okE >>
      (* Swap A and B *)
      store (with_child1 iA) iB >>
      let* pA := fld parent iA in
      store (with_parent pA) iB >>
      store (with_parent iB) iA >>
      (* A's old parent should point to B *)
      let* pB := fld parent iB in
      (if negb (pB =? b2_nullNode) then
         let* c1 := fld child1 pB in
         if c1 =? iA then store (with_child1 iB) pB
         else
           let* c2 := fld child2 pB in
           b2Assert (c2 =? iA) >>
           store (with_child2 iB) pB
       else modify (with_root iB)) >>
      (* Rotate *)
      let* hD := fld height iD in
      let* hE := fld height iE in
      (if hD >? hE then
         store (with_child2 iD) iB >>
         store (with_child1 iE) iA >>
         store (with_parent iA) iE >>
         (let* aC := fld aabb iC in
          let* aE := fld aabb iE in
          store (with_aabb (Combine aC aE)) iA) >>
         (let* aA := fld aabb iA in
          let* aD := fld aabb iD in
          store (with_aabb (Combine aA aD)) iB) >>
         (let* hC := fld height iC in
          let* hE := fld height iE in
          store (with_height (1 + b2Max hC hE)) iA) >>
         (let* hA := fld height iA in
          let* hD := fld height iD in
          store (with_height (1 + b2Max hA hD)) iB)
       else
         store (with_child2 iE) iB >>
         store (with_child1 iD) iA >>
         store (with_parent iA) iD >>
         (let* aC := fld aabb iC in
          let* aD := fld aabb iD in
          store (with_aabb (Combine aC aD)) iA) >>
         (let* aA := fld aabb iA in
          let* aE := fld aabb iE in
          store (with_aabb (Combine aA aE)) iB) >>
         (let* hC := fld height iC in
          let* hD := fld height iD in
          store (with_height (1 + b2Max hC hD)) iA) >>
         (let* hA := fld height iA in
          let* hE := fld height iE in
          store (with_height (1 + b2Max hA hE)) iB)) >>
      ret iB
    else ret iA.

(** [void b2DynamicTree::InsertLeaf(int32 leaf)]: the loop that looks for
    the best sibling, starting at [index]; it returns the sibling. *)
Fixpoint InsertLeaf_sibling (fuel : nat) (leafAABB : b2AABB) (index : Z)
    : M b2DynamicTree Z :=
  match fuel with
  | O => fail
  | S fuel =>
      let* n := node index in
      if IsLeaf n then ret index
      else
        let c1 := child1 n in
        let c2 := child2 n in
        let area := GetPerimeter (aabb n) in
        let combinedAABB := Combine (aabb n) leafAABB in
        let combinedArea := GetPerimeter combinedAABB in
        (* Cost of creating a new parent for this node and the new leaf *)
        let cost := (2 * combinedArea)%Q in
        (* Minimum cost of pushing the leaf further down the tree *)
        let inheritanceCost := (2 * (combinedArea - area))%Q in
        (* Cost of descending into child1 *)
        let* n1 := node c1 in
        let cost1 :=
          if IsLeaf n1 then
            (GetPerimeter (Combine leafAABB (aabb n1)) + inheritanceCost)%Q
          else
            let oldArea := GetPerimeter (aabb n1) in
            let newArea := GetPerimeter (Combine leafAABB (aabb n1)) in
            ((newArea - oldArea) + inheritanceCost)%Q in
        (* Cost of descending into child2 *)
        let* n2 := node c2 in
        let cost2 :=
          if IsLeaf n2 then
            (GetPerimeter (Combine leafAABB (aabb n2)) + inheritanceCost)%Q
          else
            let oldArea := GetPerimeter (aabb n2) in
            let newArea := GetPerimeter (Combine leafAABB (aabb n2)) in
            (newArea - oldArea + inheritanceCost)%Q in
        (* Descend according to the minimum cost. *)
        if flt cost cost1 && flt cost cost2 then ret index
        else if flt cost1 cost2 then InsertLeaf_sibling fuel leafAABB c1
        else InsertLeaf_sibling fuel leafAABB c2
  end.

(** [InsertLeaf]: the loop that walks back up the tree fixing heights and
    AABBs. *)
Fixpoint InsertLeaf_fix (fuel : nat) (index : Z) : M b2DynamicTree unit :=
  if index =? b2_nullNode then ret tt
  else
    match fuel with
    | O => fail
    | S fuel =>
        let* index := Balance index in
        let* c1 := fld child1 index in
        let* c2 := fld child2 index in
        b2Assert (negb (c1 =? b2_nullNode)) >>
        b2Assert (negb (c2 =? b2_nullNode)) >>
        (let* h1 := fld height c1 in
         let* h2 := fld height c2 in
         store (with_height (1 + b2Max h1 h2)) index) >>
        (let* a1 := fld aabb c1 in
         let* a2 := fld aabb c2 in
         store (with_aabb (Combine a1 a2)) index) >>
        let* p := fld parent index in
        InsertLeaf_fix fuel p
    end.

(** [void b2DynamicTree::InsertLeaf(int32 leaf)] *)
Definition InsertLeaf (fuel : nat) (leaf : Z) : M b2DynamicTree unit :=
  modify (fun t => with_insertionCount (m_insertionCount t + 1) t) >>
  let* t := get in
  if m_root t =? b2_nullNode then
    modify (with_root leaf) >>
    store (with_parent b2_nullNode) leaf
  else
    (* Find the best sibling for this node *)
    let* leafAABB := fld aabb leaf in
    let* sibling := InsertLeaf_sibling fuel leafAABB (m_root t) in
    (* Create a new parent. *)
    let* oldParent := fld parent sibling in
    let* newParent := AllocateNode in
    store (with_parent oldParent) newParent >>
    store (with_userData 0) newParent >>
    (let* aS := fld aabb sibling in
     store (with_aabb (Combine leafAABB aS)) newParent) >>
    (let* hS := fld height sibling in
     store (with_height (hS + 1)) newParent) >>
    (if negb (oldParent =? b2_nullNode) then
       (* The sibling was not the root. *)
       (let* c1 := fld child1 oldParent in
        if c1 =? sibling then store (with_child1 newParent) oldParent
        else store (with_child2 newParent) oldParent) >>
       store (with_child1 sibling) newParent >>
       store (with_child2 leaf) newParent >>
       store (with_parent newParent) sibling >>
       store (with_parent newParent) leaf
     else
       (* The sibling was the root. *)
       store (with_child1 sibling) newParent >>
       store (with_child2 leaf) newParent >>
       store (with_parent newParent) sibling >>
       store (with_parent newParent) leaf >>
       modify (with_root newParent)) >>
    (* Walk back up the tree fixing heights and AABBs *)
    let* index := fld parent leaf in
    InsertLeaf_fix fuel index.

(** [RemoveLeaf]: the loop that adjusts the ancestors' bounds. *)
Fixpoint RemoveLeaf_fix (fuel : nat) (index : Z) : M b2DynamicTree unit :=
  if index =? b2_nullNode then ret tt
  else
    match fuel with
    | O => fail
    | S fuel =>
        let* index := Balance index in
        let* c1 := fld child1 index in
        let* c2 := fld child2 index in
        (let* a1 := fld aabb c1 in
         let* a2 := fld aabb c2 in
         store (with_aabb (Combine a1 a2)) index) >>
        (let* h1 := fld height c1 in
         let* h2 := fld height c2 in
         store (with_height (1 + b2Max h1 h2)) index) >>
        let* p := fld parent index in
        RemoveLeaf_fix fuel p
    end.

(** [void b2DynamicTree::RemoveLeaf(int32 leaf)] *)
Definition RemoveLeaf (fuel : nat) (leaf : Z) : M b2DynamicTree unit :=
  let* t := get in
  if leaf =? m_root t then modify (with_root b2_nullNode)
  else
    let* parent_ := fld parent leaf in
    let* grandParent := fld parent parent_ in
    let* c1 := fld child1 parent_ in
    let* sibling :=
      if c1 =? leaf then fld child2 parent_ else fld child1 parent_ in
    if negb (grandParent =? b2_nullNode) then
      (* Destroy parent and connect sibling to grandParent. *)
      (let* g1 := fld child1 grandParent in
       if g1 =? parent_ then store (with_child1 sibling) grandParent
       else store (with_child2 sibling) grandParent) >>
      store (with_parent grandParent) sibling >>
      FreeNode parent_ >>
      (* Adjust ancestor bounds. *)
      RemoveLeaf_fix fuel grandParent
    else
      modify (with_root sibling) >>
      store (with_parent b2_nullNode) sibling >>
      FreeNode parent_.

(** [int32 b2DynamicTree::CreateProxy(const b2AABB& aabb, void* userData)] *)
Definition CreateProxy (fuel : nat) (box : b2AABB) (data : Z) : M b2DynamicTree Z :=
  let* proxyId := AllocateNode in
  (* Fatten the aabb. *)
  let r := mkVec2 b2_aabbExtension b2_aabbExtension in
  store (fun n => with_aabb (mkAABB (vsub (lowerBound box) r) (upperBound (aabb n))) n) proxyId >>
  store (fun n => with_aabb (mkAABB (lowerBound (aabb n)) (vadd (upperBound box) r)) n) proxyId >>
  store (with_userData data) proxyId >>
  store (with_height 0) proxyId >>
  store (with_moved true) proxyId >>
  InsertLeaf fuel proxyId >>
  ret proxyId.

(** [void b2DynamicTree::DestroyProxy(int32 proxyId)] *)
Definition DestroyProxy (fuel : nat) (proxyId : Z) : M b2DynamicTree unit :=
  let* ok := in_capacity proxyId in
  b2Assert ok >>
  let* leaf := fld IsLeaf proxyId in
  b2Assert leaf >>
  RemoveLeaf fuel proxyId >>
  FreeNode proxyId.

(** The fat AABB that [MoveProxy] computes from the new AABB and the
    displacement (the code's local [fatAABB]). *)
Definition predicted_fatAABB (box : b2AABB) (displacement : b2Vec2) : b2AABB :=
  (* Extend AABB *)
  let r := mkVec2 b2_aabbExtension b2_aabbExtension in
  let lower := vsub (lowerBound box) r in
  let upper := vadd (upperBound box) r in
  (* Predict AABB movement *)
  let d := vscale b2_aabbMultiplier displacement in
  let '(lx, ux) := if flt (x d) 0 then ((x lower + x d)%Q, x upper)
                   else (x lower, (x upper + x d)%Q) in
  let '(ly, uy) := if flt (y d) 0 then ((y lower + y d)%Q, y upper)
                   else (y lower, (y upper + y d)%Q) in
  mkAABB (mkVec2 lx ly) (mkVec2 ux uy).

(** The code's local [hugeAABB]. *)
Definition hugeAABB_of (fatAABB : b2AABB) : b2AABB :=
  let r := mkVec2 b2_aabbExtension b2_aabbExtension in
  mkAABB (vsub (lowerBound fatAABB) (vscale 4 r))
         (vadd (upperBound fatAABB) (vscale 4 r)).

(** [bool b2DynamicTree::MoveProxy(int32 proxyId, const b2AABB& aabb,
    const b2Vec2& displacement)] *)
Definition MoveProxy (fuel : nat) (proxyId : Z) (box : b2AABB) (displacement : b2Vec2)
    : M b2DynamicTree bool :=
  let* ok := in_capacity proxyId in
  b2Assert ok >>
  let* leaf := fld IsLeaf proxyId in
  b2Assert leaf >>
  let fatAABB := predicted_fatAABB box displacement in
  let reinsert :=
    RemoveLeaf fuel proxyId >>
    store (with_aabb fatAABB) proxyId >>
    InsertLeaf fuel proxyId >>
    store (with_moved true) proxyId >>
    ret true in
  let* treeAABB := fld aabb proxyId in
  if Contains treeAABB box then
    (* The tree AABB still contains the object, but it might be too large. *)
    if Contains (hugeAABB_of fatAABB) treeAABB then
      (* The tree AABB contains the object AABB and the tree AABB is
         not too large. No tree update needed. *)
      ret false
    else
      (* Otherwise the tree AABB is huge and needs to be shrunk *)
      reinsert
  else reinsert.

(** [int32 b2DynamicTree::GetHeight() const] *)
Definition GetHeight : M b2DynamicTree Z :=
  let* t := get in
  if m_root t =? b2_nullNode then ret 0
  else fld height (m_root t).

(** [int32 b2DynamicTree::ComputeHeight(int32 nodeId) const] *)
Fixpoint ComputeHeight_from (fuel : nat) (nodeId : Z) : M b2DynamicTree Z :=
  match fuel with
  | O => fail
  | S fuel =>
      let* ok := in_capacity nodeId in
      b2Assert ok >>
      let* n := node nodeId in
      if IsLeaf n then ret 0
      else
        let* height1 := ComputeHeight_from fuel (child1 n) in
        let* height2 := ComputeHeight_from fuel (child2 n) in
        ret (1 + b2Max height1 height2)
  end.

(** [int32 b2DynamicTree::ComputeHeight() const] *)
Definition ComputeHeight (fuel : nat) : M b2DynamicTree Z :=
  let* t := get in
  ComputeHeight_from fuel (m_root t).

(** Modelled from the spec: the accessors of [b2_dynamic_tree.h] on a
    proxy's leaf ([GetUserData], [WasMoved], [ClearMoved], [GetFatAABB]);
    the header is not part of the sources. *)
Definition GetUserData (proxyId : Z) : M b2DynamicTree Z :=
  let* ok := in_capacity proxyId in
  b2Assert ok >>
  fld userData proxyId.

Definition WasMoved (proxyId : Z) : M b2DynamicTree bool :=
  let* ok := in_capacity proxyId in
  b2Assert ok >>
  fld moved proxyId.

Definition ClearMoved (proxyId : Z) : M b2DynamicTree unit :=
  let* ok := in_capacity proxyId in
  b2Assert ok >>
  store (with_moved false) proxyId.

Definition GetFatAABB (proxyId : Z) : M b2DynamicTree b2AABB :=
  let* ok := in_capacity proxyId in
  b2Assert ok >>
  fld aabb proxyId.

(** Modelled from the spec: [b2DynamicTree::Query] is a template of
    [b2_dynamic_tree.h], which is not part of the sources.  The traversal
    keeps an explicit stack that starts with the root; a node whose AABB
    overlaps the query is reported to the callback when it is a leaf (a
    [false] answer ends the traversal) and has both children pushed
    otherwise.  The callback runs on a state [St] that holds the tree
    ([tree_of]): the broad-phase is its own callback. *)
Fixpoint Query_loop {St} (fuel : nat) (tree_of : St -> b2DynamicTree)
    (callback : Z -> M St bool) (box : b2AABB) (stack : list Z) : M St unit :=
  match stack with
  | [] => ret tt
  | nodeId :: stack =>
      match fuel with
      | O => fail
      | S fuel =>
          if nodeId =? b2_nullNode then Query_loop fuel tree_of callback box stack
          else
            let* s := get in
            match zget (m_nodes (tree_of s)) nodeId with
            | None => fail
            | Some n =>
                if b2TestOverlap (aabb n) box then
                  if IsLeaf n then
                    let* proceed := callback nodeId in
                    if proceed then Query_loop fuel tree_of callback box stack
                    else ret tt
                  else
                    Query_loop fuel tree_of callback box (child2 n :: child1 n :: stack)
                else Query_loop fuel tree_of callback box stack
            end
      end
  end.

Definition Query {St} (fuel : nat) (tree_of : St -> b2DynamicTree)
    (callback : Z -> M St bool) (box : b2AABB) : M St unit :=
  let* s := get in
  Query_loop fuel tree_of callback box [m_root (tree_of s)].
(** *** The measures, the checks and the rebuilding of the tree *)

(** [for (int32 i = lo; i < hi; ++i)] with a body that updates the local
    variables [a]. *)
Definition for_acc {St A} (lo hi : Z) (body : Z -> A -> M St A) (a0 : A) : M St A :=
  foldr (fun i k a => let* a' := body i a in k a') ret (seqZ lo (hi - lo)) a0.

(** The value of an access that is defined only inside an array. *)
Definition opt {St A} (o : option A) : M St A :=
  match o with
  | Some a => ret a
  | None => fail
  end.

(** [a / b] on floats.  The quotient by zero is an infinity or a NaN, which
    the model does not have: the run stops. *)
Definition fdiv {St} (a b : float) : M St float :=
  if Qeq_bool b 0 then fail else ret (a / b)%Q.

(** [template <typename T> T b2Abs(T a) { return a > T(0) ? a : -a; }]
    ([b2_math.h]) *)
Definition b2Abs (a : Z) : Z := if a >? 0 then a else - a.

(** [float b2DynamicTree::GetAreaRatio() const] *)
Definition GetAreaRatio : M b2DynamicTree float :=
  let* t := get in
  if m_root t =? b2_nullNode then ret 0%Q
  else
    let* root := node (m_root t) in
    let rootArea := GetPerimeter (aabb root) in
    let* totalArea :=
      for_acc 0 (m_nodeCapacity t) (fun i totalArea =>
        let* n := node i in
        if height n <? 0 then
          (* Free node in pool *)
          ret totalArea
        else
          ret (totalArea + GetPerimeter (aabb n))%Q) 0%Q in
    fdiv totalArea rootArea.

(** [void b2DynamicTree::ValidateStructure(int32 index) const] *)
Fixpoint ValidateStructure (fuel : nat) (index : Z) : M b2DynamicTree unit :=
  if index =? b2_nullNode then ret tt
  else
    match fuel with
    | O => fail
    | S fuel =>
        let* t := get in
        (if index =? m_root t then
           let* p := fld parent index in
           b2Assert (p =? b2_nullNode)
         else ret tt) >>
        let* n := node index in
        let child1 := child1 n in
        let child2 := child2 n in
        if IsLeaf n then
          b2Assert (child1 =? b2_nullNode) >>
          b2Assert (child2 =? b2_nullNode) >>
          b2Assert (height n =? 0)
        else
          let* ok1 := in_capacity child1 in
          b2Assert ok1 >>
          let* ok2 := in_capacity child2 in
          b2Assert ok2 >>
          let* p1 := fld parent child1 in
          b2Assert (p1 =? index) >>
          let* p2 := fld parent child2 in
          b2Assert (p2 =? index) >>
          ValidateStructure fuel child1 >>
          ValidateStructure fuel child2
    end.

(** [void b2DynamicTree::ValidateMetrics(int32 index) const] *)
Fixpoint ValidateMetrics (fuel : nat) (index : Z) : M b2DynamicTree unit :=
  if index =? b2_nullNode then ret tt
  else
    match fuel with
    | O => fail
    | S fuel =>
        let* n := node index in
        let child1 := child1 n in
        let child2 := child2 n in
        if IsLeaf n then
          b2Assert (child1 =? b2_nullNode) >>
          b2Assert (child2 =? b2_nullNode) >>
          b2Assert (height n =? 0)
        else
          let* ok1 := in_capacity child1 in
          b2Assert ok1 >>
          let* ok2 := in_capacity child2 in
          b2Assert ok2 >>
          let* height1 := fld height child1 in
          let* height2 := fld height child2 in
          let height_ := 1 + b2Max height1 height2 in
          b2Assert (height n =? height_) >>
          let* aabb1 := fld aabb child1 in
          let* aabb2 := fld aabb child2 in
          let aabb_ := Combine aabb1 aabb2 in
          b2Assert (veq (lowerBound aabb_) (lowerBound (aabb n))) >>
          b2Assert (veq (upperBound aabb_) (upperBound (aabb n))) >>
          ValidateMetrics fuel child1 >>
          ValidateMetrics fuel child2
    end.

(** [Validate]: the loop that counts the nodes of the free list. *)
Fixpoint Validate_free (fuel : nat) (freeIndex freeCount : Z) : M b2DynamicTree Z :=
  if freeIndex =? b2_nullNode then ret freeCount
  else
    match fuel with
    | O => fail
    | S fuel =>
        let* ok := in_capacity freeIndex in
        b2Assert ok >>
        let* nx := fld next freeIndex in
        Validate_free fuel nx (freeCount + 1)
    end.

(** [void b2DynamicTree::Validate() const]; its body is compiled when
    [b2DEBUG] is defined. *)
Definition Validate (b2DEBUG : bool) (fuel : nat) : M b2DynamicTree unit :=
  if b2DEBUG then
    let* t := get in
    ValidateStructure fuel (m_root t) >>
    ValidateMetrics fuel (m_root t) >>
    let* freeCount := Validate_free fuel (m_freeList t) 0 in
    let* h := GetHeight in
    let* ch := ComputeHeight fuel in
    b2Assert (h =? ch) >>
    let* t := get in
    b2Assert (m_nodeCount t + freeCount =? m_nodeCapacity t)
  else ret tt.

(** [int32 b2DynamicTree::GetMaxBalance() const] *)
Definition GetMaxBalance : M b2DynamicTree Z :=
  let* t := get in
  for_acc 0 (m_nodeCapacity t) (fun i maxBalance =>
    let* n := node i in
    if height n <=? 1 then ret maxBalance
    else
      b2Assert (negb (IsLeaf n)) >>
      let child1 := child1 n in
      let child2 := child2 n in
      let* h2 := fld height child2 in
      let* h1 := fld height child1 in
      let balance := b2Abs (h2 - h1) in
      ret (b2Max maxBalance balance)) 0.

(** The local [minCost] of [RebuildBottomUp] starts at [b2_maxFloat]
    ([b2_common.h]), which is above every float of the model. *)
Inductive cost_bound :=
| MaxFloat
| Cost (c : float).

Definition cost_below (c : float) (bound : cost_bound) : bool :=
  match bound with
  | MaxFloat => true
  | Cost m => flt c m
  end.

(** [RebuildBottomUp]: the two nested loops that look for the pair of
    roots with the smallest combined perimeter; [nodes] and [count] are the
    code's locals. *)
Definition Rebuild_search (nodes : list Z) (count : Z) : M b2DynamicTree (Z * Z) :=
  let* (minCost, iMin, jMin) :=
    for_acc 0 count (fun i acc =>
      let* index_i := opt (zget nodes i) in
      let* aabbi := fld aabb index_i in
      for_acc (i + 1) count (fun j '(minCost, iMin, jMin) =>
        let* index_j := opt (zget nodes j) in
        let* aabbj := fld aabb index_j in
        let b := Combine aabbi aabbj in
        let cost := GetPerimeter b in
        if cost_below cost minCost then ret (Cost cost, i, j)
        else ret (minCost, iMin, jMin)) acc)
      (MaxFloat, -1, -1) in
  ret (iMin, jMin).

(** An access through a pointer into the node array that was taken before
    a call of [AllocateNode]: when that call has moved the array ([moved_])
    the pointer dangles and the access has no defined result. *)
Definition through {A} (moved_ : bool) (access : M b2DynamicTree A) : M b2DynamicTree A :=
  if moved_ then fail else access.

(** [RebuildBottomUp]: the loop [while (count > 1)]; it returns the array
    [nodes]. *)
Fixpoint Rebuild_loop (fuel : nat) (nodes : list Z) (count : Z)
    : M b2DynamicTree (list Z) :=
  if count >? 1 then
    match fuel with
    | O => fail
    | S fuel =>
        let* (iMin, jMin) := Rebuild_search nodes count in
        let* index1 := opt (zget nodes iMin) in
        let* index2 := opt (zget nodes jMin) in
        (* child1 = m_nodes + index1 and child2 = m_nodes + index2 are
           taken here *)
        let* t := get in
        let moved_ := m_freeList t =? b2_nullNode in
        let* parentIndex := AllocateNode in
        store (with_child1 index1) parentIndex >>
        store (with_child2 index2) parentIndex >>
        (let* h1 := through moved_ (fld height index1) in
         let* h2 := through moved_ (fld height index2) in
         store (with_height (1 + b2Max h1 h2)) parentIndex) >>
        (let* a1 := through moved_ (fld aabb index1) in
         let* a2 := through moved_ (fld aabb index2) in
         store (with_aabb (Combine a1 a2)) parentIndex) >>
        store (with_parent b2_nullNode) parentIndex >>
        through moved_ (store (with_parent parentIndex) index1) >>
        through moved_ (store (with_parent parentIndex) index2) >>
        let* last := opt (zget nodes (count - 1)) in
        let* nodes := opt (zset nodes jMin last) in
        let* nodes := opt (zset nodes iMin parentIndex) in
        Rebuild_loop fuel nodes (count - 1)
    end
  else ret nodes.

(** [void b2DynamicTree::RebuildBottomUp()]; the array [nodes] that the
    code obtains from [b2Alloc] has [m_nodeCount] cells, which the model
    fills with zeros. *)
Definition RebuildBottomUp (b2DEBUG : bool) (fuel : nat) : M b2DynamicTree unit :=
  let* t := get in
  let nodes := replicate (Z.to_nat (m_nodeCount t)) 0 in
  (* Build array of leaves. Free the rest. *)
  let* (nodes, count) :=
    for_acc 0 (m_nodeCapacity t) (fun i '(nodes, count) =>
      let* n := node i in
      if height n <? 0 then
        (* free node in pool *)
        ret (nodes, count)
      else if IsLeaf n then
        store (with_parent b2_nullNode) i >>
        let* nodes := opt (zset nodes count i) in
        ret (nodes, count + 1)
      else
        FreeNode i >>
        ret (nodes, count)) (nodes, 0) in
  let* nodes := Rebuild_loop fuel nodes count in
  let* root := opt (zget nodes 0) in
  modify (with_root root) >>
  Validate b2DEBUG fuel.

(** [void b2DynamicTree::ShiftOrigin(const b2Vec2& newOrigin)] *)
Definition ShiftOrigin (newOrigin : b2Vec2) : M b2DynamicTree unit :=
  let* t := get in
  for_range 0 (m_nodeCapacity t) (fun i =>
    store (fun n => with_aabb (mkAABB (vsub (lowerBound (aabb n)) newOrigin)
                                      (upperBound (aabb n))) n) i >>
    store (fun n => with_aabb (mkAABB (lowerBound (aabb n))
                                      (vsub (upperBound (aabb n)) newOrigin)) n) i).

(** ** The broad-phase ([b2_broad_phase.h], [b2_broad_phase.cpp]) *)

Record b2Pair := mkPair { proxyIdA : Z; proxyIdB : Z }.

Definition e_nullProxy : Z := -1.

Record b2BroadPhase := mkBroadPhase {
  m_tree : b2DynamicTree;
  m_proxyCount : Z;
  m_moveBuffer : list Z;
  m_moveCapacity : Z;
  m_moveCount : Z;
  m_pairBuffer : list b2Pair;
  m_pairCapacity : Z;
  m_pairCount : Z;
  m_queryProxyId : Z
}.

Definition with_tree (v : b2DynamicTree) (b : b2BroadPhase) : b2BroadPhase :=
  mkBroadPhase v (m_proxyCount b) (m_moveBuffer b) (m_moveCapacity b) (m_moveCount b)
    (m_pairBuffer b) (m_pairCapacity b) (m_pairCount b) (m_queryProxyId b).
Definition with_proxyCount (v : Z) (b : b2BroadPhase) : b2BroadPhase :=
  mkBroadPhase (m_tree b) v (m_moveBuffer b) (m_moveCapacity b) (m_moveCount b)
    (m_pairBuffer b) (m_pairCapacity b) (m_pairCount b) (m_queryProxyId b).
Definition with_moveBuffer (v : list Z) (b : b2BroadPhase) : b2BroadPhase :=
  mkBroadPhase (m_tree b) (m_proxyCount b) v (m_moveCapacity b) (m_moveCount b)
    (m_pairBuffer b) (m_pairCapacity b) (m_pairCount b) (m_queryProxyId b).
Definition with_moveCapacity (v : Z) (b : b2BroadPhase) : b2BroadPhase :=
  mkBroadPhase (m_tree b) (m_proxyCount b) (m_moveBuffer b) v (m_moveCount b)
    (m_pairBuffer b) (m_pairCapacity b) (m_pairCount b) (m_queryProxyId b).
Definition with_moveCount (v : Z) (b : b2BroadPhase) : b2BroadPhase :=
  mkBroadPhase (m_tree b) (m_proxyCount b) (m_moveBuffer b) (m_moveCapacity b) v
    (m_pairBuffer b) (m_pairCapacity b) (m_pairCount b) (m_queryProxyId b).
Definition with_pairBuffer (v : list b2Pair) (b : b2BroadPhase) : b2BroadPhase :=
  mkBroadPhase (m_tree b) (m_proxyCount b) (m_moveBuffer b) (m_moveCapacity b) (m_moveCount b)
    v (m_pairCapacity b) (m_pairCount b) (m_queryProxyId b).
Definition with_pairCapacity (v : Z) (b : b2BroadPhase) : b2BroadPhase :=
  mkBroadPhase (m_tree b) (m_proxyCount b) (m_moveBuffer b) (m_moveCapacity b) (m_moveCount b)
    (m_pairBuffer b) v (m_pairCount b) (m_queryProxyId b).
Definition with_pairCount (v : Z) (b : b2BroadPhase) : b2BroadPhase :=
  mkBroadPhase (m_tree b) (m_proxyCount b) (m_moveBuffer b) (m_moveCapacity b) (m_moveCount b)
    (m_pairBuffer b) (m_pairCapacity b) v (m_queryProxyId b).
Definition with_queryProxyId (v : Z) (b : b2BroadPhase) : b2BroadPhase :=
  mkBroadPhase (m_tree b) (m_proxyCount b) (m_moveBuffer b) (m_moveCapacity b) (m_moveCount b)
    (m_pairBuffer b) (m_pairCapacity b) (m_pairCount b) v.

(** A call [m_tree.op(...)]. *)
Definition on_tree {A} (op : M b2DynamicTree A) : M b2BroadPhase A :=
  fun b => match op (m_tree b) with
           | Some (a, t) => Some (a, with_tree t b)
           | None => None
           end.

(** [b2BroadPhase::b2BroadPhase]; the two buffers and [m_queryProxyId] are
    not initialised by the code, the model fills them with zeros. *)
Definition b2BroadPhase_new : b2BroadPhase :=
  mkBroadPhase b2DynamicTree_new 0
    (replicate 16 0) 16 0
    (replicate 16 (mkPair 0 0)) 16 0
    0.

(** [void b2BroadPhase::BufferMove(int32 proxyId)] *)
Definition BufferMove (proxyId : Z) : M b2BroadPhase unit :=
  let* b := get in
  (if m_moveCount b =? m_moveCapacity b then
     let capacity := m_moveCapacity b * 2 in
     modify (with_moveCapacity capacity) >>
     modify (with_moveBuffer (take (Z.to_nat (m_moveCount b)) (m_moveBuffer b)
                              ++ replicate (Z.to_nat (capacity - m_moveCount b)) 0))
   else ret tt) >>
  let* b := get in
  match zset (m_moveBuffer b) (m_moveCount b) proxyId with
  | Some buf =>
      modify (with_moveBuffer buf) >>
      modify (with_moveCount (m_moveCount b + 1))
  | None => fail
  end.

(** [void b2BroadPhase::UnBufferMove(int32 proxyId)] *)
Definition UnBufferMove (proxyId : Z) : M b2BroadPhase unit :=
  let* b := get in
  for_range 0 (m_moveCount b) (fun i =>
    let* b := get in
    match zget (m_moveBuffer b) i with
    | Some id =>
        if id =? proxyId then
          match zset (m_moveBuffer b) i e_nullProxy with
          | Some buf => modify (with_moveBuffer buf)
          | None => fail
          end
        else ret tt
    | None => fail
    end).

(** [int32 b2BroadPhase::CreateProxy(const b2AABB& aabb, void* userData)] *)
Definition BP_CreateProxy (fuel : nat) (box : b2AABB) (data : Z) : M b2BroadPhase Z :=
  let* proxyId := on_tree (CreateProxy fuel box data) in
  modify (fun b => with_proxyCount (m_proxyCount b + 1) b) >>
  BufferMove proxyId >>
  ret proxyId.

(** [void b2BroadPhase::DestroyProxy(int32 proxyId)] *)
Definition BP_DestroyProxy (fuel : nat) (proxyId : Z) : M b2BroadPhase unit :=
  UnBufferMove proxyId >>
  modify (fun b => with_proxyCount (m_proxyCount b - 1) b) >>
  on_tree (DestroyProxy fuel proxyId).

(** [void b2BroadPhase::MoveProxy(int32 proxyId, const b2AABB& aabb,
    const b2Vec2& displacement)] *)
Definition BP_MoveProxy (fuel : nat) (proxyId : Z) (box : b2AABB) (displacement : b2Vec2)
    : M b2BroadPhase unit :=
  let* buffer := on_tree (MoveProxy fuel proxyId box displacement) in
  if buffer then BufferMove proxyId else ret tt.

(** [void b2BroadPhase::TouchProxy(int32 proxyId)] *)
Definition TouchProxy (proxyId : Z) : M b2BroadPhase unit :=
  BufferMove proxyId.

(** [bool b2BroadPhase::TestOverlap(int32 proxyIdA, int32 proxyIdB) const] *)
Definition TestOverlap (proxyIdA proxyIdB : Z) : M b2BroadPhase bool :=
  let* aabbA := on_tree (GetFatAABB proxyIdA) in
  let* aabbB := on_tree (GetFatAABB proxyIdB) in
  ret (b2TestOverlap aabbA aabbB).

(** [bool b2BroadPhase::QueryCallback(int32 proxyId)] *)
Definition QueryCallback (proxyId : Z) : M b2BroadPhase bool :=
  let* b := get in
  (* A proxy cannot form a pair with itself. *)
  if proxyId =? m_queryProxyId b then ret true
  else
    let* moved_ := on_tree (WasMoved proxyId) in
    if moved_ && (proxyId >? m_queryProxyId b) then
      (* Both proxies are moving. Avoid duplicate pairs. *)
      ret true
    else
      (* Grow the pair buffer as needed. *)
      (if m_pairCount b =? m_pairCapacity b then
         let capacity := m_pairCapacity b + Z.shiftr (m_pairCapacity b) 1 in
         modify (with_pairCapacity capacity) >>
         modify (with_pairBuffer (take (Z.to_nat (m_pairCount b)) (m_pairBuffer b)
                                  ++ replicate (Z.to_nat (capacity - m_pairCount b)) (mkPair 0 0)))
       else ret tt) >>
      let* b := get in
      match zset (m_pairBuffer b) (m_pairCount b)
                 (mkPair (b2Min proxyId (m_queryProxyId b)) (b2Max proxyId (m_queryProxyId b))) with
      | Some buf =>
          modify (with_pairBuffer buf) >>
          modify (with_pairCount (m_pairCount b + 1)) >>
          ret true
      | None => fail
      end.

(** [for (int32 i = lo; i < hi; ++i)] with a body that reports a value. *)
Definition for_collect {St A} (lo hi : Z) (body : Z -> M St A) : M St (list A) :=
  foldr (fun i k => let* a := body i in let* l := k in ret (a :: l)) (ret [])
        (seqZ lo (hi - lo)).

(** [template <typename T> void b2BroadPhase::UpdatePairs(T* callback)].
    The result lists the calls [callback->AddPair(userDataA, userDataB)] in
    the order in which they are made. *)
Definition UpdatePairs (fuel : nat) : M b2BroadPhase (list (Z * Z)) :=
  (* Reset pair buffer *)
  modify (with_pairCount 0) >>
  (* Perform tree queries for all moving proxies. *)
  let* b := get in
  for_range 0 (m_moveCount b) (fun i =>
    let* b := get in
    match zget (m_moveBuffer b) i with
    | Some id =>
        modify (with_queryProxyId id) >>
        if id =? e_nullProxy then ret tt
        else
          (* We have to query the tree with the fat AABB so that
             we don't fail to create a pair that may touch later. *)
          let* fatAABB := on_tree (GetFatAABB id) in
          (* Query tree, create pairs and add them pair buffer. *)
          Query fuel m_tree QueryCallback fatAABB
    | None => fail
    end) >>
  (* Send pairs to caller *)
  let* b := get in
  let* calls := for_collect 0 (m_pairCount b) (fun i =>
    let* b := get in
    match zget (m_pairBuffer b) i with
    | Some primaryPair =>
        let* userDataA := on_tree (GetUserData (proxyIdA primaryPair)) in
        let* userDataB := on_tree (GetUserData (proxyIdB primaryPair)) in
        ret (userDataA, userDataB)
    | None => fail
    end) in
  (* Clear move flags *)
  let* b := get in
  for_range 0 (m_moveCount b) (fun i =>
    let* b := get in
    match zget (m_moveBuffer b) i with
    | Some proxyId =>
        if proxyId =? e_nullProxy then ret tt
        else on_tree (ClearMoved proxyId)
    | None => fail
    end) >>
  (* Reset move buffer *)
  modify (with_moveCount 0) >>
  ret calls.
(** *** The inline members of [b2BroadPhase] ([b2_broad_phase.h]) *)

(** [void* b2BroadPhase::GetUserData(int32 proxyId) const] *)
Definition BP_GetUserData (proxyId : Z) : M b2BroadPhase Z :=
  on_tree (GetUserData proxyId).

(** [const b2AABB& b2BroadPhase::GetFatAABB(int32 proxyId) const] *)
Definition BP_GetFatAABB (proxyId : Z) : M b2BroadPhase b2AABB :=
  on_tree (GetFatAABB proxyId).

(** [int32 b2BroadPhase::GetProxyCount() const] *)
Definition GetProxyCount (b : b2BroadPhase) : Z := m_proxyCount b.

(** [int32 b2BroadPhase::GetTreeHeight() const] *)
Definition GetTreeHeight : M b2BroadPhase Z := on_tree GetHeight.

(** [int32 b2BroadPhase::GetTreeBalance() const] *)
Definition GetTreeBalance : M b2BroadPhase Z := on_tree GetMaxBalance.

(** [float b2BroadPhase::GetTreeQuality() const] *)
Definition GetTreeQuality : M b2BroadPhase float := on_tree GetAreaRatio.

(** [void b2BroadPhase::ShiftOrigin(const b2Vec2& newOrigin)] *)
Definition BP_ShiftOrigin (newOrigin : b2Vec2) : M b2BroadPhase unit :=
  on_tree (ShiftOrigin newOrigin).

(** * Specification-level definitions *)

(** ** The broad-phase buffers *)

(** The pairs recorded so far: the first [m_pairCount] cells of the buffer. *)
Definition pairs (b : b2BroadPhase) : list b2Pair :=
  take (Z.to_nat (m_pairCount b)) (m_pairBuffer b).

(** The pair buffer is an array of [m_pairCapacity] cells, at least two
    (the constructor makes sixteen, and the buffer only grows), of which
    [m_pairCount] are in use. *)
Definition pair_buffer_ok (b : b2BroadPhase) : Prop :=
  Z.of_nat (length (m_pairBuffer b)) = m_pairCapacity b /\
  0 <= m_pairCount b <= m_pairCapacity b /\
  2 <= m_pairCapacity b.

(** The proxies waiting in the move buffer. *)
Definition buffered (b : b2BroadPhase) (id : Z) : Prop :=
  exists i, 0 <= i < m_moveCount b /\ zget (m_moveBuffer b) i = Some id /\ id <> e_nullProxy.

(** What the gathering and the reporting phases of [UpdatePairs] leave
    alone: the tree and the move buffer. *)
Definition same_moves (b s : b2BroadPhase) : Prop :=
  m_tree s = m_tree b /\ m_moveBuffer s = m_moveBuffer b /\ m_moveCount s = m_moveCount b.

(** The leaf of [id] exists and its moved flag is off. *)
Definition moved_cleared (b : b2BroadPhase) (id : Z) : Prop :=
  exists n, zget (m_nodes (m_tree b)) id = Some n /\ moved n = false.


(** ** The node pool of the dynamic tree *)

(** The free list, followed from [head] through the [next] fields. *)
Fixpoint free_chain (ns : list b2TreeNode) (head : Z) (fl : list Z) : Prop :=
  match fl with
  | [] => head = b2_nullNode
  | i :: fl' =>
      head = i /\
      exists n, zget ns i = Some n /\ height n = -1 /\ free_chain ns (next n) fl'
  end.

(** The pool is made of the free list [fl] and of the allocated nodes
    [live]: together they are the indices below the capacity, each once;
    [m_nodeCount] counts the allocated ones. *)
Record arena_ok (s : b2DynamicTree) (fl live : list Z) : Prop := mkArenaOk {
  ar_len : Z.of_nat (length (m_nodes s)) = m_nodeCapacity s;
  ar_pos : 0 < m_nodeCapacity s;
  ar_chain : free_chain (m_nodes s) (m_freeList s) fl;
  ar_perm : fl ++ live ≡ₚ seqZ 0 (m_nodeCapacity s);
  ar_count : m_nodeCount s = Z.of_nat (length live)
}.

(** A node as [AllocateNode] returns it. *)
Definition fresh_node (n : b2TreeNode) : Prop :=
  parent n = b2_nullNode /\ child1 n = b2_nullNode /\ child2 n = b2_nullNode /\
  height n = 0 /\ userData n = 0 /\ moved n = false.

(** Sequences of calls of [AllocateNode] and [FreeNode]. *)
Inductive pool_call :=
| CallAllocateNode
| CallFreeNode (nodeId : Z).

Definition run_pool_call (c : pool_call) : M b2DynamicTree unit :=
  match c with
  | CallAllocateNode => AllocateNode >> ret tt
  | CallFreeNode nodeId => FreeNode nodeId
  end.

Fixpoint run_pool_calls (cs : list pool_call) : M b2DynamicTree unit :=
  match cs with
  | [] => ret tt
  | c :: cs => run_pool_call c >> run_pool_calls cs
  end.

(** The same sequences, with the nodes that are allocated at each point:
    [FreeNode] is applied to an allocated node only. *)
Inductive pool_trace : list Z -> b2DynamicTree -> Prop :=
| pool_new : pool_trace [] b2DynamicTree_new
| pool_allocate live s i s' :
    pool_trace live s -> AllocateNode s = Some (i, s') ->
    pool_trace (i :: live) s'
| pool_free live live' s i s' :
    pool_trace live s -> live ≡ₚ i :: live' -> FreeNode i s = Some (tt, s') ->
    pool_trace live' s'.

(** The free list has [k] nodes. *)
Definition free_list_length (s : b2DynamicTree) (k : Z) : Prop :=
  exists fl, free_chain (m_nodes s) (m_freeList s) fl /\ k = Z.of_nat (length fl).

(** ** The tree held by the node array *)

(** The tree as a value: a leaf carries what its node stores for the proxy
    (fat AABB, user data, moved flag); every node carries its index. *)
Inductive tree :=
| Lf (i : Z) (box : b2AABB) (data : Z) (mv : bool)
| Nd (i : Z) (l r : tree).

Definition root_of (t : tree) : Z :=
  match t with Lf i _ _ _ => i | Nd i _ _ => i end.

Fixpoint ids (t : tree) : list Z :=
  match t with
  | Lf i _ _ _ => [i]
  | Nd i l r => i :: ids l ++ ids r
  end.

Fixpoint leaves (t : tree) : list (Z * b2AABB * Z * bool) :=
  match t with
  | Lf i box data mv => [(i, box, data, mv)]
  | Nd _ l r => leaves l ++ leaves r
  end.

Fixpoint theight (t : tree) : Z :=
  match t with
  | Lf _ _ _ _ => 0
  | Nd _ l r => 1 + Z.max (theight l) (theight r)
  end.

(** The nodes [ns] hold the tree [t] below the parent [p]: the pointers
    are those of [t], an inner node has the height of its subtree and the
    union of the boxes stored in its two children (the code combines them in
    either order). *)
Fixpoint wf (ns : list b2TreeNode) (p : Z) (t : tree) : Prop :=
  match t with
  | Lf i box data mv =>
      zget ns i = Some (mkNode box data p b2_nullNode b2_nullNode 0 mv)
  | Nd i l r =>
      (exists n nl nr,
         zget ns i = Some n /\ zget ns (root_of l) = Some nl /\
         zget ns (root_of r) = Some nr /\
         parent n = p /\ child1 n = root_of l /\ child2 n = root_of r /\
         height n = theight t /\
         (aabb n = Combine (aabb nl) (aabb nr) \/ aabb n = Combine (aabb nr) (aabb nl))) /\
      wf ns i l /\ wf ns i r
  end.

(** The path from a subtree up to the root, with the subtrees that hang
    off it.  The heights and boxes of the nodes on the path are not
    constrained: they are the ones that the walks up the tree repair. *)
Inductive ctx :=
| Top
| InL (i : Z) (c : ctx) (r : tree)
| InR (i : Z) (l : tree) (c : ctx).

Definition ctx_id (c : ctx) : Z :=
  match c with Top => b2_nullNode | InL i _ _ => i | InR i _ _ => i end.

Fixpoint ctx_ids (c : ctx) : list Z :=
  match c with
  | Top => []
  | InL i c r => i :: ids r ++ ctx_ids c
  | InR i l c => i :: ids l ++ ctx_ids c
  end.

Fixpoint ctx_leaves (c : ctx) : list (Z * b2AABB * Z * bool) :=
  match c with
  | Top => []
  | InL _ c r => leaves r ++ ctx_leaves c
  | InR _ l c => leaves l ++ ctx_leaves c
  end.

Fixpoint ctx_depth (c : ctx) : nat :=
  match c with
  | Top => O
  | InL _ c _ => S (ctx_depth c)
  | InR _ l c => S (ctx_depth c)
  end.

(** The nodes hold the path [c] above a subtree whose root is [h]; [rt] is
    the tree's root pointer. *)
Fixpoint wf_ctx (ns : list b2TreeNode) (rt : Z) (c : ctx) (h : Z) : Prop :=
  match c with
  | Top => rt = h
  | InL i c r =>
      (exists n, zget ns i = Some n /\ parent n = ctx_id c /\
                 child1 n = h /\ child2 n = root_of r) /\
      wf ns i r /\ wf_ctx ns rt c i
  | InR i l c =>
      (exists n, zget ns i = Some n /\ parent n = ctx_id c /\
                 child1 n = root_of l /\ child2 n = h) /\
      wf ns i l /\ wf_ctx ns rt c i
  end.

(** The subtree [t] in its place [c] of the tree. *)
Definition focus (s : b2DynamicTree) (c : ctx) (t : tree) : Prop :=
  wf (m_nodes s) (ctx_id c) t /\
  wf_ctx (m_nodes s) (m_root s) c (root_of t) /\
  NoDup (ids t ++ ctx_ids c).

(** The node [i] in its place [c], above the subtrees [tB] and [tC]; the
    height and the box of [i] itself are not constrained. *)
Definition stale (s : b2DynamicTree) (c : ctx) (i : Z) (tB tC : tree) : Prop :=
  (exists n, zget (m_nodes s) i = Some n /\ parent n = ctx_id c /\
             child1 n = root_of tB /\ child2 n = root_of tC) /\
  wf (m_nodes s) i tB /\ wf (m_nodes s) i tC /\
  wf_ctx (m_nodes s) (m_root s) c i /\
  NoDup (i :: ids tB ++ ids tC ++ ctx_ids c).

Definition opt_ids (ot : option tree) : list Z :=
  match ot with Some t => ids t | None => [] end.

Definition opt_leaves (ot : option tree) : list (Z * b2AABB * Z * bool) :=
  match ot with Some t => leaves t | None => [] end.

(** The state of a dynamic tree between two operations: the pool is in
    order, the allocated nodes are those of the tree [ot] and the nodes
    [extra] (leaves that are allocated and not inserted), and the root
    pointer leads to [ot]. *)
Definition tree_ok (s : b2DynamicTree) (ot : option tree) (extra : list Z) : Prop :=
  (exists fl, arena_ok s fl (extra ++ opt_ids ot)) /\
  match ot with
  | None => m_root s = b2_nullNode
  | Some t => m_root s = root_of t /\ wf (m_nodes s) b2_nullNode t
  end.

(** ** Sequences of proxy operations, and what they keep *)

(** The AABB that [CreateProxy] stores for a proxy. *)
Definition fattened (box : b2AABB) : b2AABB :=
  let r := mkVec2 b2_aabbExtension b2_aabbExtension in
  mkAABB (vsub (lowerBound box) r) (vadd (upperBound box) r).

(** Calls of [CreateProxy], [DestroyProxy] and [MoveProxy], with any
    arguments. *)
Inductive proxy_call :=
| CallCreateProxy (box : b2AABB) (data : Z)
| CallDestroyProxy (proxyId : Z)
| CallMoveProxy (proxyId : Z) (box : b2AABB) (displacement : b2Vec2).

Definition run_proxy_call (fuel : nat) (c : proxy_call) : M b2DynamicTree unit :=
  match c with
  | CallCreateProxy box data => CreateProxy fuel box data >> ret tt
  | CallDestroyProxy proxyId => DestroyProxy fuel proxyId
  | CallMoveProxy proxyId box displacement =>
      MoveProxy fuel proxyId box displacement >> ret tt
  end.

Fixpoint run_proxy_calls (fuel : nat) (cs : list proxy_call) : M b2DynamicTree unit :=
  match cs with
  | [] => ret tt
  | c :: cs => run_proxy_call fuel c >> run_proxy_calls fuel cs
  end.

(** The same sequences, with the proxies that exist at each point:
    [DestroyProxy] and [MoveProxy] are applied to an existing proxy only. *)
Inductive proxy_trace : list Z -> b2DynamicTree -> Prop :=
| trace_new : proxy_trace [] b2DynamicTree_new
| trace_create live s fuel box data id s' :
    proxy_trace live s -> CreateProxy fuel box data s = Some (id, s') ->
    proxy_trace (id :: live) s'
| trace_destroy live live' s fuel id s' :
    proxy_trace live s -> live ≡ₚ id :: live' ->
    DestroyProxy fuel id s = Some (tt, s') ->
    proxy_trace live' s'
| trace_move live s fuel id box d r s' :
    proxy_trace live s -> id ∈ live ->
    MoveProxy fuel id box d s = Some (r, s') ->
    proxy_trace live s'.

(** Sequences of operations of the tree on existing proxies: those of
    [proxy_trace], [ClearMoved] (which [UpdatePairs] applies to the proxies
    of its move buffer) and [ShiftOrigin]. *)
Inductive tree_trace : list Z -> b2DynamicTree -> Prop :=
| tree_new : tree_trace [] b2DynamicTree_new
| tree_create live s fuel box data id s' :
    tree_trace live s -> CreateProxy fuel box data s = Some (id, s') ->
    tree_trace (id :: live) s'
| tree_destroy live live' s fuel id s' :
    tree_trace live s -> live ≡ₚ id :: live' ->
    DestroyProxy fuel id s = Some (tt, s') ->
    tree_trace live' s'
| tree_move live s fuel id box d r s' :
    tree_trace live s -> id ∈ live ->
    MoveProxy fuel id box d s = Some (r, s') ->
    tree_trace live s'
| tree_clear live s id s' :
    tree_trace live s -> id ∈ live ->
    ClearMoved id s = Some (tt, s') ->
    tree_trace live s'
| tree_shift live s newOrigin s' :
    tree_trace live s ->
    ShiftOrigin newOrigin s = Some (tt, s') ->
    tree_trace live s'.

(** The tree [t] after [ShiftOrigin]. *)
Fixpoint tshift (o : b2Vec2) (t : tree) : tree :=
  match t with
  | Lf i box data mv => Lf i (shifted o box) data mv
  | Nd i l r => Nd i (tshift o l) (tshift o r)
  end.

(** What the accessors of the tree return for a proxy: its fat AABB, its
    user data and its moved flag. *)
Definition proxy_of (s : b2DynamicTree) (proxyId : Z) : option (b2AABB * Z * bool) :=
  match GetFatAABB proxyId s, GetUserData proxyId s, WasMoved proxyId s with
  | Some (a, _), Some (d, _), Some (m, _) => Some (a, d, m)
  | _, _, _ => None
  end.

(** The free list as the code follows it: from [m_freeList] through the
    [next] fields, for as many steps as there are nodes. *)
Fixpoint free_list_from (fuel : nat) (ns : list b2TreeNode) (head : Z) : list Z :=
  match fuel with
  | O => []
  | S fuel =>
      if head =? b2_nullNode then []
      else head :: match zget ns head with
                   | Some n => free_list_from fuel ns (next n)
                   | None => []
                   end
  end.

(** The nodes on the free list of a tree. *)
Definition free_list (s : b2DynamicTree) : list Z :=
  free_list_from (length (m_nodes s)) (m_nodes s) (m_freeList s).

(** What holds of a node [n] that is not free: a leaf has height 0; the
    AABB of an internal node contains the union of the AABBs of its
    children, and its height is one more than the larger of theirs. *)
Definition node_inv (ns : list b2TreeNode) (n : b2TreeNode) : Prop :=
  if IsLeaf n then height n = 0
  else exists n1 n2,
      zget ns (child1 n) = Some n1 /\ zget ns (child2 n) = Some n2 /\
      Contains (aabb n) (Combine (aabb n1) (aabb n2)) = true /\
      height n = 1 + Z.max (height n1) (height n2).

(** Every node that is not on the free list satisfies [node_inv]. *)
Definition nodes_inv (s : b2DynamicTree) : Prop :=
  forall j n, zget (m_nodes s) j = Some n -> j ∉ free_list s -> node_inv (m_nodes s) n.

(** The proxy of a leaf. *)
Definition leaf_id (l : Z * b2AABB * Z * bool) : Z := l.1.1.1.

(** The unit square whose lower corner is [(px, py)]. *)
Definition unit_box (px py : Z) : b2AABB :=
  mkAABB (mkVec2 (inject_Z px) (inject_Z py)) (mkVec2 (inject_Z (px + 1)) (inject_Z (py + 1))).

(** The AABB of claim C3, in the claim's words: [box] inflated by
    [b2_aabbExtension] on all sides, then on each axis the lower bound
    decreased by [b2_aabbMultiplier] times the displacement when the
    displacement is negative on that axis, and the upper bound increased by
    it otherwise. *)
Definition claimed_fatAABB (box : b2AABB) (displacement : b2Vec2) : b2AABB :=
  let lower := vsub (lowerBound box) (mkVec2 b2_aabbExtension b2_aabbExtension) in
  let upper := vadd (upperBound box) (mkVec2 b2_aabbExtension b2_aabbExtension) in
  let '(lx, ux) :=
    if flt (x displacement) 0
    then ((x lower + b2_aabbMultiplier * x displacement)%Q, x upper)
    else (x lower, (x upper + b2_aabbMultiplier * x displacement)%Q) in
  let '(ly, uy) :=
    if flt (y displacement) 0
    then ((y lower + b2_aabbMultiplier * y displacement)%Q, y upper)
    else (y lower, (y upper + b2_aabbMultiplier * y displacement)%Q) in
  mkAABB (mkVec2 lx ly) (mkVec2 ux uy).

(** The box [a] inflated by [r] on all four sides, in the words of claim
    C2. *)
Definition inflated (r : float) (a : b2AABB) : b2AABB :=
  mkAABB (mkVec2 (x (lowerBound a) - r) (y (lowerBound a) - r))
         (mkVec2 (x (upperBound a) + r) (y (upperBound a) + r)).

(** ** The broad-phase between two operations *)

(** The move buffer is an array of [m_moveCapacity] cells of which
    [m_moveCount] are in use; each of these holds an existing proxy or
    [e_nullProxy]. *)
Definition move_buffer_ok (b : b2BroadPhase) (live : list Z) : Prop :=
  Z.of_nat (length (m_moveBuffer b)) = m_moveCapacity b /\
  0 <= m_moveCount b <= m_moveCapacity b /\ 0 < m_moveCapacity b /\
  forall i id, 0 <= i < m_moveCount b -> zget (m_moveBuffer b) i = Some id ->
               id = e_nullProxy \/ id ∈ live.

(** The broad-phase holds a tree in order whose leaves are the proxies
    [live], and its two buffers are in order. *)
Definition bp_ok (b : b2BroadPhase) (live : list Z) : Prop :=
  (exists ot, tree_ok (m_tree b) ot [] /\ leaf_id <$> opt_leaves ot ≡ₚ live) /\
  move_buffer_ok b live /\ pair_buffer_ok b.

(** Sequences of operations of the broad-phase on existing proxies, with
    the proxies that exist at each point. *)
Inductive bp_trace : list Z -> b2BroadPhase -> Prop :=
| bp_new : bp_trace [] b2BroadPhase_new
| bp_create live b fuel box data id b' :
    bp_trace live b -> BP_CreateProxy fuel box data b = Some (id, b') ->
    bp_trace (id :: live) b'
| bp_destroy live live' b fuel id b' :
    bp_trace live b -> live ≡ₚ id :: live' ->
    BP_DestroyProxy fuel id b = Some (tt, b') ->
    bp_trace live' b'
| bp_move live b fuel id box d b' :
    bp_trace live b -> id ∈ live ->
    BP_MoveProxy fuel id box d b = Some (tt, b') ->
    bp_trace live b'
| bp_touch live b id b' :
    bp_trace live b -> id ∈ live ->
    TouchProxy id b = Some (tt, b') ->
    bp_trace live b'
| bp_update live b fuel calls b' :
    bp_trace live b -> UpdatePairs fuel b = Some (calls, b') ->
    bp_trace live b'.
(** * Definitions used by the proofs *)

(** [wp m s Q]: from state [s] the run of [m] returns, with a result and a
    state that satisfy [Q]. *)
Definition wp {St A} (m : M St A) (s : St) (Q : A -> St -> Prop) : Prop :=
  exists a s', m s = Some (a, s') /\ Q a s'.

(** The two halves of [AllocateNode]: growing the pool when the free list
    is empty, and peeling a node off the free list. *)
Definition grow_pool : M b2DynamicTree unit :=
  let* t := get in
  if m_freeList t =? b2_nullNode then
    b2Assert (m_nodeCount t =? m_nodeCapacity t) >>
    let capacity := m_nodeCapacity t * 2 in
    modify (with_nodeCapacity capacity) >>
    modify (with_nodes (take (Z.to_nat (m_nodeCount t)) (m_nodes t)
                        ++ replicate (Z.to_nat (capacity - m_nodeCount t)) zero_node)) >>
    link_free_nodes (m_nodeCount t) >>
    modify (with_freeList (m_nodeCount t))
  else ret tt.

(** The second half of [AllocateNode]. *)
Definition peel_node : M b2DynamicTree Z :=
  let* t := get in
  let nodeId := m_freeList t in
  let* nx := fld next nodeId in
  modify (with_freeList nx) >>
  store (with_parent b2_nullNode) nodeId >>
  store (with_child1 b2_nullNode) nodeId >>
  store (with_child2 b2_nullNode) nodeId >>
  store (with_height 0) nodeId >>
  store (with_userData 0) nodeId >>
  store (with_moved false) nodeId >>
  modify (fun t => with_nodeCount (m_nodeCount t + 1) t) >>
  ret nodeId.

(** The code of [Balance] spells the rotation out twice, for [C] and for
    [B].  Both are this one: [iUp] (a child of [iA], with children [iX] and
    [iY]) takes the place of [iA]; the taller of [iX] and [iY] stays under
    [iUp], the other one replaces [iUp] under [iA], as [child2] when [iUp]
    is [C] ([side = true]) and as [child1] when it is [B]; [iOther] is the
    child that [iA] keeps. *)
Definition rotate_up (side : bool) (iA iUp iOther iX iY : Z) : M b2DynamicTree Z :=
  let* okX := in_capacity iX in
  b2Assert okX >>
  let* okY := in_capacity iY in
  b2Assert okY >>
  store (with_child1 iA) iUp >>
  let* pA := fld parent iA in
  store (with_parent pA) iUp >>
  store (with_parent iUp) iA >>
  let* pUp := fld parent iUp in
  (if negb (pUp =? b2_nullNode) then
     let* c1 := fld child1 pUp in
     if c1 =? iA then store (with_child1 iUp) pUp
     else
       let* c2 := fld child2 pUp in
       b2Assert (c2 =? iA) >>
       store (with_child2 iUp) pUp
   else modify (with_root iUp)) >>
  let* hX := fld height iX in
  let* hY := fld height iY in
  let iStay := if hX >? hY then iX else iY in
  let iMove := if hX >? hY then iY else iX in
  store (with_child2 iStay) iUp >>
  store ((if side then with_child2 else with_child1) iMove) iA >>
  store (with_parent iA) iMove >>
  (let* aO := fld aabb iOther in
   let* aM := fld aabb iMove in
   store (with_aabb (Combine aO aM)) iA) >>
  (let* aA := fld aabb iA in
   let* aS := fld aabb iStay in
   store (with_aabb (Combine aA aS)) iUp) >>
  (let* hO := fld height iOther in
   let* hM := fld height iMove in
   store (with_height (1 + b2Max hO hM)) iA) >>
  (let* hA := fld height iA in
   let* hS := fld height iStay in
   store (with_height (1 + b2Max hA hS)) iUp) >>
  ret iUp.

(** [Balance], with its two rotations as calls of [rotate_up]. *)
Definition Balance_alt (iA : Z) : M b2DynamicTree Z :=
  b2Assert (negb (iA =? b2_nullNode)) >>
  let* A := node iA in
  if IsLeaf A || (height A <? 2) then ret iA
  else
    let iB := child1 A in
    let iC := child2 A in
    let* okB := in_capacity iB in
    b2Assert okB >>
    let* okC := in_capacity iC in
    b2Assert okC >>
    let* hB := fld height iB in
    let* hC := fld height iC in
    let balance := hC - hB in
    if balance >? 1 then
      let* iF := fld child1 iC in
      let* iG := fld child2 iC in
      rotate_up true iA iC iB iF iG
    else if balance <? -1 then
      let* iD := fld child1 iB in
      let* iE := fld child2 iB in
      rotate_up false iA iB iC iD iE
    else ret iA.

(** The second half of the rotation: the assignments that follow the
    choice of the grandchild [iS] that stays and of [iM] that moves. *)
Definition rotate_tail (side : bool) (iA iUp iO iS iM : Z) : M b2DynamicTree Z :=
  store (with_child2 iS) iUp >>
  store ((if side then with_child2 else with_child1) iM) iA >>
  store (with_parent iA) iM >>
  (let* aO := fld aabb iO in
   let* aM := fld aabb iM in
   store (with_aabb (Combine aO aM)) iA) >>
  (let* aA := fld aabb iA in
   let* aS := fld aabb iS in
   store (with_aabb (Combine aA aS)) iUp) >>
  (let* hO := fld height iO in
   let* hM := fld height iM in
   store (with_height (1 + b2Max hO hM)) iA) >>
  (let* hA := fld height iA in
   let* hS := fld height iS in
   store (with_height (1 + b2Max hA hS)) iUp) >>
  ret iUp.

(** What a walk up the tree reaches at its end: a whole tree [t'] made of
    the nodes it started from, and nothing changed outside of them. *)
Definition walked (s : b2DynamicTree) (all : list Z)
    (lvs : list (Z * b2AABB * Z * bool)) (s' : b2DynamicTree) : Prop :=
  exists t',
    wf (m_nodes s') b2_nullNode t' /\ m_root s' = root_of t' /\
    ids t' ≡ₚ all /\ leaves t' ≡ₚ lvs /\
    (forall j, j ∉ all -> zget (m_nodes s') j = zget (m_nodes s) j) /\
    length (m_nodes s') = length (m_nodes s) /\
    m_nodeCount s' = m_nodeCount s /\ m_nodeCapacity s' = m_nodeCapacity s /\
    m_freeList s' = m_freeList s /\ m_insertionCount s' = m_insertionCount s.

(** The second half of [RemoveLeaf]: the parent leaves the tree and the
    sibling takes its place. *)
Definition RemoveLeaf_unlink (fuel : nat) (parent_ grandParent sibling : Z)
    : M b2DynamicTree unit :=
  if negb (grandParent =? b2_nullNode) then
    (let* g1 := fld child1 grandParent in
     if g1 =? parent_ then store (with_child1 sibling) grandParent
     else store (with_child2 sibling) grandParent) >>
    store (with_parent grandParent) sibling >>
    FreeNode parent_ >>
    RemoveLeaf_fix fuel grandParent
  else
    modify (with_root sibling) >>
    store (with_parent b2_nullNode) sibling >>
    FreeNode parent_.

(** The second half of [InsertLeaf]: the new parent takes the place of
    the sibling, above the sibling and the leaf. *)
Definition InsertLeaf_link (fuel : nat) (leaf : Z) (leafAABB : b2AABB)
    (sibling oldParent newParent : Z) : M b2DynamicTree unit :=
  store (with_parent oldParent) newParent >>
  store (with_userData 0) newParent >>
  (let* aS := fld aabb sibling in
   store (with_aabb (Combine leafAABB aS)) newParent) >>
  (let* hS := fld height sibling in
   store (with_height (hS + 1)) newParent) >>
  (if negb (oldParent =? b2_nullNode) then
     (let* c1 := fld child1 oldParent in
      if c1 =? sibling then store (with_child1 newParent) oldParent
      else store (with_child2 newParent) oldParent) >>
     store (with_child1 sibling) newParent >>
     store (with_child2 leaf) newParent >>
     store (with_parent newParent) sibling >>
     store (with_parent newParent) leaf
   else
     store (with_child1 sibling) newParent >>
     store (with_child2 leaf) newParent >>
     store (with_parent newParent) sibling >>
     store (with_parent newParent) leaf >>
     modify (with_root newParent)) >>
  let* index := fld parent leaf in
  InsertLeaf_fix fuel index.

(** The nodes that a query still has to visit: null indices and subtrees;
    [k] bounds the number of nodes it will take off its stack. *)
Inductive stack_cost (ns : list b2TreeNode) : list Z -> nat -> Prop :=
| cost_nil : stack_cost ns [] 0
| cost_null st k : stack_cost ns st k -> stack_cost ns (b2_nullNode :: st) (S k)
| cost_tree p t st k :
    wf ns p t -> stack_cost ns st k ->
    stack_cost ns (root_of t :: st) (length (ids t) + k).

(** What the gathering phase of [UpdatePairs] keeps, from the state [b] it
    starts in: the tree and the move buffer, and a pair buffer in order
    whose pairs are made of node indices. *)
Definition gathering (b s : b2BroadPhase) : Prop :=
  same_moves b s /\ m_moveCapacity s = m_moveCapacity b /\ pair_buffer_ok s /\
  Forall (fun p => 0 <= proxyIdA p < m_nodeCapacity (m_tree b) /\
                   0 <= proxyIdB p < m_nodeCapacity (m_tree b)) (pairs s).

(** A node after [ShiftOrigin]. *)
Definition shift_node (o : b2Vec2) (n : b2TreeNode) : b2TreeNode :=
  with_aabb (shifted o (aabb n)) n.

(** * Properties *)

(** ** Geometry *)

Lemma flt_true a b : flt a b = true <-> (a < b)%Q.
Proof. unfold flt. rewrite Qlt_alt. destruct (a ?= b)%Q; split; congruence. Qed.

Lemma flt_false a b : flt a b = false <-> (b <= a)%Q.
Proof.
  rewrite <- not_true_iff_false, flt_true. split.
  - apply Qnot_lt_le.
  - apply Qle_not_lt.
Qed.

Lemma fle_true a b : fle a b = true <-> (a <= b)%Q.
Proof. unfold fle. rewrite Qle_alt. destruct (a ?= b)%Q; split; congruence. Qed.

Lemma Qmax_pos a b : (0 < Qmax a b <-> 0 < a \/ 0 < b)%Q.
Proof. apply Q.max_lt_iff. Qed.

Lemma b2TestOverlap_false a b :
  b2TestOverlap a b = false <-> (0 < gap_x a b \/ 0 < gap_y a b)%Q.
Proof.
  unfold b2TestOverlap, gap_x, gap_y. rewrite !Qmax_pos. cbn [vsub x y].
  destruct (flt 0 (x (lowerBound b) - x (upperBound a))%Q) eqn:E1;
  destruct (flt 0 (y (lowerBound b) - y (upperBound a))%Q) eqn:E2;
  destruct (flt 0 (x (lowerBound a) - x (upperBound b))%Q) eqn:E3;
  destruct (flt 0 (y (lowerBound a) - y (upperBound b))%Q) eqn:E4;
  cbn [orb];
  repeat match goal with
         | H : flt _ _ = true |- _ => apply flt_true in H
         | H : flt _ _ = false |- _ => apply flt_false in H
         end;
  split; intros H; try reflexivity; try discriminate; try tauto.
  exfalso. destruct H as [[H|H]|[H|H]]; lra.
Qed.

Lemma b2TestOverlap_sym a b : b2TestOverlap a b = b2TestOverlap b a.
Proof.
  destruct (b2TestOverlap a b) eqn:E1, (b2TestOverlap b a) eqn:E2; try reflexivity.
  - apply b2TestOverlap_false in E2. apply not_false_iff_true in E1.
    exfalso. apply E1. apply b2TestOverlap_false.
    unfold gap_x, gap_y in *. rewrite !Qmax_pos in *. tauto.
  - apply b2TestOverlap_false in E1. apply not_false_iff_true in E2.
    exfalso. apply E2. apply b2TestOverlap_false.
    unfold gap_x, gap_y in *. rewrite !Qmax_pos in *. tauto.
Qed.

(** C9.  [b2TestOverlap] answers [false] exactly when the gap between the
    two boxes is strictly positive along some axis.  Boxes whose gap is
    zero along an axis (a shared edge or corner) and not positive along the
    other are therefore reported as overlapping, and the answer does not
    depend on the order of the arguments. *)
Theorem b2TestOverlap_gap :
  forall a b : b2AABB,
    (b2TestOverlap a b = false <-> (0 < gap_x a b \/ 0 < gap_y a b)%Q) /\
    (((gap_x a b == 0 /\ gap_y a b <= 0) \/ (gap_x a b <= 0 /\ gap_y a b == 0))%Q ->
       b2TestOverlap a b = true) /\
    b2TestOverlap a b = b2TestOverlap b a.
Proof.
  intros a b. split; [apply b2TestOverlap_false|]. split; [|apply b2TestOverlap_sym].
  intros H. apply not_false_iff_true. rewrite b2TestOverlap_false.
  intros [G|G]; destruct H as [[H1 H2]|[H1 H2]];
    try rewrite H1 in G; try rewrite H2 in G; lra.
Qed.

(** ** Arrays *)

Lemma zget_Some_range {A} (l : list A) i v :
  zget l i = Some v -> 0 <= i < Z.of_nat (length l).
Proof.
  unfold zget. case_decide; [|discriminate]. intros Hl%lookup_lt_Some. lia.
Qed.

Lemma zget_in_range {A} (l : list A) i :
  0 <= i < Z.of_nat (length l) -> exists v, zget l i = Some v.
Proof.
  intros Hr. unfold zget. case_decide; [|lia].
  destruct (lookup_lt_is_Some_2 l (Z.to_nat i)) as [v Hv]; [lia|]. eauto.
Qed.

Lemma zset_Some {A} (l : list A) i v l' :
  zset l i v = Some l' ->
  0 <= i < Z.of_nat (length l) /\ l' = upd l i v.
Proof. unfold zset. case_decide; [|discriminate]. intros [= <-]. auto. Qed.

Lemma zset_in_range {A} (l : list A) i v :
  0 <= i < Z.of_nat (length l) -> zset l i v = Some (upd l i v).
Proof. intros Hr. unfold zset. case_decide; [reflexivity|lia]. Qed.

Lemma length_upd {A} (l : list A) i v : length (upd l i v) = length l.
Proof. unfold upd. case_decide; [apply length_insert|reflexivity]. Qed.

Lemma zset_length {A} (l : list A) i v l' :
  zset l i v = Some l' -> length l' = length l.
Proof. intros [_ ->]%zset_Some. apply length_upd. Qed.

Lemma zget_upd_eq {A} (l : list A) i v :
  0 <= i < Z.of_nat (length l) -> zget (upd l i v) i = Some v.
Proof.
  intros Hr. unfold zget, upd. repeat case_decide; try lia.
  apply list_lookup_insert_eq. lia.
Qed.

Lemma zget_upd_ne {A} (l : list A) i j v :
  i <> j -> zget (upd l i v) j = zget l j.
Proof.
  intros Hne. unfold zget, upd. repeat case_decide; try reflexivity.
  apply list_lookup_insert_ne. lia.
Qed.

Lemma zget_zset_eq {A} (l : list A) i v l' :
  zset l i v = Some l' -> zget l' i = Some v.
Proof. intros [Hr ->]%zset_Some. apply zget_upd_eq, Hr. Qed.

Lemma zget_zset_ne {A} (l : list A) i j v l' :
  zset l i v = Some l' -> i <> j -> zget l' j = zget l j.
Proof. intros [Hr ->]%zset_Some Hne. apply zget_upd_ne, Hne. Qed.

Lemma zget_upd {A} (l : list A) i j v :
  0 <= i < Z.of_nat (length l) ->
  zget (upd l i v) j = if decide (j = i) then Some v else zget l j.
Proof.
  intros Hr. case_decide as E.
  - subst j. apply zget_upd_eq, Hr.
  - apply zget_upd_ne. congruence.
Qed.

(** ** Integer helpers *)

Lemma range_true i c : 0 <= i < c -> (0 <=? i) && (i <? c) = true.
Proof. intros H. apply andb_true_iff. split; [apply Z.leb_le|apply Z.ltb_lt]; lia. Qed.

Lemma range_inv i c : (0 <=? i) && (i <? c) = true -> 0 <= i < c.
Proof. intros [H1%Z.leb_le H2%Z.ltb_lt]%andb_true_iff. lia. Qed.

Lemma b2Min_spec a b : b2Min a b = Z.min a b.
Proof. unfold b2Min. destruct (Z.ltb_spec a b); lia. Qed.

Lemma b2Max_spec a b : b2Max a b = Z.max a b.
Proof. unfold b2Max. rewrite Z.gtb_ltb. destruct (Z.ltb_spec b a); lia. Qed.

(** ** Running the monad *)

Lemma bind_Some {St A B} (m : M St A) (k : A -> M St B) s b s' :
  bind m k s = Some (b, s') <->
  exists a s1, m s = Some (a, s1) /\ k a s1 = Some (b, s').
Proof.
  unfold bind. split.
  - destruct (m s) as [[a s1]|]; [|discriminate]. eauto.
  - intros (a & s1 & -> & H). exact H.
Qed.

Lemma bind_run {St A B} (m : M St A) (k : A -> M St B) s a s1 :
  m s = Some (a, s1) -> bind m k s = k a s1.
Proof. unfold bind. intros ->. reflexivity. Qed.

Lemma bind_ext {St A B} (m : M St A) (k1 k2 : A -> M St B) s :
  (forall a s1, k1 a s1 = k2 a s1) -> bind m k1 s = bind m k2 s.
Proof. intros H. unfold bind. destruct (m s) as [[a s1]|]; auto. Qed.

Lemma b2Assert_Some {St} (c : bool) (s s' : St) u :
  b2Assert c s = Some (u, s') <-> c = true /\ s' = s.
Proof.
  unfold b2Assert, ret, fail. destruct c, u; split.
  - intros [= <-]. auto.
  - intros [_ ->]. reflexivity.
  - discriminate.
  - intros [[=] _].
Qed.

Lemma for_range_nil {St} lo hi (body : Z -> M St unit) s :
  hi <= lo -> for_range lo hi body s = Some (tt, s).
Proof.
  intros H. unfold for_range, seqZ.
  replace (Z.to_nat (hi - lo)) with O by lia. reflexivity.
Qed.

Lemma for_range_step {St} lo hi (body : Z -> M St unit) s :
  lo < hi -> for_range lo hi body s = (body lo >> for_range (lo + 1) hi body) s.
Proof.
  intros H. unfold for_range.
  replace (hi - lo) with (Z.succ (hi - (lo + 1))) by lia.
  rewrite seqZ_cons by lia. cbn [foldr].
  replace (Z.succ lo) with (lo + 1) by lia.
  replace (Z.pred (Z.succ (hi - (lo + 1)))) with (hi - (lo + 1)) by lia.
  reflexivity.
Qed.

(** A loop invariant for [for_range]: when every iteration returns and
    keeps [I], so does the loop. *)
Lemma for_range_inv {St} (I : Z -> St -> Prop) lo hi (body : Z -> M St unit) s :
  lo <= hi -> I lo s ->
  (forall i s1, lo <= i < hi -> I i s1 ->
     exists s2, body i s1 = Some (tt, s2) /\ I (i + 1) s2) ->
  exists s', for_range lo hi body s = Some (tt, s') /\ I hi s'.
Proof.
  intros Hle. remember (Z.to_nat (hi - lo)) as n eqn:Hn.
  revert lo s Hle Hn. induction n as [|n IH]; intros lo s Hle Hn HI Hbody.
  - assert (hi = lo) as -> by lia. rewrite for_range_nil by lia. eauto.
  - rewrite for_range_step by lia.
    destruct (Hbody lo s) as (s2 & Hb & HI2); [lia|exact HI|].
    rewrite (bind_run _ _ _ _ _ Hb).
    apply IH; [lia|lia|exact HI2|].
    intros i s1 Hi. apply Hbody. lia.
Qed.

(** The same for a loop that is known to have returned. *)
Lemma for_range_post {St} (I : Z -> St -> Prop) lo hi (body : Z -> M St unit) s s' :
  I lo s ->
  (forall i s1 s2, lo <= i < hi -> I i s1 -> body i s1 = Some (tt, s2) -> I (i + 1) s2) ->
  for_range lo hi body s = Some (tt, s') -> I (Z.max lo hi) s'.
Proof.
  remember (Z.to_nat (hi - lo)) as n eqn:Hn.
  revert lo s Hn. induction n as [|n IH]; intros lo s Hn HI Hbody.
  - rewrite for_range_nil by lia. intros [= <-].
    replace (Z.max lo hi) with lo by lia. exact HI.
  - rewrite for_range_step by lia.
    intros (u & s2 & Hb & Hrest)%bind_Some. destruct u.
    replace (Z.max lo hi) with (Z.max (lo + 1) hi) by lia.
    eapply (IH (lo + 1) s2); [lia| |intros i s1 s3 Hi; apply Hbody; lia|exact Hrest].
    eapply Hbody; [|exact HI|exact Hb]. lia.
Qed.

Lemma for_collect_nil {St A} lo hi (body : Z -> M St A) s :
  hi <= lo -> for_collect lo hi body s = Some ([], s).
Proof.
  intros H. unfold for_collect, seqZ.
  replace (Z.to_nat (hi - lo)) with O by lia. reflexivity.
Qed.

Lemma ret_Some {St A} (a b : A) (s s' : St) :
  ret a s = Some (b, s') <-> b = a /\ s' = s.
Proof. unfold ret. split; [intros [= <- <-]|intros [-> ->]]; auto. Qed.

Lemma get_Some {St} (s a s' : St) : get s = Some (a, s') <-> a = s /\ s' = s.
Proof. unfold get. split; [intros [= <- <-]|intros [-> ->]]; auto. Qed.

Lemma modify_Some {St} (f : St -> St) (s s' : St) u :
  modify f s = Some (u, s') <-> s' = f s.
Proof. unfold modify. destruct u. split; [intros [= <-]|intros ->]; auto. Qed.

(** Taking apart a run that is known to have returned: [minv_all] goes
    through a whole run, [minv] stops at what follows the last [bind]. *)
Ltac minv_all H :=
  cbv beta in H;
  lazymatch type of H with
  | bind _ _ _ = Some _ =>
      let a := fresh "a" in let s := fresh "s" in
      let H1 := fresh "Hrun" in
      apply bind_Some in H; destruct H as (a & s & H1 & H);
      minv_all H1; minv_all H
  | ret _ _ = Some (?b, ?s') =>
      apply ret_Some in H;
      let E1 := fresh "E" in let E2 := fresh "E" in
      destruct H as [E1 E2]; try subst b; try subst s'
  | get _ = Some (?a, ?s') =>
      apply get_Some in H;
      let E1 := fresh "E" in let E2 := fresh "E" in
      destruct H as [E1 E2]; try subst a; try subst s'
  | modify _ _ = Some (_, ?s') => apply modify_Some in H; try subst s'
  | b2Assert _ _ = Some (_, ?s') =>
      apply b2Assert_Some in H;
      let E2 := fresh "E" in
      destruct H as [H E2]; try subst s'
  | fail _ = Some _ => unfold fail in H; discriminate H
  | _ => idtac
  end.

Ltac minv H :=
  cbv beta in H;
  lazymatch type of H with
  | bind _ _ _ = Some _ =>
      let a := fresh "a" in let s := fresh "s" in
      let H1 := fresh "Hrun" in
      apply bind_Some in H; destruct H as (a & s & H1 & H);
      minv_all H1; minv H
  | fail _ = Some _ => unfold fail in H; discriminate H
  | _ => idtac
  end.

Lemma for_collect_step {St A} lo hi (body : Z -> M St A) s :
  lo < hi ->
  for_collect lo hi body s =
  (let* a := body lo in let* l := for_collect (lo + 1) hi body in ret (a :: l)) s.
Proof.
  intros H. unfold for_collect.
  replace (hi - lo) with (Z.succ (hi - (lo + 1))) by lia.
  rewrite seqZ_cons by lia. cbn [foldr].
  replace (Z.succ lo) with (lo + 1) by lia.
  replace (Z.pred (Z.succ (hi - (lo + 1)))) with (hi - (lo + 1)) by lia.
  reflexivity.
Qed.

(** A property of the state that every iteration keeps is kept by the
    collecting loop. *)
Lemma for_collect_keeps {St A} (P : St -> Prop) lo hi (body : Z -> M St A) s l s' :
  (forall i s1 a s2, P s1 -> body i s1 = Some (a, s2) -> P s2) ->
  P s -> for_collect lo hi body s = Some (l, s') -> P s'.
Proof.
  intros Hbody. remember (Z.to_nat (hi - lo)) as n eqn:Hn.
  revert lo s l Hn. induction n as [|n IH]; intros lo s l Hn HP.
  - rewrite for_collect_nil by lia. intros [= <- <-]. exact HP.
  - rewrite for_collect_step by lia. intros H. minv_all H.
    eapply (IH (lo + 1)); [lia| |eassumption]. eapply Hbody; eassumption.
Qed.
(** ** Reading and writing nodes *)

(** The accessors of a proxy's leaf all read one field behind one range
    assertion. *)
Lemma read_field_Some {A} (f : b2TreeNode -> A) i t a t' :
  (let* ok := in_capacity i in b2Assert ok >> fld f i) t = Some (a, t') <->
  t' = t /\ 0 <= i < m_nodeCapacity t /\
  exists n, zget (m_nodes t) i = Some n /\ f n = a.
Proof.
  unfold in_capacity, fld, node, bind, get, ret, b2Assert, fail.
  destruct ((0 <=? i) && (i <? m_nodeCapacity t)) eqn:Hr; cbn.
  - apply range_inv in Hr. destruct (zget (m_nodes t) i) as [n|]; cbn; split.
    + intros [= <- <-]. eauto.
    + intros (-> & _ & n' & [= <-] & <-). reflexivity.
    + discriminate.
    + intros (_ & _ & n' & [=] & _).
  - split; [discriminate|]. intros (_ & H & _). rewrite range_true in Hr by exact H. discriminate.
Qed.

Lemma WasMoved_Some proxyId t mv t' :
  WasMoved proxyId t = Some (mv, t') <->
  t' = t /\ 0 <= proxyId < m_nodeCapacity t /\
  exists n, zget (m_nodes t) proxyId = Some n /\ moved n = mv.
Proof. apply read_field_Some. Qed.

Lemma GetUserData_Some proxyId t d t' :
  GetUserData proxyId t = Some (d, t') <->
  t' = t /\ 0 <= proxyId < m_nodeCapacity t /\
  exists n, zget (m_nodes t) proxyId = Some n /\ userData n = d.
Proof. apply read_field_Some. Qed.

Lemma GetFatAABB_Some proxyId t a t' :
  GetFatAABB proxyId t = Some (a, t') <->
  t' = t /\ 0 <= proxyId < m_nodeCapacity t /\
  exists n, zget (m_nodes t) proxyId = Some n /\ aabb n = a.
Proof. apply read_field_Some. Qed.

Lemma store_Some u i t r t' :
  store u i t = Some (r, t') <->
  exists n, zget (m_nodes t) i = Some n /\ t' = with_nodes (upd (m_nodes t) i (u n)) t.
Proof.
  unfold store. destruct (zget (m_nodes t) i) as [n|] eqn:Hn.
  - rewrite zset_in_range by (eapply zget_Some_range, Hn). destruct r. split.
    + intros [= <-]. eauto.
    + intros (n' & [= <-] & ->). reflexivity.
  - split; [discriminate|]. intros (n' & [=] & _).
Qed.

Lemma store_run u i t n :
  zget (m_nodes t) i = Some n ->
  store u i t = Some (tt, with_nodes (upd (m_nodes t) i (u n)) t).
Proof. intros H. apply store_Some. eauto. Qed.

Lemma ClearMoved_Some proxyId t r t' :
  ClearMoved proxyId t = Some (r, t') ->
  exists n, zget (m_nodes t) proxyId = Some n /\
            t' = with_nodes (upd (m_nodes t) proxyId (with_moved false n)) t.
Proof.
  unfold ClearMoved, in_capacity. intros H. minv H.
  apply store_Some in H. exact H.
Qed.

(** ** Running the code forward *)

Lemma wp_bind {St A B} (m : M St A) (k : A -> M St B) s Q :
  wp m s (fun a s1 => wp (k a) s1 Q) -> wp (bind m k) s Q.
Proof.
  intros (a & s1 & Hm & b & s2 & Hk & HQ). exists b, s2.
  rewrite (bind_run _ _ _ _ _ Hm). auto.
Qed.

Lemma wp_ret {St A} (a : A) (s : St) Q : Q a s -> wp (ret a) s Q.
Proof. intros H. exists a, s. auto. Qed.

Lemma wp_get {St} (s : St) Q : Q s s -> wp get s Q.
Proof. intros H. exists s, s. auto. Qed.

Lemma wp_modify {St} (f : St -> St) (s : St) Q : Q tt (f s) -> wp (modify f) s Q.
Proof. intros H. exists tt, (f s). auto. Qed.

Lemma wp_put {St} (s0 s : St) Q : Q tt s0 -> wp (put s0) s Q.
Proof. intros H. exists tt, s0. auto. Qed.

Lemma wp_assert {St} (c : bool) (s : St) Q :
  c = true -> Q tt s -> wp (b2Assert c) s Q.
Proof. intros -> H. exists tt, s. auto. Qed.

Lemma wp_mono {St A} (m : M St A) s (Q Q' : A -> St -> Prop) :
  wp m s Q -> (forall a s', Q a s' -> Q' a s') -> wp m s Q'.
Proof. intros (a & s' & Hm & HQ) H. exists a, s'. auto. Qed.

Lemma wp_run {St A} (m : M St A) s a s' (Q : A -> St -> Prop) :
  m s = Some (a, s') -> Q a s' -> wp m s Q.
Proof. intros. exists a, s'. auto. Qed.

Lemma wp_node i s n Q :
  zget (m_nodes s) i = Some n -> Q n s -> wp (node i) s Q.
Proof. intros Hn H. exists n, s. unfold node. rewrite Hn. auto. Qed.

Lemma wp_fld {A} (f : b2TreeNode -> A) i s n Q :
  zget (m_nodes s) i = Some n -> Q (f n) s -> wp (fld f i) s Q.
Proof.
  intros Hn H. exists (f n), s. unfold fld, node, bind, ret. rewrite Hn. auto.
Qed.

Lemma wp_store u i s n Q :
  zget (m_nodes s) i = Some n ->
  Q tt (with_nodes (upd (m_nodes s) i (u n)) s) -> wp (store u i) s Q.
Proof. intros Hn H. eexists _, _. rewrite (store_run _ _ _ _ Hn). auto. Qed.

Lemma wp_in_capacity i s Q :
  Q ((0 <=? i) && (i <? m_nodeCapacity s)) s -> wp (in_capacity i) s Q.
Proof. intros H. eexists _, _. split; [reflexivity|exact H]. Qed.

Lemma wp_for_range {St} (I : Z -> St -> Prop) lo hi (body : Z -> M St unit) s Q :
  lo <= hi -> I lo s ->
  (forall i s1, lo <= i < hi -> I i s1 -> wp (body i) s1 (fun _ s2 => I (i + 1) s2)) ->
  (forall s', I hi s' -> Q tt s') ->
  wp (for_range lo hi body) s Q.
Proof.
  intros Hle HI Hbody HQ.
  destruct (for_range_inv I lo hi body s Hle HI) as (s' & Hr & HI').
  - intros i s1 Hi H1. destruct (Hbody i s1 Hi H1) as ([] & s2 & Hb & H2). eauto.
  - exists tt, s'. auto.
Qed.
(** ** The stack allocator *)

Module StackFacts.
Import Stack.

Lemma Free_inv p s s' :
  Free p s = Some (tt, s') ->
  exists e, top s = Some e /\ p = data e /\
    m_entryCount s' = m_entryCount s - 1 /\
    m_allocation s' = m_allocation s - size e /\
    m_entries s' = m_entries s /\
    m_maxAllocation s' = m_maxAllocation s /\
    (if usedMalloc e
     then m_index s' = m_index s /\ b2Free p (heap s) = Some (heap s')
     else m_index s' = m_index s - size e /\ heap s' = heap s).
Proof.
  unfold Free, top, bind, get, b2Assert, put, ret, fail.
  destruct (0 <? m_entryCount s); [|discriminate].
  destruct (zget _ _) as [e|]; [|discriminate].
  case_bool_decide; [|discriminate]. subst p.
  destruct (usedMalloc e) eqn:Hm.
  - destruct (b2Free _ _) as [h|] eqn:Hf; [|discriminate].
    intros [= <-]. exists e. rewrite Hm. cbn. auto 10.
  - intros [= <-]. exists e. rewrite Hm. cbn. auto 10.
Qed.

Lemma Free_wrong_pointer p s :
  (forall e, top s = Some e -> p <> data e) -> Free p s = None.
Proof.
  intros H. destruct (Free p s) as [[[] s']|] eqn:E; [|reflexivity].
  apply Free_inv in E as (e & Ht & Hp & _). destruct (H e Ht Hp).
Qed.

Lemma int32_of_Some {St} z (s s' : St) v :
  int32_of z s = Some (v, s') <-> is_int32 z = true /\ v = z /\ s' = s.
Proof.
  unfold int32_of, ret, fail. destruct (is_int32 z); split.
  - intros [= <- <-]. auto.
  - intros (_ & -> & ->). reflexivity.
  - discriminate.
  - intros [[=] _].
Qed.

Lemma int32_of_run {St} z (s : St) : is_int32 z = true -> int32_of z s = Some (z, s).
Proof. intros H. unfold int32_of. rewrite H. reflexivity. Qed.

Lemma is_int32_true z : is_int32 z = true <-> int32_min <= z <= int32_max.
Proof. unfold is_int32. rewrite andb_true_iff, !Z.leb_le. tauto. Qed.

Lemma Allocate_inv sz s p s' :
  Allocate sz s = Some (p, s') ->
  is_int32 sz = true /\ is_int32 (m_index s + sz) = true /\
  is_int32 (m_allocation s + sz) = true /\
  m_entryCount s < b2_maxStackEntries /\
  m_entryCount s' = m_entryCount s + 1 /\
  m_allocation s' = m_allocation s + sz /\
  m_maxAllocation s' = b2Max (m_maxAllocation s) (m_allocation s + sz) /\
  zset (m_entries s) (m_entryCount s) (mkEntry p sz (m_index s + sz >? b2_stackSize))
    = Some (m_entries s') /\
  (if m_index s + sz >? b2_stackSize
   then m_index s' = m_index s /\ (p, heap s') = b2Alloc sz (heap s)
   else m_index s' = m_index s + sz /\ p = ArenaAt (m_index s) /\ heap s' = heap s).
Proof.
  intros H. unfold Allocate in H.
  apply bind_Some in H as (sz0 & s0 & (Hsz & -> & ->)%int32_of_Some & H).
  apply bind_Some in H as (s1 & s2 & [= <- <-] & H).
  apply bind_Some in H as ([] & s3 & (Hc%Z.ltb_lt & ->)%b2Assert_Some & H).
  apply bind_Some in H as (sum & s4 & (Hsum & -> & ->)%int32_of_Some & H).
  split; [exact Hsz|]. split; [exact Hsum|].
  destruct (m_index s + sz >? b2_stackSize) eqn:Hfit; cbn in H.
  - apply bind_Some in H as (al & s5 & (Hal & -> & ->)%int32_of_Some & H).
    destruct (zset _ _ _) as [es|] eqn:Hs; [|discriminate].
    injection H as <- <-. cbn. auto 12.
  - apply bind_Some in H as (al & s5 & (Hal & -> & ->)%int32_of_Some & H).
    destruct (zset _ _ _) as [es|] eqn:Hs; [|discriminate].
    injection H as <- <-. cbn. auto 12.
Qed.

Lemma Allocate_top sz s p s' :
  Allocate sz s = Some (p, s') -> 0 <= m_entryCount s ->
  top s' = Some (mkEntry p sz (m_index s + sz >? b2_stackSize)).
Proof.
  intros (_ & _ & _ & _ & Hc & _ & _ & Hset & _)%Allocate_inv Hpos. unfold top.
  rewrite Hc. destruct (0 <? m_entryCount s + 1) eqn:E; [|apply Z.ltb_ge in E; lia].
  replace (m_entryCount s + 1 - 1) with (m_entryCount s) by lia.
  eapply zget_zset_eq, Hset.
Qed.

Lemma Allocate_total sz s :
  stack_ok s -> m_entryCount s < b2_maxStackEntries ->
  is_int32 sz = true -> is_int32 (m_index s + sz) = true ->
  is_int32 (m_allocation s + sz) = true ->
  exists p s', Allocate sz s = Some (p, s').
Proof.
  intros [Hlen Hpos] Hlt Hsz Hsum Hal. unfold Allocate.
  rewrite (bind_run _ _ _ _ _ (int32_of_run sz s Hsz)).
  rewrite (bind_run get _ _ _ _ eq_refl).
  assert (Hc : (m_entryCount s <? b2_maxStackEntries) = true) by (apply Z.ltb_lt; exact Hlt).
  rewrite Hc. rewrite (bind_run (b2Assert true) _ s tt s eq_refl).
  rewrite (bind_run _ _ _ _ _ (int32_of_run _ s Hsum)).
  destruct (m_index s + sz >? b2_stackSize); cbn [b2Alloc];
    rewrite (bind_run _ _ _ _ _ (int32_of_run _ s Hal));
    rewrite zset_in_range by lia; eauto.
Qed.

(** A request whose size takes [m_index + size] or [m_allocation + size]
    out of the range of [int32] has no result. *)
Lemma Allocate_overflows sz s :
  is_int32 sz = false \/ is_int32 (m_index s + sz) = false \/
  is_int32 (m_allocation s + sz) = false ->
  Allocate sz s = None.
Proof.
  intros H. destruct (Allocate sz s) as [[p s']|] eqn:E; [|reflexivity].
  apply Allocate_inv in E as (H1 & H2 & H3 & _). destruct H as [H|[H|H]]; congruence.
Qed.

(** C8.  [Free(p)] returns only when [p] is the data pointer of the entry on
    top of the stack, and then pops it: a heap entry (flag set) is handed to
    the system heap and the arena index stays, an arena entry gives its size
    back to the index.  Every other pointer stops at the assertion.  A
    request of an [int32] size whose sums with [m_index] and [m_allocation]
    stay in the range of [int32] is served while an entry is left: by the
    system heap with the flag set when it does not fit in what is left of
    the arena, and the pointer just allocated is the one (and the only one)
    that [Free] accepts next.  A request whose sums leave the range of
    [int32] overflows and has no result. *)
Theorem Free_strict_LIFO :
  forall (p : pointer) (s : b2StackAllocator),
    (forall s', Free p s = Some (tt, s') ->
       exists e, top s = Some e /\ p = data e /\
         m_entryCount s' = m_entryCount s - 1 /\
         m_allocation s' = m_allocation s - size e /\
         (if usedMalloc e
          then m_index s' = m_index s /\ b2Free p (heap s) = Some (heap s')
          else m_index s' = m_index s - size e /\ heap s' = heap s)) /\
    ((forall e, top s = Some e -> p <> data e) -> Free p s = None) /\
    (forall sz, stack_ok s -> m_entryCount s < b2_maxStackEntries ->
       is_int32 sz = true -> is_int32 (m_index s + sz) = true ->
       is_int32 (m_allocation s + sz) = true ->
       exists q s1,
         Allocate sz s = Some (q, s1) /\
         top s1 = Some (mkEntry q sz (m_index s + sz >? b2_stackSize)) /\
         (m_index s + sz > b2_stackSize ->
            q = HeapBlock (heap_fresh (heap s)) /\ m_index s1 = m_index s /\
            (heap_fresh (heap s), sz) ∈ heap_live (heap s1)) /\
         (m_index s + sz <= b2_stackSize ->
            q = ArenaAt (m_index s) /\ m_index s1 = m_index s + sz /\ heap s1 = heap s) /\
         (exists s2, Free q s1 = Some (tt, s2) /\ m_index s2 = m_index s /\
                     m_entryCount s2 = m_entryCount s /\ m_allocation s2 = m_allocation s) /\
         (forall q', q' <> q -> Free q' s1 = None)) /\
    (forall sz, is_int32 sz = false \/ is_int32 (m_index s + sz) = false \/
                is_int32 (m_allocation s + sz) = false ->
       Allocate sz s = None).
Proof.
  intros p s. split; [|split; [|split]].
  - intros s' (e & ? & ? & ? & ? & ? & ? & ?)%Free_inv. exists e. auto 10.
  - apply Free_wrong_pointer.
  - intros sz Hok Hcnt Hsz Hsum Hall.
    destruct (Allocate_total sz s Hok Hcnt Hsz Hsum Hall) as (q & s1 & Ha).
    exists q, s1. split; [exact Ha|]. destruct Hok as [Hlen Hpos].
    pose proof (Allocate_top _ _ _ _ Ha Hpos) as Htop.
    pose proof (Allocate_inv _ _ _ _ Ha)
      as (_ & _ & _ & Hlt & Hc & Hal & Hmax & Hset & Hfit).
    split; [exact Htop|].
    destruct (m_index s + sz >? b2_stackSize) eqn:E.
    + apply Z.gtb_lt in E. destruct Hfit as [Hi Hh]. unfold b2Alloc in Hh.
      injection Hh as Hq Hh.
      split; [|split; [intros; lia|split]].
      * intros _. rewrite Hh. cbn. split; [done|]. split; [done|]. left.
      * unfold Free, bind, get, b2Assert, put, ret, fail.
        unfold top in Htop. destruct (0 <? m_entryCount s1); [|discriminate].
        rewrite Htop. cbn. rewrite bool_decide_eq_true_2 by done. cbn.
        rewrite Hq. cbn. eexists. split; [reflexivity|]. cbn. lia.
      * intros q' Hne. apply Free_wrong_pointer. intros e He.
        rewrite Htop in He. injection He as <-. exact Hne.
    + rewrite Z.gtb_ltb in E; apply Z.ltb_ge in E. destruct Hfit as (Hi & Hq & Hh).
      split; [intros; lia|split; [auto|split]].
      * unfold Free, bind, get, b2Assert, put, ret, fail.
        unfold top in Htop. destruct (0 <? m_entryCount s1); [|discriminate].
        rewrite Htop. cbn. rewrite bool_decide_eq_true_2 by done. cbn.
        eexists. split; [reflexivity|]. cbn. lia.
      * intros q' Hne. apply Free_wrong_pointer. intros e He.
        rewrite Htop in He. injection He as <-. exact Hne.
  - intros sz. apply Allocate_overflows.
Qed.

(** A run on the empty allocator: a request larger than the arena is served
    from the heap, and freeing it gives the empty allocator's counters back;
    a second request of the largest [int32] overflows the running total. *)
Lemma Free_strict_LIFO_witness :
  let s := b2StackAllocator_new (mkHeap 0 []) in
  stack_ok s /\
  exists q s1, Allocate 200000 s = Some (q, s1) /\
    top s1 = Some (mkEntry q 200000 true) /\
    (exists s2, Free q s1 = Some (tt, s2) /\ m_index s2 = 0 /\
                m_entryCount s2 = 0 /\ m_allocation s2 = 0) /\
    Free (ArenaAt 0) s1 = None /\
    Allocate int32_max s1 = None.
Proof.
  intros s.
  assert (Hok : stack_ok s) by (split; [reflexivity|cbn; lia]).
  split; [exact Hok|].
  destruct (Free_strict_LIFO (ArenaAt 0) s) as (_ & _ & H & _).
  destruct (H 200000 Hok) as (q & s1 & Ha & Ht & _ & _ & Hf & Hw);
    [cbn; unfold b2_maxStackEntries; lia|reflexivity|reflexivity|reflexivity|].
  exists q, s1. split; [exact Ha|]. split; [exact Ht|]. split; [exact Hf|].
  split; [apply Hw; intros E; rewrite <- E in Ha; vm_compute in Ha; discriminate|].
  destruct (Free_strict_LIFO (ArenaAt 0) s1) as (_ & _ & _ & Ho).
  apply Ho. right. right.
  apply Allocate_inv in Ha as (_ & _ & _ & _ & _ & -> & _). reflexivity.
Defined.

(** C10.  When the request does not fit ([m_index + size > b2_stackSize],
    the sum being an [int32]) [Allocate] leaves the arena index alone and
    still adds the size to the running total, which feeds the recorded
    maximum; so the value of [GetMaxAllocation] counts heap allocations and
    can be larger than the arena.  This holds of every request that
    [Allocate] serves, and [Allocate] serves every request of an [int32]
    size that keeps [m_index + size] and [m_allocation + size] in the range
    of [int32] while an entry is left; outside that range the additions
    overflow and there is no result to speak of. *)
Theorem Allocate_overflow_counted :
  (forall sz s,
     stack_ok s -> m_entryCount s < b2_maxStackEntries ->
     is_int32 sz = true -> is_int32 (m_index s + sz) = true ->
     is_int32 (m_allocation s + sz) = true ->
     m_index s + sz > b2_stackSize ->
     exists p s',
       Allocate sz s = Some (p, s') /\
       m_index s' = m_index s /\
       m_allocation s' = m_allocation s + sz /\
       GetMaxAllocation s' = Z.max (GetMaxAllocation s) (m_allocation s + sz)) /\
  (forall sz s,
     is_int32 sz = false \/ is_int32 (m_index s + sz) = false \/
     is_int32 (m_allocation s + sz) = false ->
     Allocate sz s = None) /\
  (exists sz h p s',
     Allocate sz (b2StackAllocator_new h) = Some (p, s') /\
     m_index s' = 0 /\ b2_stackSize < GetMaxAllocation s').
Proof.
  split; [|split].
  - intros sz s Hok Hcnt Hsz Hsum Hall Hfit.
    destruct (Allocate_total sz s Hok Hcnt Hsz Hsum Hall) as (p & s' & Ha).
    exists p, s'. split; [exact Ha|].
    apply Allocate_inv in Ha as (_ & _ & _ & _ & _ & Hal & Hmax & _ & Hi).
    destruct (m_index s + sz >? b2_stackSize) eqn:E;
      [|rewrite Z.gtb_ltb in E; apply Z.ltb_ge in E; lia].
    unfold GetMaxAllocation. rewrite Hmax, b2Max_spec. tauto.
  - intros sz s. apply Allocate_overflows.
  - exists 200000, (mkHeap 0 []). eexists _, _.
    split; [vm_compute; reflexivity|]. split; reflexivity.
Qed.

Lemma Allocate_overflow_counted_witness :
  exists p s',
    Allocate 102401 (b2StackAllocator_new (mkHeap 0 [])) = Some (p, s') /\
    m_index s' = 0 /\ m_allocation s' = 102401 /\ GetMaxAllocation s' = 102401.
Proof.
  destruct Allocate_overflow_counted as [H _].
  destruct (H 102401 (b2StackAllocator_new (mkHeap 0 [])))
    as (p & s' & Ha & Hi & Hal & Hmax);
    [split; [reflexivity|cbn; lia]|cbn; unfold b2_maxStackEntries; lia
    |reflexivity|reflexivity|reflexivity|cbn; unfold b2_stackSize; lia|].
  exists p, s'. auto.
Defined.

End StackFacts.
(** ** The node pool: [AllocateNode] and [FreeNode] *)

Arguments with_root _ !_ /.
Arguments with_nodes _ !_ /.
Arguments with_nodeCount _ !_ /.
Arguments with_nodeCapacity _ !_ /.
Arguments with_freeList _ !_ /.
Arguments with_insertionCount _ !_ /.

Ltac tree_red :=
  cbn [m_root m_nodes m_nodeCount m_nodeCapacity m_freeList m_insertionCount
       with_root with_nodes with_nodeCount with_nodeCapacity with_freeList
       with_insertionCount] in *.

Ltac tree_red_goal :=
  cbn [m_root m_nodes m_nodeCount m_nodeCapacity m_freeList m_insertionCount
       with_root with_nodes with_nodeCount with_nodeCapacity with_freeList
       with_insertionCount].

Ltac node_red :=
  cbn [aabb userData parent next child1 child2 height moved
       with_aabb with_userData with_parent with_next with_child1 with_child2
       with_height with_moved].

(** Reading a node after a series of writes. *)
Ltac zget_ne := first [assumption | congruence | lia].

Ltac zget_solve :=
  tree_red;
  repeat first
    [ rewrite zget_upd_ne by zget_ne
    | rewrite zget_upd_eq by (rewrite ?length_upd; lia) ];
  first [reflexivity | eassumption].

Ltac wp_step :=
  cbv beta iota; tree_red_goal;
  lazymatch goal with
  | |- wp (bind _ _) _ _ => apply wp_bind
  | |- wp (ret _) _ _ => apply wp_ret
  | |- wp get _ _ => apply wp_get
  | |- wp (modify _) _ _ => apply wp_modify; tree_red
  | |- wp (put _) _ _ => apply wp_put
  | |- wp (b2Assert _) _ _ =>
      apply wp_assert;
      [first [reflexivity | apply range_true; lia | apply Z.eqb_eq; lia
             | apply Z.ltb_lt; lia | assumption]|]
  | |- wp (store _ _) _ _ => eapply wp_store; [zget_solve|tree_red]
  | |- wp (fld _ _) _ _ => eapply wp_fld; [zget_solve|node_red]
  | |- wp (node _) _ _ => eapply wp_node; [zget_solve|]
  | |- wp (in_capacity _) _ _ => apply wp_in_capacity; tree_red
  end.

Ltac wp_steps := repeat wp_step.

Lemma free_chain_frame ns ns' h fl :
  (forall j, j ∈ fl -> zget ns' j = zget ns j) ->
  free_chain ns h fl -> free_chain ns' h fl.
Proof.
  revert h. induction fl as [|i fl IH]; intros h Hfr; cbn; [auto|].
  intros (-> & n & Hn & Hh & Hc). split; [reflexivity|].
  exists n. rewrite Hfr by left. split; [exact Hn|]. split; [exact Hh|].
  apply IH; [|exact Hc]. intros j Hj. apply Hfr. right. exact Hj.
Qed.

Lemma free_chain_range ns h fl :
  free_chain ns h fl -> forall j, j ∈ fl -> 0 <= j < Z.of_nat (length ns).
Proof.
  revert h. induction fl as [|i fl IH]; intros h; cbn.
  - intros _ j Hj. inversion Hj.
  - intros (-> & n & Hn & _ & Hc) j [->|Hj]%elem_of_cons.
    + eapply zget_Some_range, Hn.
    + eapply IH; eassumption.
Qed.

Lemma free_chain_unique ns h fl1 fl2 :
  free_chain ns h fl1 -> free_chain ns h fl2 -> fl1 = fl2.
Proof.
  revert h fl2. induction fl1 as [|i fl1 IH]; intros h [|k fl2]; cbn.
  - reflexivity.
  - intros -> (Hk & n & Hn & _). apply zget_Some_range in Hn. unfold b2_nullNode in Hk. lia.
  - intros (Hi & n & Hn & _) ->. apply zget_Some_range in Hn. unfold b2_nullNode in Hi. lia.
  - intros (-> & n & Hn & _ & Hc1) (<- & n' & Hn' & _ & Hc2).
    rewrite Hn in Hn'. injection Hn' as <-. f_equal. eapply IH; eassumption.
Qed.

(** Nodes [lo .. hi-1] each point to the following one, and the last one
    closes the list. *)
Lemma free_chain_links ns lo hi :
  lo <= hi ->
  (forall j, lo <= j < hi ->
     exists n, zget ns j = Some n /\ height n = -1 /\
               next n = if j =? hi - 1 then b2_nullNode else j + 1) ->
  free_chain ns (if lo =? hi then b2_nullNode else lo) (seqZ lo (hi - lo)).
Proof.
  intros Hle. remember (Z.to_nat (hi - lo)) as k eqn:Hk.
  revert lo Hle Hk. induction k as [|k IH]; intros lo Hle Hk Hlinks.
  - assert (lo = hi) as -> by lia. rewrite Z.eqb_refl, Z.sub_diag. reflexivity.
  - destruct (Z.eqb_spec lo hi) as [->|Hne]; [lia|].
    replace (hi - lo) with (Z.succ (hi - (lo + 1))) by lia.
    rewrite seqZ_cons by lia. cbn [free_chain]. split; [reflexivity|].
    destruct (Hlinks lo) as (n & Hn & Hh & Hnx); [lia|].
    exists n. split; [exact Hn|]. split; [exact Hh|].
    replace (Z.succ lo) with (lo + 1) by lia.
    replace (Z.pred (Z.succ (hi - (lo + 1)))) with (hi - (lo + 1)) by lia.
    rewrite Hnx.
    replace (if lo =? hi - 1 then b2_nullNode else lo + 1)
      with (if lo + 1 =? hi then b2_nullNode else lo + 1).
    + apply IH; [lia|lia|]. intros j Hj. apply Hlinks. lia.
    + destruct (Z.eqb_spec (lo + 1) hi), (Z.eqb_spec lo (hi - 1)); try lia; reflexivity.
Qed.

Lemma link_free_nodes_spec root ns cnt cap fl ic lo :
  Z.of_nat (length ns) = cap -> 0 <= lo < cap ->
  wp (link_free_nodes lo) (mkTree root ns cnt cap fl ic) (fun _ s' =>
    exists ns', s' = mkTree root ns' cnt cap fl ic /\
      length ns' = length ns /\
      (forall j, j < lo -> zget ns' j = zget ns j) /\
      free_chain ns' lo (seqZ lo (cap - lo))).
Proof.
  intros Hlen Hlo. unfold link_free_nodes. wp_steps. tree_red.
  set (I := fun (i : Z) (s1 : b2DynamicTree) =>
    exists ns1, s1 = mkTree root ns1 cnt cap fl ic /\
      length ns1 = length ns /\
      (forall j, j < lo \/ i <= j -> zget ns1 j = zget ns j) /\
      (forall j, lo <= j < i ->
         exists n, zget ns1 j = Some n /\ height n = -1 /\ next n = j + 1)).
  eapply (wp_for_range I); [lia| | |].
  - exists ns. repeat split; auto. intros; lia.
  - intros i s1 Hi (ns1 & -> & Hl1 & Hfr & Hlk).
    destruct (zget_in_range ns1 i) as [n Hn]; [lia|].
    wp_steps. exists (upd (upd ns1 i (with_next (i + 1) n)) i
                          (with_height (-1) (with_next (i + 1) n))).
    split; [reflexivity|]. split; [rewrite !length_upd; exact Hl1|]. split.
    + intros j Hj. rewrite !zget_upd_ne by lia. apply Hfr. lia.
    + intros j Hj. destruct (decide (j = i)) as [->|Hne].
      * rewrite zget_upd_eq by (rewrite ?length_upd; lia). eexists. split; [reflexivity|].
        split; reflexivity.
      * rewrite !zget_upd_ne by lia. apply Hlk. lia.
  - intros s' (ns1 & -> & Hl1 & Hfr & Hlk).
    destruct (zget_in_range ns1 (cap - 1)) as [n Hn]; [lia|].
    wp_steps. eexists. split; [reflexivity|]. split; [rewrite !length_upd; exact Hl1|]. split.
    + intros j Hj. rewrite !zget_upd_ne by lia. apply Hfr. lia.
    + pose proof (free_chain_links
        (upd (upd ns1 (cap - 1) (with_next b2_nullNode n)) (cap - 1)
             (with_height (-1) (with_next b2_nullNode n))) lo cap ltac:(lia)) as Hc.
      destruct (Z.eqb_spec lo cap); [lia|]. apply Hc.
      intros j Hj. destruct (Z.eqb_spec j (cap - 1)) as [->|Hne].
      * rewrite zget_upd_eq by (rewrite ?length_upd; lia). eexists. split; [reflexivity|].
        split; reflexivity.
      * rewrite !zget_upd_ne by lia. apply Hlk. lia.
Qed.

Lemma AllocateNode_halves : AllocateNode = bind grow_pool (fun _ => peel_node).
Proof. reflexivity. Qed.

Lemma arena_NoDup s fl live : arena_ok s fl live -> NoDup (fl ++ live).
Proof. intros H. rewrite (ar_perm _ _ _ H). apply NoDup_seqZ. Qed.

Lemma arena_range s fl live j :
  arena_ok s fl live -> j ∈ fl ++ live -> 0 <= j < m_nodeCapacity s.
Proof.
  intros H Hj. rewrite (ar_perm _ _ _ H) in Hj. apply elem_of_seqZ in Hj. lia.
Qed.

Lemma arena_total s fl live :
  arena_ok s fl live -> Z.of_nat (length fl) + m_nodeCount s = m_nodeCapacity s.
Proof.
  intros H. pose proof (Permutation_length (ar_perm _ _ _ H)) as Hl.
  rewrite length_app, length_seqZ in Hl. rewrite (ar_count _ _ _ H).
  pose proof (ar_pos _ _ _ H). lia.
Qed.

Lemma peel_node_spec s i fl live :
  arena_ok s (i :: fl) live ->
  wp peel_node s (fun r s' =>
    r = i /\ arena_ok s' fl (i :: live) /\ (i ∉ live) /\
    (exists n, zget (m_nodes s') i = Some n /\ fresh_node n) /\
    (forall j, j <> i -> zget (m_nodes s') j = zget (m_nodes s) j) /\
    m_root s' = m_root s /\ m_insertionCount s' = m_insertionCount s /\
    m_nodeCapacity s' = m_nodeCapacity s).
Proof.
  intros Hok. pose proof (arena_NoDup _ _ _ Hok) as Hnd.
  destruct Hok as [Hlen Hpos Hch Hperm Hcnt].
  destruct s as [root ns cnt cap hd ic]. tree_red.
  destruct Hch as (-> & n & Hn & Hh & Hch).
  pose proof (zget_Some_range _ _ _ Hn) as Hr.
  cbn [app] in Hnd. apply NoDup_cons in Hnd as [Hi Hnd].
  unfold peel_node. wp_steps. tree_red.
  split; [reflexivity|]. split; [|split; [|split; [|split]]].
  - constructor; tree_red.
    + rewrite !length_upd. exact Hlen.
    + exact Hpos.
    + eapply free_chain_frame; [|exact Hch].
      intros j Hj. rewrite !zget_upd_ne; [reflexivity|..];
        intros ->; apply Hi, elem_of_app; left; exact Hj.
    + rewrite <- Hperm. cbn [app]. symmetry. apply Permutation_middle.
    + cbn [length]. lia.
  - intros Hin. apply Hi, elem_of_app. right. exact Hin.
  - eexists. split; [zget_solve|]. repeat split.
  - intros j Hj. rewrite !zget_upd_ne by congruence. reflexivity.
  - repeat split.
Qed.

Lemma grow_pool_spec s fl live :
  arena_ok s fl live ->
  wp grow_pool s (fun _ s' =>
    exists i fl', arena_ok s' (i :: fl') live /\
      (forall j, j ∈ live -> zget (m_nodes s') j = zget (m_nodes s) j) /\
      m_root s' = m_root s /\ m_insertionCount s' = m_insertionCount s /\
      m_nodeCapacity s <= m_nodeCapacity s').
Proof.
  intros Hok. pose proof (arena_total _ _ _ Hok) as Htot.
  pose proof (arena_NoDup _ _ _ Hok) as Hnd.
  pose proof Hok as [Hlen Hpos Hch Hperm Hcnt].
  destruct s as [root ns cnt cap hd ic]. tree_red.
  unfold grow_pool. wp_step. wp_step. tree_red.
  destruct fl as [|i fl].
  - cbn in Hch. subst hd. cbn [length] in Htot. rewrite Z.eqb_refl.
    assert (cnt = cap) as -> by lia.
    wp_steps. tree_red.
    eapply wp_mono.
    { apply link_free_nodes_spec; tree_red; [|lia].
      rewrite length_app, length_take, length_replicate. lia. }
    intros [] s' (ns' & -> & Hl' & Hfr & Hc). wp_steps. tree_red.
    replace (cap * 2 - cap) with (Z.succ (cap - 1)) in Hc by lia.
    rewrite seqZ_cons in Hc by lia.
    exists cap. eexists. split; [|split; [|split; [|split]]].
    + constructor; tree_red.
      * rewrite Hl', length_app, length_take, length_replicate. lia.
      * lia.
      * exact Hc.
      * cbn [app] in Hperm.
        replace (cap * 2) with (cap + cap) by lia.
        rewrite (seqZ_app 0 cap cap) by lia. rewrite <- Hperm.
        replace (Z.pred (Z.succ (cap - 1))) with (cap - 1) by lia.
        replace (cap :: seqZ (Z.succ cap) (cap - 1)) with (seqZ (0 + cap) cap).
        { apply Permutation_app_comm. }
        replace cap with (Z.succ (cap - 1)) at 2 by lia.
        rewrite seqZ_cons by lia. f_equal. f_equal; lia.
      * exact Hcnt.
    + intros j Hj.
      assert (0 <= j < cap).
      { eapply (arena_range _ _ _ j Hok). apply elem_of_app. right. exact Hj. }
      rewrite Hfr by lia. unfold zget. case_decide; [|reflexivity].
      rewrite lookup_app_l by (rewrite length_take; lia).
      apply lookup_take_lt. lia.
    + reflexivity.
    + reflexivity.
    + lia.
  - cbn in Hch. destruct Hch as (-> & n & Hn & _).
    apply zget_Some_range in Hn.
    destruct (Z.eqb_spec i b2_nullNode) as [E|_]; [unfold b2_nullNode in E; lia|].
    wp_steps. exists i, fl. split; [exact Hok|].
    repeat split; try reflexivity; try lia.
Qed.

Lemma AllocateNode_spec s fl live :
  arena_ok s fl live ->
  wp AllocateNode s (fun i s' =>
    exists fl' n,
      arena_ok s' fl' (i :: live) /\ (i ∉ live) /\
      zget (m_nodes s') i = Some n /\ fresh_node n /\
      (forall j, j ∈ live -> zget (m_nodes s') j = zget (m_nodes s) j) /\
      m_root s' = m_root s /\ m_insertionCount s' = m_insertionCount s /\
      m_nodeCapacity s <= m_nodeCapacity s').
Proof.
  intros Hok. rewrite AllocateNode_halves. apply wp_bind.
  eapply wp_mono; [eapply grow_pool_spec, Hok|].
  intros [] s1 (i & fl' & Hok1 & Hfr1 & Hr1 & Hi1 & Hc1).
  eapply wp_mono; [eapply peel_node_spec, Hok1|].
  intros r s2 (-> & Hok2 & Hni & (n & Hn & Hfresh) & Hfr2 & Hr2 & Hi2 & Hc2).
  exists fl', n.
  split; [exact Hok2|]. split; [exact Hni|]. split; [exact Hn|]. split; [exact Hfresh|].
  split; [|split; [congruence|split; [congruence|lia]]].
  intros j Hj. rewrite Hfr2; [apply Hfr1, Hj|]. intros ->. exact (Hni Hj).
Qed.

Lemma FreeNode_spec s fl live live' i :
  arena_ok s fl live -> live ≡ₚ i :: live' ->
  wp (FreeNode i) s (fun _ s' =>
    arena_ok s' (i :: fl) live' /\
    (forall j, j <> i -> zget (m_nodes s') j = zget (m_nodes s) j) /\
    (exists n n', zget (m_nodes s) i = Some n /\ zget (m_nodes s') i = Some n' /\
                  n' = with_height (-1) (with_next (m_freeList s) n)) /\
    m_root s' = m_root s /\ m_insertionCount s' = m_insertionCount s /\
    m_nodeCapacity s' = m_nodeCapacity s).
Proof.
  intros Hok Hlive. pose proof (arena_NoDup _ _ _ Hok) as Hnd.
  assert (Hri : 0 <= i < m_nodeCapacity s).
  { eapply (arena_range _ _ _ i Hok). apply elem_of_app. right. rewrite Hlive. left. }
  pose proof Hok as [Hlen Hpos Hch Hperm Hcnt].
  destruct s as [root ns cnt cap hd ic]. tree_red.
  destruct (zget_in_range ns i) as [n Hn]; [lia|].
  assert (Hcnt' : 0 < cnt).
  { rewrite Hcnt. apply Permutation_length in Hlive. rewrite Hlive. cbn [length]. lia. }
  assert (Hifl : i ∉ fl).
  { intros Hin. rewrite Hlive in Hnd. apply NoDup_app in Hnd as (_ & Hd & _).
    apply (Hd i Hin). left. }
  unfold FreeNode. wp_steps. tree_red.
  split; [|split; [|split]].
  - constructor; tree_red.
    + rewrite !length_upd. exact Hlen.
    + exact Hpos.
    + cbn [free_chain]. split; [reflexivity|]. eexists. split; [zget_solve|].
      split; [reflexivity|]. node_red.
      eapply free_chain_frame; [|exact Hch].
      intros j Hj. rewrite !zget_upd_ne; [reflexivity|..]; intros ->; exact (Hifl Hj).
    + rewrite <- Hperm, Hlive. cbn [app]. apply Permutation_middle.
    + apply Permutation_length in Hlive. rewrite Hlive in Hcnt. cbn [length] in Hcnt. lia.
  - intros j Hj. rewrite !zget_upd_ne by congruence. reflexivity.
  - exists n. eexists. split; [exact Hn|]. split; [zget_solve|reflexivity].
  - repeat split.
Qed.

Lemma b2DynamicTree_new_ok : arena_ok b2DynamicTree_new (seqZ 0 16) [].
Proof.
  constructor.
  - reflexivity.
  - reflexivity.
  - vm_compute. repeat (split; [reflexivity|eexists; split; [reflexivity|split; [reflexivity|]]]).
    reflexivity.
  - rewrite app_nil_r. reflexivity.
  - reflexivity.
Qed.

Lemma pool_trace_ok live s :
  pool_trace live s -> exists fl, arena_ok s fl live.
Proof.
  induction 1 as [|live s i s' _ [fl IH] Ha|live live' s i s' _ [fl IH] Hl Hf].
  - eexists. apply b2DynamicTree_new_ok.
  - destruct (AllocateNode_spec _ _ _ IH) as (i' & s'' & Hrun & fl' & n & Hok & _).
    rewrite Ha in Hrun. injection Hrun as <- <-. eauto.
  - destruct (FreeNode_spec _ _ _ _ _ IH Hl) as ([] & s'' & Hrun & Hok & _).
    rewrite Hf in Hrun. injection Hrun as <-. eauto.
Qed.

(** C7 (amended).  After any sequence of calls of [AllocateNode] and of
    [FreeNode] on allocated nodes, the free list is a finite chain whose
    length, added to [m_nodeCount], is [m_nodeCapacity]; the next
    [AllocateNode], and [FreeNode] on any allocated node, return. *)
Theorem pool_trace_balance :
  forall (live : list Z) (s : b2DynamicTree),
    pool_trace live s ->
    (exists k, free_list_length s k /\ k + m_nodeCount s = m_nodeCapacity s) /\
    (exists i s', AllocateNode s = Some (i, s')) /\
    (forall i, i ∈ live -> exists s', FreeNode i s = Some (tt, s')).
Proof.
  intros live s [fl Hok]%pool_trace_ok. split; [|split].
  - exists (Z.of_nat (length fl)). split.
    + exists fl. split; [apply (ar_chain _ _ _ Hok)|reflexivity].
    + apply (arena_total _ _ _ Hok).
  - destruct (AllocateNode_spec _ _ _ Hok) as (i & s' & Hrun & _). eauto.
  - intros i Hi. apply elem_of_Permutation in Hi as [live' Hl].
    destruct (FreeNode_spec _ _ _ _ _ Hok Hl) as ([] & s' & Hrun & _). eauto.
Qed.

Lemma pool_trace_balance_witness :
  exists s, pool_trace [1] s /\
    (exists k, free_list_length s k /\ k + m_nodeCount s = m_nodeCapacity s).
Proof.
  assert (H : exists s, pool_trace [1] s).
  { eexists. eapply (pool_free [1; 0] [1] _ 0).
    - eapply pool_allocate; [eapply pool_allocate; [apply pool_new|]|];
        vm_compute; reflexivity.
    - apply Permutation_swap.
    - vm_compute. reflexivity. }
  destruct H as [s Hs]. exists s. split; [exact Hs|].
  exact (proj1 (pool_trace_balance [1] s Hs)).
Defined.

(** C7 as stated fails: freeing a node twice passes both assertions of
    [FreeNode] and closes the free list into a cycle, so that no count of
    its nodes exists. *)
Lemma pool_calls_double_free :
  exists s,
    run_pool_calls [CallAllocateNode; CallAllocateNode; CallFreeNode 0; CallFreeNode 0]
      b2DynamicTree_new = Some (tt, s) /\
    ~ exists k, free_list_length s k /\ k + m_nodeCount s = m_nodeCapacity s.
Proof.
  eexists. split; [vm_compute; reflexivity|].
  intros (k & (fl & Hch & _) & _). cbn [m_nodes m_freeList] in Hch.
  revert Hch. generalize 0 at 1 3. intros z Hch. revert Hch.
  induction fl as [|i fl IH]; cbn [free_chain].
  - discriminate.
  - intros (<- & n & Hn & _ & Hc). vm_compute in Hn. injection Hn as <-.
    apply IH. exact Hc.
Qed.
(** ** Trees in the node array *)

Lemma theight_nonneg t : 0 <= theight t.
Proof. induction t; cbn; lia. Qed.

Lemma root_in_ids t : root_of t ∈ ids t.
Proof. destruct t; cbn; left. Qed.

Lemma ids_nonempty t : (0 < length (ids t))%nat.
Proof. destruct t; cbn; lia. Qed.

Lemma theight_lt_ids t : theight t < Z.of_nat (length (ids t)).
Proof.
  induction t as [|i l IHl r IHr]; cbn [theight ids length]; [lia|].
  rewrite length_app. lia.
Qed.

(** What [wf] says of the root node. *)
Lemma wf_root ns p t :
  wf ns p t ->
  exists n, zget ns (root_of t) = Some n /\ parent n = p /\
            height n = theight t /\
            IsLeaf n = match t with Lf _ _ _ _ => true | Nd _ _ _ => false end.
Proof.
  destruct t as [i box data mv|i l r]; cbn [wf root_of].
  - intros H. eexists. split; [exact H|]. repeat split.
  - intros ((n & nl & nr & Hn & Hnl & Hnr & Hp & Hc1 & Hc2 & Hh & Ha) & Hl & Hr).
    exists n. repeat split; try assumption.
    unfold IsLeaf. rewrite Hc1. apply Z.eqb_neq.
    apply zget_Some_range in Hnl. unfold b2_nullNode. lia.
Qed.

Lemma wf_range ns p t j : wf ns p t -> j ∈ ids t -> 0 <= j < Z.of_nat (length ns).
Proof.
  revert p. induction t as [|i l IHl r IHr]; intros p; cbn [wf ids].
  - intros H ->%list_elem_of_singleton. eapply zget_Some_range, H.
  - intros ((n & nl & nr & Hn & _) & Hl & Hr) [->|[Hj|Hj]%elem_of_app]%elem_of_cons.
    + eapply zget_Some_range, Hn.
    + eapply IHl; eassumption.
    + eapply IHr; eassumption.
Qed.

(** Nodes outside a tree do not matter to it. *)
Lemma wf_frame ns ns' p t :
  (forall j, j ∈ ids t -> zget ns' j = zget ns j) -> wf ns p t -> wf ns' p t.
Proof.
  revert p. induction t as [|i l IHl r IHr]; intros p Hfr; cbn [wf ids] in *.
  - rewrite Hfr by left. auto.
  - intros ((n & nl & nr & Hn & Hnl & Hnr & H) & Hl & Hr). split; [|split].
    + exists n, nl, nr. rewrite !Hfr; [auto| | |left].
      * right. apply elem_of_app. right. apply root_in_ids.
      * right. apply elem_of_app. left. apply root_in_ids.
    + apply IHl; [|exact Hl]. intros j Hj. apply Hfr. right. apply elem_of_app. auto.
    + apply IHr; [|exact Hr]. intros j Hj. apply Hfr. right. apply elem_of_app. auto.
Qed.

(** Giving a tree another parent: only the parent field of its root
    changes. *)
Lemma wf_reparent ns ns' p p' t n :
  wf ns p t -> NoDup (ids t) ->
  zget ns (root_of t) = Some n ->
  zget ns' (root_of t) = Some (with_parent p' n) ->
  (forall j, j ∈ ids t -> j <> root_of t -> zget ns' j = zget ns j) ->
  wf ns' p' t.
Proof.
  destruct t as [i box data mv|i l r]; cbn [wf ids root_of].
  - intros H _ Hn Hn' _. rewrite H in Hn. injection Hn as <-. exact Hn'.
  - intros ((n0 & nl & nr & Hn0 & Hnl & Hnr & Hp & H) & Hl & Hr)
           [Hi Hnd]%NoDup_cons Hn Hn' Hfr.
    rewrite Hn0 in Hn. injection Hn as <-.
    assert (Hfr' : forall j, j ∈ ids l ++ ids r -> zget ns' j = zget ns j).
    { intros j Hj. apply Hfr; [right; exact Hj|]. intros ->. exact (Hi Hj). }
    split; [|split].
    + exists (with_parent p' n0), nl, nr. split; [exact Hn'|].
      rewrite !Hfr' by (apply elem_of_app; auto using root_in_ids).
      cbn. repeat split; try assumption; apply H.
    + eapply wf_frame; [|exact Hl]. intros j Hj. apply Hfr', elem_of_app. auto.
    + eapply wf_frame; [|exact Hr]. intros j Hj. apply Hfr', elem_of_app. auto.
Qed.

Lemma wf_ctx_frame ns ns' rt c h :
  (forall j, j ∈ ctx_ids c -> zget ns' j = zget ns j) ->
  wf_ctx ns rt c h -> wf_ctx ns' rt c h.
Proof.
  revert h. induction c as [|i c IH r|i l c IH]; intros h Hfr; cbn [wf_ctx ctx_ids] in *.
  - auto.
  - intros ((n & Hn & H) & Hr & Hc). split; [|split].
    + exists n. rewrite Hfr by left. auto.
    + eapply wf_frame; [|exact Hr]. intros j Hj. apply Hfr. right. apply elem_of_app. auto.
    + apply IH; [|exact Hc]. intros j Hj. apply Hfr. right. apply elem_of_app. auto.
  - intros ((n & Hn & H) & Hl & Hc). split; [|split].
    + exists n. rewrite Hfr by left. auto.
    + eapply wf_frame; [|exact Hl]. intros j Hj. apply Hfr. right. apply elem_of_app. auto.
    + apply IH; [|exact Hc]. intros j Hj. apply Hfr. right. apply elem_of_app. auto.
Qed.

(** Putting another subtree [h'] in the place of [h]: the node above it
    gets the new child, or the root pointer does. *)
Lemma wf_ctx_rehole ns ns' rt rt' c h h' :
  wf_ctx ns rt c h ->
  NoDup (h :: ctx_ids c) ->
  match c with
  | Top => rt' = h'
  | InL i _ _ =>
      rt' = rt /\ exists n, zget ns i = Some n /\ zget ns' i = Some (with_child1 h' n)
  | InR i _ _ =>
      rt' = rt /\ exists n, zget ns i = Some n /\ zget ns' i = Some (with_child2 h' n)
  end ->
  (forall j, j ∈ ctx_ids c -> j <> ctx_id c -> zget ns' j = zget ns j) ->
  wf_ctx ns' rt' c h'.
Proof.
  destruct c as [|i c r|i l c]; cbn [wf_ctx ctx_ids ctx_id].
  - intros _ _ -> _. reflexivity.
  - intros ((n & Hn & Hp & Hc1 & Hc2) & Hr & Hc) [_ [Hi Hnd]%NoDup_cons]%NoDup_cons
           (-> & n' & Hn' & Hnew) Hfr.
    rewrite Hn in Hn'. injection Hn' as <-.
    split; [|split].
    + eexists. split; [exact Hnew|]. cbn. auto.
    + eapply wf_frame; [|exact Hr]. intros j Hj. apply Hfr.
      * right. apply elem_of_app. auto.
      * intros ->. apply Hi, elem_of_app. auto.
    + eapply wf_ctx_frame; [|exact Hc]. intros j Hj. apply Hfr.
      * right. apply elem_of_app. auto.
      * intros ->. apply Hi, elem_of_app. auto.
  - intros ((n & Hn & Hp & Hc1 & Hc2) & Hl & Hc) [_ [Hi Hnd]%NoDup_cons]%NoDup_cons
           (-> & n' & Hn' & Hnew) Hfr.
    rewrite Hn in Hn'. injection Hn' as <-.
    split; [|split].
    + eexists. split; [exact Hnew|]. cbn. auto.
    + eapply wf_frame; [|exact Hl]. intros j Hj. apply Hfr.
      * right. apply elem_of_app. auto.
      * intros ->. apply Hi, elem_of_app. auto.
    + eapply wf_ctx_frame; [|exact Hc]. intros j Hj. apply Hfr.
      * right. apply elem_of_app. auto.
      * intros ->. apply Hi, elem_of_app. auto.
Qed.

(** Two members of two parts of a list without duplicates differ. *)
Lemma NoDup_blocks_ne (L l1 l2 : list Z) x y :
  NoDup L -> l1 ++ l2 ⊆+ L -> x ∈ l1 -> y ∈ l2 -> x <> y.
Proof.
  intros Hnd Hsub Hx Hy ->.
  apply submseteq_Permutation in Hsub as [k Hk]. rewrite Hk in Hnd.
  apply NoDup_app in Hnd as (Hnd' & _).
  apply NoDup_app in Hnd' as (_ & Hd & _). exact (Hd y Hx Hy).
Qed.

Ltac block_of x :=
  lazymatch goal with
  | H : x ∈ ?l |- _ => constr:(l)
  | _ => lazymatch x with
         | root_of ?t => constr:(ids t)
         | _ => constr:([x])
         end
  end.

Ltac mem_solve :=
  first [ assumption | apply root_in_ids | apply list_elem_of_singleton; reflexivity ].

(** [x <> y] from a hypothesis [NoDup L] in which they sit in two parts. *)
Ltac ne_solve :=
  match goal with
  | Hnd : NoDup ?L |- ?x <> ?y =>
      let l1 := block_of x in
      let l2 := block_of y in
      apply (NoDup_blocks_ne L l1 l2 x y Hnd); [solve_submseteq|mem_solve|mem_solve]
  end.

Lemma NoDup_sub (L l : list Z) : NoDup L -> l ⊆+ L -> NoDup l.
Proof.
  intros Hnd [k Hk]%submseteq_Permutation. rewrite Hk in Hnd.
  apply NoDup_app in Hnd as (H & _). exact H.
Qed.

(** A node of the tree is not the parent of the topmost node of a path
    that does not hold it. *)
Lemma ne_ctx_id (L l : list Z) c x :
  NoDup L -> l ++ ctx_ids c ⊆+ L -> x ∈ l -> 0 <= x -> x <> ctx_id c.
Proof.
  intros Hnd Hsub Hx Hpos. destruct c as [|i c r|i l' c]; cbn [ctx_id ctx_ids] in *.
  - unfold b2_nullNode. lia.
  - eapply (NoDup_blocks_ne L l _ x i Hnd Hsub Hx). left.
  - eapply (NoDup_blocks_ne L l _ x i Hnd Hsub Hx). left.
Qed.

Ltac ctx_ne_solve :=
  match goal with
  | Hnd : NoDup ?L |- ?x <> ctx_id ?c =>
      let l := block_of x in
      apply (ne_ctx_id L l c x Hnd); [solve_submseteq|mem_solve|lia]
  end.

Ltac in_solve :=
  first
    [ assumption
    | apply root_in_ids
    | apply elem_of_cons; left; reflexivity
    | apply elem_of_cons; right; in_solve
    | apply elem_of_app; left; in_solve
    | apply elem_of_app; right; in_solve ].

(** [x <> y] from [x ∉ L] and the place of [y] in [L]. *)
Ltac notin_ne :=
  match goal with
  | H : ?x ∉ _ |- ?x <> ?y => intros ->; apply H; in_solve
  | H : ?x ∉ _ |- ?y <> ?x => intros <-; apply H; in_solve
  end.

(** [NoDup l] from a hypothesis [NoDup l0] with the same members. *)
Ltac nodup_perm Hnd :=
  match goal with
  | |- NoDup ?l =>
      match type of Hnd with
      | NoDup ?l0 =>
          let Hp := fresh in
          assert (Hp : l ≡ₚ l0) by solve_Permutation;
          rewrite Hp; exact Hnd
      end
  end.
(** ** [Balance] *)

Lemma bind_assoc {St A B C} (m : M St A) (k : A -> M St B) (k' : B -> M St C) s :
  bind (bind m k) k' s = bind m (fun a => bind (k a) k') s.
Proof. unfold bind. destruct (m s) as [[a s1]|]; reflexivity. Qed.

(** Two runs that differ in the grouping of their steps only. *)
Ltac same_run :=
  repeat first
    [ reflexivity
    | rewrite bind_assoc
    | apply bind_ext; intros ? ?
    | match goal with |- context [if ?c then _ else _] => destruct c end ].

Lemma Balance_alt_eq iA s : Balance iA s = Balance_alt iA s.
Proof.
  unfold Balance, Balance_alt, rotate_up.
  apply bind_ext; intros ? ?. apply bind_ext; intros A ?.
  destruct (IsLeaf A || (height A <? 2)); [reflexivity|].
  do 6 (apply bind_ext; intros ? ?).
  destruct (_ - _ >? 1).
  - do 14 (apply bind_ext; intros ? ?). cbv zeta.
    match goal with |- context [?a >? ?b] => destruct (a >? b) end; same_run.
  - destruct (_ - _ <? -1); [|reflexivity].
    do 14 (apply bind_ext; intros ? ?). cbv zeta.
    match goal with |- context [?a >? ?b] => destruct (a >? b) end; same_run.
Qed.

(** From here on the nodes of a tree are told apart by [NoDup]. *)
Ltac zget_ne ::= first [assumption | congruence | lia | ne_solve | ctx_ne_solve | notin_ne].

Lemma rotate_tail_effect side root1 ns1 cnt cap fl ic iA iUp iO iS iM nA1 nUp1 nO nS nM :
  zget ns1 iA = Some nA1 -> zget ns1 iUp = Some nUp1 -> zget ns1 iO = Some nO ->
  zget ns1 iS = Some nS -> zget ns1 iM = Some nM ->
  iA <> iUp -> iA <> iO -> iA <> iS -> iA <> iM -> iUp <> iO -> iUp <> iS ->
  iUp <> iM -> iO <> iS -> iO <> iM -> iS <> iM ->
  wp (rotate_tail side iA iUp iO iS iM) (mkTree root1 ns1 cnt cap fl ic)
     (fun r s' =>
        r = iUp /\ exists nsF nA' nUp',
          s' = mkTree root1 nsF cnt cap fl ic /\ length nsF = length ns1 /\
          zget nsF iA = Some nA' /\ zget nsF iUp = Some nUp' /\
          zget nsF iM = Some (with_parent iA nM) /\
          (forall j, j <> iA -> j <> iUp -> j <> iM -> zget nsF j = zget ns1 j) /\
          parent nA' = parent nA1 /\
          child1 nA' = (if side then child1 nA1 else iM) /\
          child2 nA' = (if side then iM else child2 nA1) /\
          height nA' = 1 + Z.max (height nO) (height nM) /\
          aabb nA' = Combine (aabb nO) (aabb nM) /\
          parent nUp' = parent nUp1 /\ child1 nUp' = child1 nUp1 /\ child2 nUp' = iS /\
          height nUp' = 1 + Z.max (height nA') (height nS) /\
          aabb nUp' = Combine (aabb nA') (aabb nS)).
Proof.
  intros HnA HnUp HnO HnS HnM ? ? ? ? ? ? ? ? ? ?.
  pose proof (zget_Some_range _ _ _ HnA). pose proof (zget_Some_range _ _ _ HnUp).
  pose proof (zget_Some_range _ _ _ HnO). pose proof (zget_Some_range _ _ _ HnS).
  pose proof (zget_Some_range _ _ _ HnM).
  unfold rotate_tail. wp_steps.
  split; [reflexivity|]. eexists _, _, _. split; [reflexivity|].
  split; [rewrite !length_upd; reflexivity|].
  split; [zget_solve|]. split; [zget_solve|]. split; [zget_solve|].
  split; [intros j ? ? ?; zget_solve|].
  rewrite !b2Max_spec. destruct side; node_red; repeat split.
Qed.

Lemma rotated_stale (side : bool) root root1 (ns nsF : list b2TreeNode)
      cnt cap fl ic c iA iUp tO tS tM nA nM nA' nUp' :
  zget ns iA = Some nA ->
  (if side then child1 nA = root_of tO else child2 nA = root_of tO) ->
  wf ns iA tO -> wf ns iUp tS -> wf ns iUp tM -> wf_ctx ns root c iA ->
  zget ns (root_of tM) = Some nM ->
  NoDup (iA :: ids tO ++ (iUp :: ids tS ++ ids tM) ++ ctx_ids c) ->
  zget nsF iA = Some nA' -> zget nsF iUp = Some nUp' ->
  zget nsF (root_of tM) = Some (with_parent iA nM) ->
  (forall j, j <> iA -> j <> iUp -> j <> root_of tM -> j <> ctx_id c ->
             zget nsF j = zget ns j) ->
  match c with
  | Top => root1 = iUp
  | InL i _ _ =>
      root1 = root /\ exists n, zget ns i = Some n /\ zget nsF i = Some (with_child1 iUp n)
  | InR i _ _ =>
      root1 = root /\ exists n, zget ns i = Some n /\ zget nsF i = Some (with_child2 iUp n)
  end ->
  parent nA' = iUp ->
  child1 nA' = (if side then child1 nA else root_of tM) ->
  child2 nA' = (if side then root_of tM else child2 nA) ->
  (forall nO, zget ns (root_of tO) = Some nO ->
     height nA' = 1 + Z.max (height nO) (height nM) /\
     aabb nA' = Combine (aabb nO) (aabb nM)) ->
  parent nUp' = ctx_id c -> child1 nUp' = iA -> child2 nUp' = root_of tS ->
  stale (mkTree root1 nsF cnt cap fl ic) c iUp
        (if side then Nd iA tO tM else Nd iA tM tO) tS.
Proof.
  intros HnA Hside HwO HwS HwM Hctx HnM Hnd HnA' HnUp' HnM' Hfr Hrt
         HpA' Hc1A' Hc2A' HmA' HpUp' Hc1Up' Hc2Up'.
  destruct (wf_root _ _ _ HwO) as (nO & HnO & HpO & HhO & _).
  destruct (wf_root _ _ _ HwM) as (nM0 & HnM0 & HpM & HhM & _).
  rewrite HnM in HnM0. injection HnM0 as <-.
  destruct (HmA' nO HnO) as [HhA' HaA'].
  assert (HfrO : forall j, j ∈ ids tO -> zget nsF j = zget ns j).
  { intros j Hj. pose proof (wf_range _ _ _ j HwO Hj). apply Hfr; zget_ne. }
  assert (HfrS : forall j, j ∈ ids tS -> zget nsF j = zget ns j).
  { intros j Hj. pose proof (wf_range _ _ _ j HwS Hj). apply Hfr; zget_ne. }
  assert (HfrM : forall j, j ∈ ids tM -> j <> root_of tM -> zget nsF j = zget ns j).
  { intros j Hj Hne. pose proof (wf_range _ _ _ j HwM Hj). apply Hfr; zget_ne. }
  assert (HwO' : wf nsF iA tO) by (eapply wf_frame; eassumption).
  assert (HwS' : wf nsF iUp tS) by (eapply wf_frame; eassumption).
  assert (HwM' : wf nsF iA tM).
  { eapply wf_reparent; [exact HwM| |exact HnM|exact HnM'|exact HfrM].
    eapply NoDup_sub; [exact Hnd|solve_submseteq]. }
  assert (HnO' : zget nsF (root_of tO) = Some nO) by (rewrite HfrO; [exact HnO|apply root_in_ids]).
  unfold stale. cbn [m_nodes m_root]. split; [|split; [|split; [|split]]].
  - exists nUp'. split; [exact HnUp'|]. split; [exact HpUp'|]. split; [|exact Hc2Up'].
    rewrite Hc1Up'. destruct side; reflexivity.
  - destruct side; cbn [wf theight root_of]; (split; [|split; assumption]).
    + exists nA', nO, (with_parent iA nM). repeat split; try assumption.
      * rewrite Hc1A'. exact Hside.
      * rewrite HhA', HhO, HhM. reflexivity.
      * left. exact HaA'.
    + exists nA', (with_parent iA nM), nO. repeat split; try assumption.
      * rewrite Hc2A'. exact Hside.
      * rewrite HhA', HhO, HhM. cbn. lia.
      * right. exact HaA'.
  - exact HwS'.
  - eapply wf_ctx_rehole; [exact Hctx| | |].
    + eapply NoDup_sub; [exact Hnd|solve_submseteq].
    + exact Hrt.
    + intros j Hj Hne. apply Hfr; zget_ne.
  - destruct side; cbn [ids]; nodup_perm Hnd.
Qed.

Lemma rotate_up_spec (side : bool) root ns cnt cap fl ic c iA tO iUp tX tY nA :
  Z.of_nat (length ns) = cap ->
  zget ns iA = Some nA -> parent nA = ctx_id c ->
  (if side then child1 nA = root_of tO else child2 nA = root_of tO) ->
  wf ns iA tO -> wf ns iA (Nd iUp tX tY) ->
  wf_ctx ns root c iA ->
  NoDup (iA :: ids tO ++ (iUp :: ids tX ++ ids tY) ++ ctx_ids c) ->
  wp (rotate_up side iA iUp (root_of tO) (root_of tX) (root_of tY))
     (mkTree root ns cnt cap fl ic)
     (fun r s' =>
        let tStay := if theight tX >? theight tY then tX else tY in
        let tMove := if theight tX >? theight tY then tY else tX in
        let tA := if side then Nd iA tO tMove else Nd iA tMove tO in
        r = iUp /\
        stale s' c iUp tA tStay /\
        (forall j, j ∉ iA :: ids tO ++ iUp :: ids tX ++ ids tY -> j <> ctx_id c ->
                   zget (m_nodes s') j = zget ns j) /\
        length (m_nodes s') = length ns /\
        m_nodeCount s' = cnt /\ m_nodeCapacity s' = cap /\
        m_freeList s' = fl /\ m_insertionCount s' = ic).
Proof.
  intros Hlen HnA HpA Hside HwO HwUp Hctx Hnd.
  destruct (wf_root _ _ _ HwO) as (nO & HnO & HpO & HhO & _).
  cbn [wf] in HwUp.
  destruct HwUp as ((nUp & nX & nY & HnUp & HnX & HnY & HpUp & Hc1Up & Hc2Up & HhUp & HaUp) & HwX & HwY).
  destruct (wf_root _ _ _ HwX) as (nX' & HnX' & HpX & HhX & _).
  rewrite HnX in HnX'. injection HnX' as <-.
  destruct (wf_root _ _ _ HwY) as (nY' & HnY' & HpY & HhY & _).
  rewrite HnY in HnY'. injection HnY' as <-.
  pose proof (zget_Some_range _ _ _ HnA). pose proof (zget_Some_range _ _ _ HnO).
  pose proof (zget_Some_range _ _ _ HnUp). pose proof (zget_Some_range _ _ _ HnX).
  pose proof (zget_Some_range _ _ _ HnY).
  unfold rotate_up. wp_steps. rewrite HpA.
  match goal with |- wp ?m ?s0 _ => assert (Hfix : wp m s0
    (fun _ s1 => exists root1 ns1,
       s1 = mkTree root1 ns1 cnt cap fl ic /\
       length ns1 = length ns /\
       zget ns1 iUp = Some (with_parent (ctx_id c) (with_child1 iA nUp)) /\
       zget ns1 iA = Some (with_parent iUp nA) /\
       (forall j, j <> iUp -> j <> iA -> j <> ctx_id c -> zget ns1 j = zget ns j) /\
       match c with
       | Top => root1 = iUp
       | InL i _ _ =>
           root1 = root /\ exists n, zget ns i = Some n /\ zget ns1 i = Some (with_child1 iUp n)
       | InR i _ _ =>
           root1 = root /\ exists n, zget ns i = Some n /\ zget ns1 i = Some (with_child2 iUp n)
       end)) end.
  { destruct c as [|p c r|p l c]; cbn [ctx_id wf_ctx ctx_ids] in *.
    - cbn. wp_steps. eexists _, _. split; [reflexivity|].
      split; [rewrite !length_upd; reflexivity|]. split; [zget_solve|]. split; [zget_solve|].
      split; [|reflexivity]. intros j ? ? ?. zget_solve.
    - destruct Hctx as ((np & Hnp & Hpp & Hc1p & Hc2p) & Hwr & Hc).
      pose proof (zget_Some_range _ _ _ Hnp).
      replace (p =? b2_nullNode) with false by (symmetry; apply Z.eqb_neq; unfold b2_nullNode; lia).
      cbn [negb]. wp_steps. rewrite Hc1p, Z.eqb_refl. wp_steps.
      eexists _, _. split; [reflexivity|].
      split; [rewrite !length_upd; reflexivity|]. split; [zget_solve|]. split; [zget_solve|].
      split; [intros j ? ? ?; zget_solve|]. split; [reflexivity|].
      eexists. split; [exact Hnp|]. zget_solve.
    - destruct Hctx as ((np & Hnp & Hpp & Hc1p & Hc2p) & Hwl & Hc).
      pose proof (zget_Some_range _ _ _ Hnp).
      replace (p =? b2_nullNode) with false by (symmetry; apply Z.eqb_neq; unfold b2_nullNode; lia).
      cbn [negb]. wp_steps. rewrite Hc1p.
      replace (root_of l =? iA) with false by (symmetry; apply Z.eqb_neq; ne_solve).
      wp_steps.
      eexists _, _. split; [reflexivity|].
      split; [rewrite !length_upd; reflexivity|]. split; [zget_solve|]. split; [zget_solve|].
      split; [intros j ? ? ?; zget_solve|]. split; [reflexivity|].
      eexists. split; [exact Hnp|]. zget_solve. }
  eapply wp_mono; [exact Hfix|]. clear Hfix.
  intros [] s1 (root1 & ns1 & -> & Hlen1 & HnUp1 & HnA1 & Hfr1 & Hrt1).
  assert (HnO1 : zget ns1 (root_of tO) = Some nO) by (rewrite Hfr1; [exact HnO|zget_ne..]).
  assert (HnX1 : zget ns1 (root_of tX) = Some nX) by (rewrite Hfr1; [exact HnX|zget_ne..]).
  assert (HnY1 : zget ns1 (root_of tY) = Some nY) by (rewrite Hfr1; [exact HnY|zget_ne..]).
  rewrite <- Hlen1 in *.
  wp_step. wp_step. wp_step. wp_step. rewrite HhX, HhY.
  assert (Hnd' : NoDup (iA :: ids tO ++ (iUp :: ids tY ++ ids tX) ++ ctx_ids c))
    by nodup_perm Hnd.
  assert (Hcomb : forall j, j ≠ iA -> j ≠ iUp -> j ≠ ctx_id c -> zget ns1 j = zget ns j).
  { intros j ? ? ?. apply Hfr1; assumption. }
  destruct (theight tX >? theight tY) eqn:Hcmp.
  - change (wp (rotate_tail side iA iUp (root_of tO) (root_of tX) (root_of tY))
               (mkTree root1 ns1 cnt cap fl ic)
               (fun r s' => r = iUp /\
                  stale s' c iUp (if side then Nd iA tO tY else Nd iA tY tO) tX /\
                  (forall j, j ∉ iA :: ids tO ++ iUp :: ids tX ++ ids tY -> j <> ctx_id c ->
                             zget (m_nodes s') j = zget ns j) /\
                  length (m_nodes s') = length ns1 /\
                  m_nodeCount s' = cnt /\ m_nodeCapacity s' = cap /\
                  m_freeList s' = fl /\ m_insertionCount s' = ic)).
    eapply wp_mono;
      [eapply (rotate_tail_effect side root1 ns1 cnt cap fl ic iA iUp _ _ _
                 _ _ nO nX nY HnA1 HnUp1 HnO1 HnX1 HnY1); zget_ne|].
    intros r s' (-> & nsF & nA' & nUp' & -> & HlenF & HnAF & HnUpF & HnMF & HfrF &
                 HpA' & Hc1A' & Hc2A' & HhA' & HaA' & HpUp' & Hc1Up' & Hc2Up' & _).
    cbn [parent child1 child2 with_parent with_child1] in *.
    split; [reflexivity|]. split; [|split; [|split; [exact HlenF|repeat split]]].
    + eapply (rotated_stale side root root1 ns nsF cnt cap fl ic c iA iUp tO tX tY nA nY nA' nUp');
        try eassumption.
      * intros j ? ? ? ?. rewrite HfrF by assumption. apply Hfr1; assumption.
      * destruct c as [|p c r|p l c]; [exact Hrt1|..];
          (destruct Hrt1 as (-> & n & Hn & Hn1); split; [reflexivity|];
           exists n; split; [exact Hn|]; rewrite HfrF; [exact Hn1|zget_ne..]).
      * intros nO' HnO'. rewrite HnO in HnO'. injection HnO' as <-. auto.
    + intros j Hj Hne. rewrite HfrF by zget_ne. apply Hfr1; zget_ne.
  - change (wp (rotate_tail side iA iUp (root_of tO) (root_of tY) (root_of tX))
               (mkTree root1 ns1 cnt cap fl ic)
               (fun r s' => r = iUp /\
                  stale s' c iUp (if side then Nd iA tO tX else Nd iA tX tO) tY /\
                  (forall j, j ∉ iA :: ids tO ++ iUp :: ids tX ++ ids tY -> j <> ctx_id c ->
                             zget (m_nodes s') j = zget ns j) /\
                  length (m_nodes s') = length ns1 /\
                  m_nodeCount s' = cnt /\ m_nodeCapacity s' = cap /\
                  m_freeList s' = fl /\ m_insertionCount s' = ic)).
    eapply wp_mono;
      [eapply (rotate_tail_effect side root1 ns1 cnt cap fl ic iA iUp _ _ _
                 _ _ nO nY nX HnA1 HnUp1 HnO1 HnY1 HnX1); zget_ne|].
    intros r s' (-> & nsF & nA' & nUp' & -> & HlenF & HnAF & HnUpF & HnMF & HfrF &
                 HpA' & Hc1A' & Hc2A' & HhA' & HaA' & HpUp' & Hc1Up' & Hc2Up' & _).
    cbn [parent child1 child2 with_parent with_child1] in *.
    split; [reflexivity|]. split; [|split; [|split; [exact HlenF|repeat split]]].
    + eapply (rotated_stale side root root1 ns nsF cnt cap fl ic c iA iUp tO tY tX nA nX nA' nUp');
        try eassumption.
      * intros j ? ? ? ?. rewrite HfrF by assumption. apply Hfr1; assumption.
      * destruct c as [|p c r|p l c]; [exact Hrt1|..];
          (destruct Hrt1 as (-> & n & Hn & Hn1); split; [reflexivity|];
           exists n; split; [exact Hn|]; rewrite HfrF; [exact Hn1|zget_ne..]).
      * intros nO' HnO'. rewrite HnO in HnO'. injection HnO' as <-. auto.
    + intros j Hj Hne. rewrite HfrF by zget_ne. apply Hfr1; zget_ne.
Qed.
Lemma wp_ext {St A} (m m' : M St A) s Q : m s = m' s -> wp m' s Q -> wp m s Q.
Proof. unfold wp. intros ->. auto. Qed.

Lemma Balance_spec s c i tB tC :
  stale s c i tB tC -> Z.of_nat (length (m_nodes s)) = m_nodeCapacity s ->
  wp (Balance i) s (fun i' s' =>
    exists tB' tC',
      stale s' c i' tB' tC' /\
      i' :: ids tB' ++ ids tC' ≡ₚ i :: ids tB ++ ids tC /\
      leaves tB' ++ leaves tC' ≡ₚ leaves tB ++ leaves tC /\
      (forall j, j ∉ i :: ids tB ++ ids tC -> j <> ctx_id c ->
                 zget (m_nodes s') j = zget (m_nodes s) j) /\
      length (m_nodes s') = length (m_nodes s) /\
      m_nodeCount s' = m_nodeCount s /\ m_nodeCapacity s' = m_nodeCapacity s /\
      m_freeList s' = m_freeList s /\ m_insertionCount s' = m_insertionCount s).
Proof.
  intros Hst Hlen. apply (wp_ext _ _ _ _ (Balance_alt_eq i s)).
  pose proof Hst as ((nA & HnA & HpA & Hc1 & Hc2) & HwB & HwC & Hctx & Hnd).
  destruct s as [root ns cnt cap fl ic]. tree_red.
  destruct (wf_root _ _ _ HwB) as (nB & HnB & HpB & HhB & _).
  destruct (wf_root _ _ _ HwC) as (nC & HnC & HpC & HhC & _).
  pose proof (zget_Some_range _ _ _ HnA). pose proof (zget_Some_range _ _ _ HnB).
  pose proof (zget_Some_range _ _ _ HnC).
  pose proof (theight_nonneg tB). pose proof (theight_nonneg tC).
  assert (Hkeep : exists tB' tC',
      stale (mkTree root ns cnt cap fl ic) c i tB' tC' /\
      i :: ids tB' ++ ids tC' ≡ₚ i :: ids tB ++ ids tC /\
      leaves tB' ++ leaves tC' ≡ₚ leaves tB ++ leaves tC /\
      (forall j, j ∉ i :: ids tB ++ ids tC -> j <> ctx_id c -> zget ns j = zget ns j) /\
      length ns = length ns /\ cnt = cnt /\ cap = cap /\ fl = fl /\ ic = ic).
  { exists tB, tC. split; [exact Hst|]. repeat split; auto. }
  unfold Balance_alt.
  assert (Hnn : negb (i =? b2_nullNode) = true).
  { apply negb_true_iff, Z.eqb_neq. unfold b2_nullNode. lia. }
  wp_steps.
  assert (Hleaf : IsLeaf nA = false).
  { unfold IsLeaf. rewrite Hc1. apply Z.eqb_neq. unfold b2_nullNode. lia. }
  rewrite Hleaf. cbn [orb].
  destruct (height nA <? 2); [wp_steps; exact Hkeep|].
  rewrite Hc1, Hc2. wp_steps. rewrite HhB, HhC.
  destruct (theight tC - theight tB >? 1) eqn:Hbal.
  - apply Z.gtb_lt in Hbal.
    destruct tC as [iC ? ? ?|iC tF tG]; [cbn [theight] in *; lia|].
    cbn [root_of] in *. pose proof HwC as HwC0. cbn [wf] in HwC.
    destruct HwC as ((nC' & nF & nG & HnC' & HnF & HnG & _ & Hc1C & Hc2C & _) & HwF & HwG).
    rewrite HnC in HnC'. injection HnC' as <-.
    wp_steps. rewrite Hc1C, Hc2C.
    eapply wp_mono.
    { eapply (rotate_up_spec true root ns cnt cap fl ic c i tB iC tF tG nA); eassumption. }
    cbv beta zeta. intros r s' (-> & Hst' & Hfr & Hl & Hcnt & Hcap & Hfl & Hic).
    eexists _, _. split; [exact Hst'|].
    split; [|split; [|split; [|split; [exact Hl|auto]]]].
    + destruct (theight tF >? theight tG); cbn [ids]; solve_Permutation.
    + destruct (theight tF >? theight tG); cbn [leaves]; solve_Permutation.
    + intros j Hj Hne. apply Hfr; [|exact Hne]. cbn [ids] in Hj. exact Hj.
  - destruct (theight tC - theight tB <? -1) eqn:Hbal2; [|wp_steps; exact Hkeep].
    apply Z.ltb_lt in Hbal2.
    destruct tB as [iB ? ? ?|iB tD tE]; [cbn [theight] in *; lia|].
    cbn [root_of] in *. pose proof HwB as HwB0. cbn [wf] in HwB.
    destruct HwB as ((nB' & nD & nE & HnB' & HnD & HnE & _ & Hc1B & Hc2B & _) & HwD & HwE).
    rewrite HnB in HnB'. injection HnB' as <-.
    wp_steps. rewrite Hc1B, Hc2B.
    assert (Hnd' : NoDup (i :: ids tC ++ (iB :: ids tD ++ ids tE) ++ ctx_ids c)).
    { cbn [ids] in Hnd. nodup_perm Hnd. }
    eapply wp_mono.
    { eapply (rotate_up_spec false root ns cnt cap fl ic c i tC iB tD tE nA); eassumption. }
    cbv beta zeta. intros r s' (-> & Hst' & Hfr & Hl & Hcnt & Hcap & Hfl & Hic).
    eexists _, _. split; [exact Hst'|].
    split; [|split; [|split; [|split; [exact Hl|auto]]]].
    + destruct (theight tD >? theight tE); cbn [ids]; solve_Permutation.
    + destruct (theight tD >? theight tE); cbn [leaves]; solve_Permutation.
    + intros j Hj Hne. apply Hfr; [|exact Hne]. cbn [ids] in Hj.
      intros Hin. apply Hj. revert Hin.
      rewrite !elem_of_cons, !elem_of_app, !elem_of_cons, !elem_of_app. tauto.
Qed.
(** ** The walks back up the tree *)

(** Recomputing the height and the box of [i] from its children makes the
    subtree at [i] whole again. *)
Lemma refit_focus (ns1 ns2 : list b2TreeNode) rt c i tB tC nA2 :
  (exists n, zget ns1 i = Some n /\ parent n = ctx_id c /\
             child1 n = root_of tB /\ child2 n = root_of tC /\
             parent nA2 = parent n /\ child1 nA2 = child1 n /\ child2 nA2 = child2 n) ->
  wf ns1 i tB -> wf ns1 i tC -> wf_ctx ns1 rt c i ->
  NoDup (i :: ids tB ++ ids tC ++ ctx_ids c) ->
  zget ns2 i = Some nA2 ->
  (forall j, j <> i -> zget ns2 j = zget ns1 j) ->
  (forall nB nC, zget ns1 (root_of tB) = Some nB -> zget ns1 (root_of tC) = Some nC ->
     height nA2 = 1 + Z.max (height nB) (height nC) /\
     aabb nA2 = Combine (aabb nB) (aabb nC)) ->
  wf ns2 (ctx_id c) (Nd i tB tC) /\ wf_ctx ns2 rt c i.
Proof.
  intros (nA & HnA & HpA & Hc1 & Hc2 & Hp2 & Hc12 & Hc22) HwB HwC Hctx Hnd HnA2 Hfr Hm.
  destruct (wf_root _ _ _ HwB) as (nB & HnB & HpB & HhB & _).
  destruct (wf_root _ _ _ HwC) as (nC & HnC & HpC & HhC & _).
  destruct (Hm nB nC HnB HnC) as [Hh Ha].
  assert (HfrB : forall j, j ∈ ids tB -> zget ns2 j = zget ns1 j).
  { intros j Hj. apply Hfr. ne_solve. }
  assert (HfrC : forall j, j ∈ ids tC -> zget ns2 j = zget ns1 j).
  { intros j Hj. apply Hfr. ne_solve. }
  split.
  - cbn [wf theight]. split; [|split; eapply wf_frame; eassumption].
    exists nA2, nB, nC.
    rewrite (HfrB (root_of tB)), (HfrC (root_of tC)) by apply root_in_ids.
    repeat split; try assumption; try congruence.
    left. exact Ha.
  - eapply wf_ctx_frame; [|exact Hctx]. intros j Hj. apply Hfr. ne_solve.
Qed.

(** The rest of a walk, once the subtree at [i'] is whole. *)
Lemma walk_continue (loop : Z -> M b2DynamicTree unit) c s s2 all lvs i' tB' tC' :
  (forall s0, loop b2_nullNode s0 = Some (tt, s0)) ->
  match c with
  | Top => True
  | InL p c' r | InR p r c' =>
      forall s0 tB tC,
        stale s0 c' p tB tC -> Z.of_nat (length (m_nodes s0)) = m_nodeCapacity s0 ->
        wp (loop p) s0 (fun _ s' =>
          walked s0 (p :: ids tB ++ ids tC ++ ctx_ids c')
                    (leaves tB ++ leaves tC ++ ctx_leaves c') s')
  end ->
  wf (m_nodes s2) (ctx_id c) (Nd i' tB' tC') ->
  wf_ctx (m_nodes s2) (m_root s2) c i' ->
  NoDup (i' :: ids tB' ++ ids tC' ++ ctx_ids c) ->
  i' :: ids tB' ++ ids tC' ++ ctx_ids c ≡ₚ all ->
  leaves tB' ++ leaves tC' ++ ctx_leaves c ≡ₚ lvs ->
  (forall j, j ∉ all -> zget (m_nodes s2) j = zget (m_nodes s) j) ->
  Z.of_nat (length (m_nodes s2)) = m_nodeCapacity s2 ->
  length (m_nodes s2) = length (m_nodes s) ->
  m_nodeCount s2 = m_nodeCount s -> m_nodeCapacity s2 = m_nodeCapacity s ->
  m_freeList s2 = m_freeList s -> m_insertionCount s2 = m_insertionCount s ->
  wp (loop (ctx_id c)) s2 (fun _ s' => walked s all lvs s').
Proof.
  intros Hnull IH Hw Hctx Hnd Hpi Hpl Hfr Hlen2 Hl Hcnt Hcap Hfl Hic.
  destruct c as [|p c r|p l c]; cbn [ctx_id ctx_ids ctx_leaves wf_ctx] in *.
  - eapply wp_run; [apply Hnull|]. exists (Nd i' tB' tC').
    rewrite app_nil_r in *. cbn [ids leaves root_of].
    split; [exact Hw|]. repeat split; try assumption.
  - destruct Hctx as ((np & Hnp & Hpp & Hc1p & Hc2p) & Hwr & Hc).
    eapply wp_mono.
    { apply (IH s2 (Nd i' tB' tC') r); [|exact Hlen2].
      split; [exists np; auto|]. split; [exact Hw|]. split; [exact Hwr|]. split; [exact Hc|].
      cbn [ids]. nodup_perm Hnd. }
    intros [] s' (t' & Hwt & Hrt & Hpi' & Hpl' & Hfr' & Hl' & Hcnt' & Hcap' & Hfl' & Hic').
    exists t'. split; [exact Hwt|]. split; [exact Hrt|].
    assert (Hall : p :: ids (Nd i' tB' tC') ++ ids r ++ ctx_ids c ≡ₚ all).
    { rewrite <- Hpi. cbn [ids]. solve_Permutation. }
    split; [rewrite Hpi'; exact Hall|].
    split; [rewrite Hpl', <- Hpl; cbn [leaves]; solve_Permutation|].
    split; [|repeat split; congruence].
    intros j Hj. rewrite Hfr'; [apply Hfr, Hj|]. rewrite Hall. exact Hj.
  - destruct Hctx as ((np & Hnp & Hpp & Hc1p & Hc2p) & Hwl & Hc).
    eapply wp_mono.
    { apply (IH s2 l (Nd i' tB' tC')); [|exact Hlen2].
      split; [exists np; auto|]. split; [exact Hwl|]. split; [exact Hw|]. split; [exact Hc|].
      cbn [ids]. nodup_perm Hnd. }
    intros [] s' (t' & Hwt & Hrt & Hpi' & Hpl' & Hfr' & Hl' & Hcnt' & Hcap' & Hfl' & Hic').
    exists t'. split; [exact Hwt|]. split; [exact Hrt|].
    assert (Hall : p :: ids l ++ ids (Nd i' tB' tC') ++ ctx_ids c ≡ₚ all).
    { rewrite <- Hpi. cbn [ids]. solve_Permutation. }
    split; [rewrite Hpi'; exact Hall|].
    split; [rewrite Hpl', <- Hpl; cbn [leaves]; solve_Permutation|].
    split; [|repeat split; congruence].
    intros j Hj. rewrite Hfr'; [apply Hfr, Hj|]. rewrite Hall. exact Hj.
Qed.

Lemma stale_perm_notin (all : list Z) i tB tC c i' tB' tC' j :
  i' :: ids tB' ++ ids tC' ≡ₚ i :: ids tB ++ ids tC ->
  j ∉ i :: ids tB ++ ids tC ++ ctx_ids c ->
  (j ∉ i :: ids tB ++ ids tC) /\ (j ∉ ctx_ids c) /\ j <> i'.
Proof.
  intros Hp Hj. split; [|split].
  - intros Hin. apply Hj. revert Hin. rewrite !elem_of_cons, !elem_of_app. tauto.
  - intros Hin. apply Hj. revert Hin. rewrite !elem_of_cons, !elem_of_app. tauto.
  - intros ->. apply Hj.
    assert (Hin : i' ∈ i' :: ids tB' ++ ids tC') by left.
    rewrite Hp in Hin. revert Hin. rewrite !elem_of_cons, !elem_of_app. tauto.
Qed.

Lemma notin_ctx_ne_id c j : 0 <= j -> j ∉ ctx_ids c -> j <> ctx_id c.
Proof.
  destruct c; cbn [ctx_id ctx_ids]; intros Hj Hn.
  - unfold b2_nullNode. lia.
  - intros ->. apply Hn. left.
  - intros ->. apply Hn. left.
Qed.

(** One turn of a walk, after [Balance]: with the height and the box of
    [i'] recomputed in the nodes [ns2], the walk goes on from the parent. *)
Lemma walk_turn (loop : Z -> M b2DynamicTree unit) c root ns cnt cap fl ic
      i tB tC root1 ns1 ns2 i' tB' tC' nA2 :
  (forall s0, loop b2_nullNode s0 = Some (tt, s0)) ->
  match c with
  | Top => True
  | InL p c' r | InR p r c' =>
      forall s0 tB tC,
        stale s0 c' p tB tC -> Z.of_nat (length (m_nodes s0)) = m_nodeCapacity s0 ->
        wp (loop p) s0 (fun _ s' =>
          walked s0 (p :: ids tB ++ ids tC ++ ctx_ids c')
                    (leaves tB ++ leaves tC ++ ctx_leaves c') s')
  end ->
  Z.of_nat (length ns) = cap ->
  stale (mkTree root1 ns1 cnt cap fl ic) c i' tB' tC' ->
  i' :: ids tB' ++ ids tC' ≡ₚ i :: ids tB ++ ids tC ->
  leaves tB' ++ leaves tC' ≡ₚ leaves tB ++ leaves tC ->
  (forall j, j ∉ i :: ids tB ++ ids tC -> j <> ctx_id c -> zget ns1 j = zget ns j) ->
  length ns1 = length ns ->
  zget ns2 i' = Some nA2 ->
  (forall j, j <> i' -> zget ns2 j = zget ns1 j) ->
  length ns2 = length ns1 ->
  (forall n, zget ns1 i' = Some n ->
     parent nA2 = parent n /\ child1 nA2 = child1 n /\ child2 nA2 = child2 n) ->
  (forall nB nC, zget ns1 (root_of tB') = Some nB -> zget ns1 (root_of tC') = Some nC ->
     height nA2 = 1 + Z.max (height nB) (height nC) /\
     aabb nA2 = Combine (aabb nB) (aabb nC)) ->
  wp (loop (ctx_id c)) (mkTree root1 ns2 cnt cap fl ic) (fun _ s' =>
    walked (mkTree root ns cnt cap fl ic) (i :: ids tB ++ ids tC ++ ctx_ids c)
           (leaves tB ++ leaves tC ++ ctx_leaves c) s').
Proof.
  intros Hnull IH Hlen Hst1 Hpi Hpl Hfr1 Hl1 HnA2 Hfr2 Hl2 Hsame Hm.
  destruct Hst1 as ((nA1 & HnA1 & HpA1 & Hc1A1 & Hc2A1) & HwB1 & HwC1 & Hctx1 & Hnd1).
  tree_red. destruct (Hsame nA1 HnA1) as (Hp & Hc1 & Hc2).
  destruct (refit_focus ns1 ns2 root1 c i' tB' tC' nA2) as [Hw2 Hctx2]; try assumption.
  { exists nA1. repeat split; assumption. }
  eapply (walk_continue loop c _ _ _ _ i' tB' tC' Hnull IH); tree_red;
    try reflexivity; try assumption; try congruence.
  - etrans; [|etrans; [apply (Permutation_app_tail (ctx_ids c) Hpi)|]];
      cbn [app]; rewrite <- ?app_assoc; reflexivity.
  - etrans; [|etrans; [apply (Permutation_app_tail (ctx_leaves c) Hpl)|]];
      rewrite <- ?app_assoc; reflexivity.
  - intros j Hj.
    destruct (stale_perm_notin (i :: ids tB ++ ids tC ++ ctx_ids c) _ _ _ _ _ _ _ j Hpi Hj)
      as (Hj1 & Hj2 & Hj3).
    rewrite Hfr2 by exact Hj3.
    destruct (decide (0 <= j)) as [Hpos|Hneg].
    + apply Hfr1; [exact Hj1|]. apply notin_ctx_ne_id; assumption.
    + unfold zget. rewrite !decide_False by exact Hneg. reflexivity.
Qed.

Lemma InsertLeaf_fix_null fuel s : InsertLeaf_fix fuel b2_nullNode s = Some (tt, s).
Proof. destruct fuel; reflexivity. Qed.

Lemma RemoveLeaf_fix_null fuel s : RemoveLeaf_fix fuel b2_nullNode s = Some (tt, s).
Proof. destruct fuel; reflexivity. Qed.

Lemma InsertLeaf_fix_spec c : forall fuel s i tB tC,
  (ctx_depth c < fuel)%nat ->
  stale s c i tB tC -> Z.of_nat (length (m_nodes s)) = m_nodeCapacity s ->
  wp (InsertLeaf_fix fuel i) s (fun _ s' =>
    walked s (i :: ids tB ++ ids tC ++ ctx_ids c)
             (leaves tB ++ leaves tC ++ ctx_leaves c) s').
Proof.
  induction c as [|p c IH r|p l c IH]; intros fuel s i tB tC Hfuel Hst Hlen.
  all: destruct fuel as [|fuel]; [cbn in Hfuel; lia|].
  all: pose proof Hst as ((nA & HnA & _) & _).
  all: pose proof (zget_Some_range _ _ _ HnA) as HrA.
  all: cbn [InsertLeaf_fix].
  all: replace (i =? b2_nullNode) with false
         by (symmetry; apply Z.eqb_neq; unfold b2_nullNode; lia).
  all: apply wp_bind; eapply wp_mono; [eapply Balance_spec; eassumption|].
  all: intros i' s1 (tB' & tC' & Hst1 & Hpi & Hpl & Hfr1 & Hl1 & Hcnt1 & Hcap1 & Hfl1 & Hic1).
  all: destruct s as [root ns cnt cap fl ic]; destruct s1 as [root1 ns1 cnt1 cap1 fl1 ic1].
  all: tree_red; subst cnt1 cap1 fl1 ic1.
  all: pose proof Hst1 as ((nA1 & HnA1 & HpA1 & Hc1A1 & Hc2A1) & HwB1 & HwC1 & Hctx1 & Hnd1).
  all: tree_red.
  all: destruct (wf_root _ _ _ HwB1) as (nB1 & HnB1 & HpB1 & HhB1 & _).
  all: destruct (wf_root _ _ _ HwC1) as (nC1 & HnC1 & HpC1 & HhC1 & _).
  all: pose proof (zget_Some_range _ _ _ HnA1); pose proof (zget_Some_range _ _ _ HnB1).
  all: pose proof (zget_Some_range _ _ _ HnC1).
  all: wp_step; wp_step; rewrite Hc1A1; wp_step; wp_step; rewrite Hc2A1.
  all: assert (Hn1 : negb (root_of tB' =? b2_nullNode) = true)
         by (apply negb_true_iff, Z.eqb_neq; unfold b2_nullNode; lia).
  all: assert (Hn2 : negb (root_of tC' =? b2_nullNode) = true)
         by (apply negb_true_iff, Z.eqb_neq; unfold b2_nullNode; lia).
  all: wp_steps; rewrite HpA1.
  all: eapply (walk_turn (InsertLeaf_fix fuel) _ root ns cnt cap fl ic i tB tC
                 root1 ns1 _ i' tB' tC'); try eassumption.
  all: try apply InsertLeaf_fix_null.
  all: try (intros s0 tB0 tC0 Hs0 Hl0; apply IH; [cbn in Hfuel; lia|exact Hs0|exact Hl0]).
  all: try exact I.
  all: try zget_solve.
  all: try (intros j Hj; rewrite !zget_upd_ne by congruence; reflexivity).
  all: try (rewrite !length_upd; reflexivity).
  all: try (intros n Hn; rewrite HnA1 in Hn; injection Hn as <-; repeat split).
  all: try (intros nB nC HB HC; rewrite HnB1 in HB; rewrite HnC1 in HC;
            injection HB as <-; injection HC as <-; rewrite b2Max_spec; split; reflexivity).
Qed.

Lemma RemoveLeaf_fix_spec c : forall fuel s i tB tC,
  (ctx_depth c < fuel)%nat ->
  stale s c i tB tC -> Z.of_nat (length (m_nodes s)) = m_nodeCapacity s ->
  wp (RemoveLeaf_fix fuel i) s (fun _ s' =>
    walked s (i :: ids tB ++ ids tC ++ ctx_ids c)
             (leaves tB ++ leaves tC ++ ctx_leaves c) s').
Proof.
  induction c as [|p c IH r|p l c IH]; intros fuel s i tB tC Hfuel Hst Hlen.
  all: destruct fuel as [|fuel]; [cbn in Hfuel; lia|].
  all: pose proof Hst as ((nA & HnA & _) & _).
  all: pose proof (zget_Some_range _ _ _ HnA) as HrA.
  all: cbn [RemoveLeaf_fix].
  all: replace (i =? b2_nullNode) with false
         by (symmetry; apply Z.eqb_neq; unfold b2_nullNode; lia).
  all: apply wp_bind; eapply wp_mono; [eapply Balance_spec; eassumption|].
  all: intros i' s1 (tB' & tC' & Hst1 & Hpi & Hpl & Hfr1 & Hl1 & Hcnt1 & Hcap1 & Hfl1 & Hic1).
  all: destruct s as [root ns cnt cap fl ic]; destruct s1 as [root1 ns1 cnt1 cap1 fl1 ic1].
  all: tree_red; subst cnt1 cap1 fl1 ic1.
  all: pose proof Hst1 as ((nA1 & HnA1 & HpA1 & Hc1A1 & Hc2A1) & HwB1 & HwC1 & Hctx1 & Hnd1).
  all: tree_red.
  all: destruct (wf_root _ _ _ HwB1) as (nB1 & HnB1 & HpB1 & HhB1 & _).
  all: destruct (wf_root _ _ _ HwC1) as (nC1 & HnC1 & HpC1 & HhC1 & _).
  all: pose proof (zget_Some_range _ _ _ HnA1); pose proof (zget_Some_range _ _ _ HnB1).
  all: pose proof (zget_Some_range _ _ _ HnC1).
  all: wp_step; wp_step; rewrite Hc1A1; wp_step; wp_step; rewrite Hc2A1.
  all: wp_steps; rewrite HpA1.
  all: eapply (walk_turn (RemoveLeaf_fix fuel) _ root ns cnt cap fl ic i tB tC
                 root1 ns1 _ i' tB' tC'); try eassumption.
  all: try apply RemoveLeaf_fix_null.
  all: try (intros s0 tB0 tC0 Hs0 Hl0; apply IH; [cbn in Hfuel; lia|exact Hs0|exact Hl0]).
  all: try exact I.
  all: try zget_solve.
  all: try (intros j Hj; rewrite !zget_upd_ne by congruence; reflexivity).
  all: try (rewrite !length_upd; reflexivity).
  all: try (intros n Hn; rewrite HnA1 in Hn; injection Hn as <-; repeat split).
  all: try (intros nB nC HB HC; rewrite HnB1 in HB; rewrite HnC1 in HC;
            injection HB as <-; injection HC as <-; rewrite b2Max_spec; split; reflexivity).
Qed.
(** ** Places in the tree *)

(** The pool of a state whose free nodes, capacity, free list and count are
    those of a state with a pool in order. *)
Lemma arena_ok_frame s s' fl live live' :
  arena_ok s fl live -> live ≡ₚ live' ->
  length (m_nodes s') = length (m_nodes s) ->
  m_nodeCapacity s' = m_nodeCapacity s -> m_freeList s' = m_freeList s ->
  m_nodeCount s' = m_nodeCount s ->
  (forall j, j ∈ fl -> zget (m_nodes s') j = zget (m_nodes s) j) ->
  arena_ok s' fl live'.
Proof.
  intros [Hlen Hpos Hch Hperm Hcnt] Hp Hl Hcap Hfl Hc Hfr. constructor.
  - rewrite Hl, Hcap. exact Hlen.
  - rewrite Hcap. exact Hpos.
  - rewrite Hfl. eapply free_chain_frame; [exact Hfr|exact Hch].
  - rewrite Hcap, <- Hp. exact Hperm.
  - rewrite Hc, Hcnt. apply Permutation_length in Hp. lia.
Qed.

(** Every leaf of a subtree has its place in the tree. *)
Lemma focus_find ns rt t : forall c i box data mv,
  wf ns (ctx_id c) t -> wf_ctx ns rt c (root_of t) -> NoDup (ids t ++ ctx_ids c) ->
  (i, box, data, mv) ∈ leaves t ->
  exists c',
    wf ns (ctx_id c') (Lf i box data mv) /\ wf_ctx ns rt c' i /\
    i :: ctx_ids c' ≡ₚ ids t ++ ctx_ids c /\
    (i, box, data, mv) :: ctx_leaves c' ≡ₚ leaves t ++ ctx_leaves c.
Proof.
  induction t as [j b d m|j l IHl r IHr]; intros c i box data mv Hw Hc Hnd Hin.
  - cbn [leaves] in Hin. apply list_elem_of_singleton in Hin. injection Hin as -> -> -> ->.
    exists c. split; [exact Hw|]. split; [exact Hc|]. split; reflexivity.
  - cbn [wf root_of ids leaves] in *.
    destruct Hw as ((n & nl & nr & Hn & Hnl & Hnr & Hp & Hc1 & Hc2 & Hh & Ha) & Hwl & Hwr).
    apply elem_of_app in Hin as [Hin|Hin].
    + destruct (IHl (InL j c r) i box data mv) as (c' & H1 & H2 & H3 & H4); try assumption.
      * cbn [wf_ctx]. split; [exists n; auto|]. split; assumption.
      * cbn [ctx_ids]. nodup_perm Hnd.
      * exists c'. split; [exact H1|]. split; [exact H2|].
        split; [rewrite H3|rewrite H4]; cbn [ctx_ids ctx_leaves]; solve_Permutation.
    + destruct (IHr (InR j l c) i box data mv) as (c' & H1 & H2 & H3 & H4); try assumption.
      * cbn [wf_ctx]. split; [exists n; auto|]. split; assumption.
      * cbn [ctx_ids]. nodup_perm Hnd.
      * exists c'. split; [exact H1|]. split; [exact H2|].
        split; [rewrite H3|rewrite H4]; cbn [ctx_ids ctx_leaves]; solve_Permutation.
Qed.

Lemma ctx_depth_le c : (ctx_depth c <= length (ctx_ids c))%nat.
Proof.
  induction c as [|i c IH r|i l c IH]; cbn [ctx_depth ctx_ids length]; [lia|..];
    rewrite length_app; lia.
Qed.

(** The descent of [InsertLeaf] ends at the root of a subtree, and leaves
    the tree as it is. *)
Lemma InsertLeaf_sibling_spec leafAABB s t : forall fuel c,
  theight t < Z.of_nat fuel ->
  wf (m_nodes s) (ctx_id c) t -> wf_ctx (m_nodes s) (m_root s) c (root_of t) ->
  wp (InsertLeaf_sibling fuel leafAABB (root_of t)) s (fun i s' =>
    s' = s /\ exists c' t',
      i = root_of t' /\
      wf (m_nodes s) (ctx_id c') t' /\ wf_ctx (m_nodes s) (m_root s) c' (root_of t') /\
      ids t' ++ ctx_ids c' ≡ₚ ids t ++ ctx_ids c /\
      leaves t' ++ ctx_leaves c' ≡ₚ leaves t ++ ctx_leaves c).
Proof.
  induction t as [j b d m|j l IHl r IHr]; intros fuel c Hfuel Hw Hc.
  - destruct fuel as [|fuel]; [cbn in Hfuel; lia|].
    cbn [InsertLeaf_sibling root_of]. cbn [wf] in Hw.
    wp_step. wp_step. replace (IsLeaf _) with true by reflexivity. wp_step.
    split; [reflexivity|]. exists c, (Lf j b d m). auto.
  - destruct fuel as [|fuel]; [pose proof (theight_nonneg (Nd j l r)); lia|].
    cbn [InsertLeaf_sibling root_of]. pose proof Hw as Hw0. cbn [wf theight] in Hw, Hfuel.
    destruct Hw as ((n & nl & nr & Hn & Hnl & Hnr & Hp & Hc1 & Hc2 & Hh & Ha) & Hwl & Hwr).
    pose proof (zget_Some_range _ _ _ Hnl). pose proof (zget_Some_range _ _ _ Hnr).
    wp_step. wp_step.
    replace (IsLeaf n) with false
      by (symmetry; unfold IsLeaf; apply Z.eqb_neq; unfold b2_nullNode; lia).
    cbv zeta. rewrite Hc1, Hc2. wp_step. wp_step. wp_step. wp_step.
    match goal with |- wp (if ?b then _ else _) _ _ => destruct b end.
    { wp_step. split; [reflexivity|]. exists c, (Nd j l r). auto. }
    match goal with |- wp (if ?b then _ else _) _ _ => destruct b end.
    + eapply wp_mono; [apply (IHl fuel (InL j c r)); [lia|exact Hwl|]|].
      { cbn [wf_ctx]. split; [exists n; auto|]. split; assumption. }
      intros i s' (-> & c' & t' & -> & H1 & H2 & H3 & H4). split; [reflexivity|].
      exists c', t'. split; [reflexivity|]. split; [exact H1|]. split; [exact H2|].
      split; [rewrite H3|rewrite H4]; cbn [ctx_ids ctx_leaves ids leaves]; solve_Permutation.
    + eapply wp_mono; [apply (IHr fuel (InR j l c)); [lia|exact Hwr|]|].
      { cbn [wf_ctx]. split; [exists n; auto|]. split; assumption. }
      intros i s' (-> & c' & t' & -> & H1 & H2 & H3 & H4). split; [reflexivity|].
      exists c', t'. split; [reflexivity|]. split; [exact H1|]. split; [exact H2|].
      split; [rewrite H3|rewrite H4]; cbn [ctx_ids ctx_leaves ids leaves]; solve_Permutation.
Qed.

(** The root pointer leads to the topmost node of a path. *)
Lemma wf_ctx_root ns rt c h : wf_ctx ns rt c h -> rt ∈ h :: ctx_ids c.
Proof.
  revert h. induction c as [|i c IH r|i l c IH]; intros h; cbn [wf_ctx ctx_ids].
  - intros ->. left.
  - intros (_ & _ & Hc). apply IH in Hc. right.
    apply elem_of_cons in Hc as [->|Hc]; [left|right; apply elem_of_app; right; exact Hc].
  - intros (_ & _ & Hc). apply IH in Hc. right.
    apply elem_of_cons in Hc as [->|Hc]; [left|right; apply elem_of_app; right; exact Hc].
Qed.

Lemma NoDup_blocks_notin (L l1 l2 : list Z) x :
  NoDup L -> l1 ++ l2 ⊆+ L -> x ∈ l1 -> x ∉ l2.
Proof. intros Hnd Hsub Hx Hy. exact (NoDup_blocks_ne L l1 l2 x x Hnd Hsub Hx Hy eq_refl). Qed.

(** [x ∉ l2] from a hypothesis [NoDup L] in which [x] sits in another part. *)
Ltac notin_solve :=
  match goal with
  | Hnd : NoDup ?L |- ?x ∉ ?l2 =>
      let l1 := block_of x in
      apply (NoDup_blocks_notin L l1 l2 x Hnd); [solve_submseteq|mem_solve]
  end.

Lemma RemoveLeaf_unlink_spec s fl leaf nl p sb c fuel :
  arena_ok s fl (leaf :: p :: ids sb ++ ctx_ids c) ->
  zget (m_nodes s) leaf = Some nl ->
  wf (m_nodes s) p sb -> wf_ctx (m_nodes s) (m_root s) c p ->
  (length (ctx_ids c) < fuel)%nat ->
  wp (RemoveLeaf_unlink fuel p (ctx_id c) (root_of sb)) s (fun _ s' =>
    exists t',
      tree_ok s' (Some t') [leaf] /\
      leaves t' ≡ₚ leaves sb ++ ctx_leaves c /\
      zget (m_nodes s') leaf = Some nl /\
      m_insertionCount s' = m_insertionCount s).
Proof.
  intros Hok Hlf Hsb Hc Hfuel.
  pose proof (arena_NoDup _ _ _ Hok) as HndA.
  pose proof HndA as Hnd. apply NoDup_app in Hnd as (_ & _ & Hnd).
  pose proof Hok as [Hlen Hpos Hch Hperm Hcnt].
  destruct s as [root ns cnt cap hd ic]. tree_red.
  destruct (wf_root _ _ _ Hsb) as (nS & HnS & HpS & HhS & _).
  pose proof (zget_Some_range _ _ _ HnS) as HrS.
  unfold RemoveLeaf_unlink.
  destruct c as [|g c r2|g l2 c]; cbn [wf_ctx ctx_id ctx_ids ctx_leaves] in *.
  1: { replace (negb (b2_nullNode =? b2_nullNode)) with false by reflexivity.
    wp_step. wp_step. wp_step. wp_step.
    eapply wp_mono.
    { eapply (FreeNode_spec _ fl (leaf :: p :: ids sb ++ []) (leaf :: ids sb) p).
      - eapply arena_ok_frame; [exact Hok|reflexivity|..]; tree_red;
          rewrite ?length_upd; try reflexivity.
        intros j Hj. rewrite zget_upd_ne; [reflexivity|ne_solve].
      - rewrite app_nil_r. solve_Permutation. }
    intros [] s' (Hok' & Hfr' & _ & Hrt' & Hic' & Hcap'). tree_red.
    exists sb. split; [|split; [|split]].
    + split; [exists (p :: fl); exact Hok'|]. split; [exact Hrt'|].
      eapply wf_frame; [intros j Hj; apply Hfr'; ne_solve|].
      eapply (wf_reparent ns _ p b2_nullNode sb nS Hsb); [eapply NoDup_sub; [exact Hnd|solve_submseteq]|exact HnS|zget_solve|].
      intros j Hj Hne. rewrite zget_upd_ne by congruence. reflexivity.
    + rewrite app_nil_r. reflexivity.
    + rewrite Hfr' by ne_solve. rewrite zget_upd_ne by ne_solve. exact Hlf.
    + exact Hic'. }
  all: destruct Hc as ((nG & HnG & HpG & Hc1G & Hc2G) & Hw2 & Hc).
  all: pose proof (zget_Some_range _ _ _ HnG) as HrG.
  all: replace (negb (g =? b2_nullNode)) with true
         by (symmetry; apply negb_true_iff, Z.eqb_neq; unfold b2_nullNode; lia).
  all: wp_step; wp_step; wp_step; rewrite Hc1G.
  1: rewrite Z.eqb_refl.
  2: replace (root_of l2 =? p) with false by (symmetry; apply Z.eqb_neq; ne_solve).
  all: wp_step; wp_step; wp_step; wp_step.
  1: pose (other := r2).
  2: pose (other := l2).
  all: eapply wp_mono;
         [eapply (FreeNode_spec _ fl _ (leaf :: g :: ids sb ++ ids other ++ ctx_ids c) p);
            [eapply arena_ok_frame; [exact Hok|reflexivity|..]; tree_red;
               rewrite ?length_upd; try reflexivity;
               intros j Hj; rewrite !zget_upd_ne; [reflexivity|ne_solve|ne_solve]
            |subst other; solve_Permutation]|].
  all: intros [] s1 (Hok1 & Hfr1 & _ & Hrt1 & Hic1 & Hcap1); tree_red.
  all: assert (Hfuel' : (ctx_depth c < fuel)%nat)
         by (pose proof (ctx_depth_le c); cbn [length] in Hfuel;
             rewrite length_app in Hfuel; lia).
  all: assert (Hfrs : forall j, j <> p -> j <> g -> j <> root_of sb ->
                       zget (m_nodes s1) j = zget ns j)
         by (intros j Hj1 Hj2 Hj3; rewrite Hfr1 by exact Hj1;
             rewrite !zget_upd_ne by congruence; reflexivity).
  all: assert (HwS : wf (m_nodes s1) g sb)
         by (eapply (wf_reparent ns _ p g sb nS Hsb);
             [eapply NoDup_sub; [exact Hnd|solve_submseteq]
             |exact HnS
             |rewrite Hfr1 by ne_solve; zget_solve
             |intros j Hj Hne; apply Hfrs; [ne_solve|ne_solve|exact Hne]]).
  all: assert (HwO : wf (m_nodes s1) g other)
         by (subst other; eapply wf_frame; [|exact Hw2];
             intros j Hj; apply Hfrs; ne_solve).
  all: assert (HwC : wf_ctx (m_nodes s1) (m_root s1) c g)
         by (rewrite Hrt1; eapply wf_ctx_frame; [|exact Hc];
             intros j Hj; apply Hfrs; ne_solve).
  all: subst other.
  - eapply wp_mono.
    { apply (RemoveLeaf_fix_spec c fuel s1 g sb r2); [exact Hfuel'| |apply Hok1].
      split; [eexists; split; [rewrite Hfr1 by ne_solve; zget_solve|node_red; auto]|].
      split; [exact HwS|]. split; [exact HwO|]. split; [exact HwC|].
      eapply NoDup_sub; [exact Hnd|solve_submseteq]. }
    intros [] s' (t' & Hwt & Hrt & Hpi' & Hpl' & Hfr' & Hl' & Hcnt' & Hcap' & Hfl' & Hic').
    exists t'. split; [|split; [exact Hpl'|split; [|congruence]]].
    + split; [|split; assumption]. exists (p :: fl). cbn [app opt_ids].
      eapply arena_ok_frame; [exact Hok1|rewrite Hpi'; reflexivity|..]; try assumption.
      intros j Hj. apply Hfr'. notin_solve.
    + rewrite Hfr' by notin_solve. rewrite Hfrs by ne_solve. exact Hlf.
  - eapply wp_mono.
    { apply (RemoveLeaf_fix_spec c fuel s1 g l2 sb); [exact Hfuel'| |apply Hok1].
      split; [eexists; split; [rewrite Hfr1 by ne_solve; zget_solve|node_red; auto]|].
      split; [exact HwO|]. split; [exact HwS|]. split; [exact HwC|].
      eapply NoDup_sub; [exact Hnd|solve_submseteq]. }
    intros [] s' (t' & Hwt & Hrt & Hpi' & Hpl' & Hfr' & Hl' & Hcnt' & Hcap' & Hfl' & Hic').
    exists t'. split; [|split; [rewrite Hpl'; solve_Permutation|split; [|congruence]]].
    + split; [|split; assumption]. exists (p :: fl). cbn [app opt_ids].
      eapply arena_ok_frame; [exact Hok1|rewrite Hpi'; solve_Permutation|..]; try assumption.
      intros j Hj. apply Hfr'. notin_solve.
    + rewrite Hfr' by notin_solve. rewrite Hfrs by ne_solve. exact Hlf.
Qed.
Lemma RemoveLeaf_spec s t leaf box data mv fuel :
  tree_ok s (Some t) [] -> (leaf, box, data, mv) ∈ leaves t ->
  (length (ids t) < fuel)%nat ->
  wp (RemoveLeaf fuel leaf) s (fun _ s' =>
    exists ot' p,
      tree_ok s' ot' [leaf] /\
      (leaf, box, data, mv) :: opt_leaves ot' ≡ₚ leaves t /\
      zget (m_nodes s') leaf = Some (mkNode box data p b2_nullNode b2_nullNode 0 mv) /\
      m_insertionCount s' = m_insertionCount s).
Proof.
  intros ((fl & Hok) & Hroot & Hw) Hin Hfuel. cbn [app opt_ids] in Hok.
  pose proof (arena_NoDup _ _ _ Hok) as Hnd0.
  apply NoDup_app in Hnd0 as (_ & _ & Hnd).
  destruct (focus_find (m_nodes s) (m_root s) t Top leaf box data mv)
    as (c & Hlf & Hctx & Hpi & Hpl); try assumption.
  { cbn [ctx_ids]. rewrite app_nil_r. exact Hnd. }
  cbn [ctx_ids ctx_leaves] in Hpi, Hpl. rewrite app_nil_r in Hpi, Hpl.
  rewrite <- Hpi in Hnd. cbn [wf] in Hlf.
  pose proof (zget_Some_range _ _ _ Hlf) as Hrl.
  pose proof Hok as [Hlen Hpos Hch Hperm Hcnt].
  destruct s as [root ns cnt cap hd ic]. tree_red.
  unfold RemoveLeaf. wp_step. wp_step. tree_red_goal.
  destruct c as [|p c r|p l c]; cbn [wf_ctx ctx_id ctx_ids ctx_leaves] in *.
  1: { rewrite Hctx, Z.eqb_refl. wp_step.
       exists None, b2_nullNode. split; [|split; [|split]]; try assumption; try reflexivity.
       split; [|reflexivity]. exists fl. cbn [opt_ids app].
       eapply arena_ok_frame; [exact Hok|symmetry; exact Hpi|..]; tree_red; reflexivity. }
  all: destruct Hctx as ((nP & HnP & HpP & Hc1P & Hc2P) & Hsb & Hc).
  all: pose proof (arena_NoDup _ _ _ Hok) as HndA; rewrite <- Hpi in HndA.
  all: pose proof (wf_ctx_root _ _ _ _ Hc) as Hrt.
  all: assert (Hne : leaf <> root) by
         (apply NoDup_cons in Hnd as [Hnl _]; intros ->; apply Hnl; revert Hrt;
          rewrite !elem_of_cons, !elem_of_app; tauto).
  all: replace (leaf =? root) with false by (symmetry; apply Z.eqb_neq; exact Hne).
  all: destruct (wf_root _ _ _ Hsb) as (nS & HnS & HpS & HhS & _).
  all: pose proof (zget_Some_range _ _ _ HnP) as HrP.
  all: pose proof (zget_Some_range _ _ _ HnS) as HrS.
  all: wp_step; wp_step; wp_step; wp_step; rewrite HpP; wp_step; wp_step; rewrite Hc1P.
  1: rewrite Z.eqb_refl.
  2: replace (root_of l =? leaf) with false by (symmetry; apply Z.eqb_neq; ne_solve).
  all: wp_step; wp_step; rewrite ?Hc1P, ?Hc2P.
  all: assert (Hfuel' : (length (ctx_ids c) < fuel)%nat)
         by (apply Permutation_length in Hpi; rewrite <- Hpi in Hfuel;
             cbn [length] in Hfuel; rewrite length_app in Hfuel; lia).
  - eapply wp_mono.
    { eapply (RemoveLeaf_unlink_spec _ fl leaf _ p r c fuel); tree_red;
        [|exact Hlf|exact Hsb|exact Hc|exact Hfuel'].
      eapply arena_ok_frame; [exact Hok|symmetry; exact Hpi|..]; reflexivity. }
    intros [] s' (t' & Hok' & Hpl' & Hlf' & Hic').
    exists (Some t'), p. split; [exact Hok'|]. split; [|split; assumption].
    cbn [opt_leaves]. rewrite Hpl'. exact Hpl.
  - eapply wp_mono.
    { eapply (RemoveLeaf_unlink_spec _ fl leaf _ p l c fuel); tree_red;
        [|exact Hlf|exact Hsb|exact Hc|exact Hfuel'].
      eapply arena_ok_frame; [exact Hok|symmetry; exact Hpi|..]; reflexivity. }
    intros [] s' (t' & Hok' & Hpl' & Hlf' & Hic').
    exists (Some t'), p. split; [exact Hok'|]. split; [|split; assumption].
    cbn [opt_leaves]. rewrite Hpl'. exact Hpl.
Qed.

Lemma NoDup_root t (l : list Z) : NoDup (ids t ++ l) -> NoDup (root_of t :: l).
Proof.
  intros (H1 & H2 & H3)%NoDup_app. apply NoDup_cons.
  split; [intros Hin; exact (H2 _ (root_in_ids t) Hin)|exact H3].
Qed.

Lemma InsertLeaf_link_spec s fl leaf box data mv p0 np nN ts c fuel :
  arena_ok s fl (np :: leaf :: ids ts ++ ctx_ids c) ->
  zget (m_nodes s) np = Some nN ->
  zget (m_nodes s) leaf = Some (mkNode box data p0 b2_nullNode b2_nullNode 0 mv) ->
  wf (m_nodes s) (ctx_id c) ts -> wf_ctx (m_nodes s) (m_root s) c (root_of ts) ->
  (S (length (ctx_ids c)) < fuel)%nat ->
  wp (InsertLeaf_link fuel leaf box (root_of ts) (ctx_id c) np) s (fun _ s' =>
    exists t',
      tree_ok s' (Some t') [] /\
      leaves t' ≡ₚ (leaf, box, data, mv) :: leaves ts ++ ctx_leaves c /\
      m_nodeCapacity s' = m_nodeCapacity s /\
      m_insertionCount s' = m_insertionCount s).
Proof.
  intros Hok HnN Hlf Hts Hc Hfuel.
  pose proof (arena_NoDup _ _ _ Hok) as HndA.
  pose proof HndA as Hnd. apply NoDup_app in Hnd as (_ & _ & Hnd).
  pose proof Hok as [Hlen Hpos Hch Hperm Hcnt].
  destruct s as [root ns cnt cap hd ic]. tree_red.
  destruct (wf_root _ _ _ Hts) as (nS & HnS & HpS & HhS & _).
  pose proof (zget_Some_range _ _ _ HnS) as HrS.
  pose proof (zget_Some_range _ _ _ HnN) as HrN.
  pose proof (zget_Some_range _ _ _ Hlf) as HrL.
  unfold InsertLeaf_link.
  do 12 wp_step.
  pose proof Hc as Hc0.
  destruct c as [|g c r2|g l2 c]; cbn [wf_ctx ctx_id ctx_ids ctx_leaves] in *.
  1: replace (negb (b2_nullNode =? b2_nullNode)) with false by reflexivity.
  2,3: destruct Hc as ((nG & HnG & HpG & Hc1G & Hc2G) & Hw2 & Hc).
  2,3: pose proof (zget_Some_range _ _ _ HnG) as HrG.
  2,3: replace (negb (g =? b2_nullNode)) with true
         by (symmetry; apply negb_true_iff, Z.eqb_neq; unfold b2_nullNode; lia).
  2,3: wp_step; wp_step; wp_step; wp_step; rewrite Hc1G.
  2: rewrite Z.eqb_refl.
  3: replace (root_of l2 =? root_of ts) with false by (symmetry; apply Z.eqb_neq; ne_solve).
  all: wp_steps.
  1: eapply wp_mono;
       [apply (InsertLeaf_fix_spec Top fuel _ np ts (Lf leaf box data mv))|].
  5: eapply wp_mono;
       [apply (InsertLeaf_fix_spec (InL g c r2) fuel _ np ts (Lf leaf box data mv))|].
  9: eapply wp_mono;
       [apply (InsertLeaf_fix_spec (InR g l2 c) fuel _ np ts (Lf leaf box data mv))|].
  all: tree_red.
  (* the fuel *)
  1,5,9: try pose proof (ctx_depth_le c) as Hd; cbn [ctx_depth length] in *;
         rewrite ?length_app in Hfuel; lia.
  (* the lengths *)
  2,5,8: rewrite !length_upd; exact Hlen.
  (* the node above the sibling and the leaf *)
  1,3,5: unfold stale; tree_red_goal; split; [eexists; split; [zget_solve|node_red; auto]|].
  1,2,3: split;
    [eapply (wf_reparent ns _ _ np ts nS Hts);
       [eapply NoDup_sub; [exact Hnd|solve_submseteq]
       |exact HnS
       |zget_solve
       |intros j Hj Hne; tree_red_goal; rewrite !zget_upd_ne by zget_ne; reflexivity]|].
  1,2,3: split; [cbn [wf]; zget_solve|].
  1,2,3: split; [|cbn [ids ctx_ids]; nodup_perm Hnd].
  1: reflexivity.
  1: eapply (wf_ctx_rehole ns _ root _ (InL g c r2) (root_of ts) np Hc0);
       [apply NoDup_root; eapply NoDup_sub; [exact Hnd|cbn [ctx_ids]; solve_submseteq]
       |split; [reflexivity|exists nG; split; [exact HnG|zget_solve]]
       |cbn [ctx_ids ctx_id]; intros j Hj Hne; rewrite !zget_upd_ne by zget_ne; reflexivity].
  1: eapply (wf_ctx_rehole ns _ root _ (InR g l2 c) (root_of ts) np Hc0);
       [apply NoDup_root; eapply NoDup_sub; [exact Hnd|cbn [ctx_ids]; solve_submseteq]
       |split; [reflexivity|exists nG; split; [exact HnG|zget_solve]]
       |cbn [ctx_ids ctx_id]; intros j Hj Hne; rewrite !zget_upd_ne by zget_ne; reflexivity].
  all: intros [] s' (t' & Hwt & Hrt & Hpi' & Hpl' & Hfr' & Hl' & Hcnt' & Hcap' & Hfl' & Hic');
       tree_red; cbn [ids leaves ctx_ids ctx_leaves] in *.
  all: exists t'; split; [|split; [rewrite Hpl'; solve_Permutation|split; assumption]].
  all: split; [|split; assumption]; exists fl; cbn [app opt_ids].
  all: eapply arena_ok_frame; [exact Hok|rewrite Hpi'; solve_Permutation|..]; tree_red;
       rewrite ?Hl', ?length_upd; try assumption; try reflexivity.
  all: intros j Hj; rewrite Hfr' by notin_solve; rewrite !zget_upd_ne by zget_ne; reflexivity.
Qed.
Lemma InsertLeaf_spec s ot leaf box data mv p0 fuel :
  tree_ok s ot [leaf] ->
  zget (m_nodes s) leaf = Some (mkNode box data p0 b2_nullNode b2_nullNode 0 mv) ->
  (S (length (opt_ids ot)) < fuel)%nat ->
  wp (InsertLeaf fuel leaf) s (fun _ s' =>
    exists t',
      tree_ok s' (Some t') [] /\
      leaves t' ≡ₚ (leaf, box, data, mv) :: opt_leaves ot /\
      m_nodeCapacity s <= m_nodeCapacity s' /\
      m_insertionCount s' = m_insertionCount s + 1).
Proof.
  intros ((fl & Hok) & Hrt) Hlf Hfuel. cbn [app] in Hok.
  pose proof (arena_NoDup _ _ _ Hok) as HndA.
  pose proof HndA as Hnd. apply NoDup_app in Hnd as (_ & _ & Hnd).
  pose proof (zget_Some_range _ _ _ Hlf) as HrL.
  destruct s as [root ns cnt cap hd ic]. tree_red.
  unfold InsertLeaf. wp_step. wp_step. wp_step. wp_step. tree_red_goal.
  match goal with
  | |- wp _ ?s0 _ =>
      assert (Hok' : arena_ok s0 fl (leaf :: opt_ids ot))
        by (eapply arena_ok_frame; [exact Hok|reflexivity|..]; reflexivity)
  end.
  destruct ot as [t|]; cbn [opt_ids opt_leaves] in *.
  - destruct Hrt as [Hrt Hw].
    destruct (wf_root _ _ _ Hw) as (nR & HnR & _).
    pose proof (zget_Some_range _ _ _ HnR) as HrR.
    replace (root =? b2_nullNode) with false
      by (symmetry; apply Z.eqb_neq; unfold b2_nullNode; lia).
    subst root. wp_step. wp_step. wp_step.
    eapply wp_mono.
    { apply (InsertLeaf_sibling_spec box _ t fuel Top); tree_red.
      - pose proof (theight_lt_ids t). lia.
      - exact Hw.
      - reflexivity. }
    intros sib s1 (-> & c & ts & -> & Hts & Hc & Hpi & Hpl). tree_red.
    cbn [ctx_ids ctx_leaves] in Hpi, Hpl. rewrite app_nil_r in Hpi, Hpl.
    destruct (wf_root _ _ _ Hts) as (nS & HnS & HpS & _).
    wp_step. wp_step. rewrite HpS. wp_step.
    eapply wp_mono.
    { eapply AllocateNode_spec. exact Hok'. }
    intros np s1 (fl' & nN & Hok1 & Hni & HnN & _ & Hfr1 & Hrt1 & Hic1 & Hcap1). tree_red.
    eapply wp_mono.
    { eapply (InsertLeaf_link_spec s1 fl' leaf box data mv p0 np nN ts c fuel).
      - eapply arena_ok_frame; [exact Hok1|rewrite Hpi; reflexivity|..]; reflexivity.
      - exact HnN.
      - rewrite Hfr1 by left. exact Hlf.
      - eapply wf_frame; [|exact Hts]. intros j Hj. apply Hfr1. right.
        rewrite <- Hpi. apply elem_of_app. left. exact Hj.
      - rewrite Hrt1. eapply wf_ctx_frame; [|exact Hc]. intros j Hj. apply Hfr1. right.
        rewrite <- Hpi. apply elem_of_app. right. exact Hj.
      - apply Permutation_length in Hpi. rewrite length_app in Hpi.
        pose proof (ids_nonempty ts). lia. }
    intros [] s' (t' & Hok2 & Hpl2 & Hcap2 & Hic2).
    exists t'. split; [exact Hok2|]. split; [rewrite Hpl2, <- Hpl; reflexivity|].
    split; [lia|congruence].
  - subst root. rewrite Z.eqb_refl. wp_steps.
    exists (Lf leaf box data mv). split; [|split; [reflexivity|split; [lia|reflexivity]]].
    split; [|split; [reflexivity|cbn [wf]; zget_solve]].
    exists fl. cbn [app opt_ids].
    eapply arena_ok_frame; [exact Hok|reflexivity|..]; tree_red;
      rewrite ?length_upd; try reflexivity.
    intros j Hj. rewrite zget_upd_ne by ne_solve. reflexivity.
Qed.
(** ** The proxy operations *)

Lemma ids_leaves_length t : (length (ids t) + 1 = 2 * length (leaves t))%nat.
Proof.
  induction t as [|i l IHl r IHr]; cbn [ids leaves length]; [reflexivity|].
  rewrite !length_app. lia.
Qed.

(** The node of a leaf of the tree. *)
Lemma wf_leaf ns t : forall p i box data mv,
  wf ns p t -> (i, box, data, mv) ∈ leaves t ->
  i ∈ ids t /\
  exists p', zget ns i = Some (mkNode box data p' b2_nullNode b2_nullNode 0 mv).
Proof.
  induction t as [j b d m|j l IHl r IHr]; intros p i box data mv; cbn [wf leaves ids].
  - intros Hw Hin. apply list_elem_of_singleton in Hin. injection Hin as -> -> -> ->.
    split; [left|]. exists p. exact Hw.
  - intros (_ & Hl & Hr) [Hin|Hin]%elem_of_app.
    + destruct (IHl _ _ _ _ _ Hl Hin) as [H1 H2]. split; [|exact H2].
      right. apply elem_of_app. left. exact H1.
    + destruct (IHr _ _ _ _ _ Hr Hin) as [H1 H2]. split; [|exact H2].
      right. apply elem_of_app. right. exact H1.
Qed.

Lemma CreateProxy_spec s ot box data fuel :
  tree_ok s ot [] -> (S (length (opt_ids ot)) < fuel)%nat ->
  wp (CreateProxy fuel box data) s (fun id s' =>
    exists t',
      tree_ok s' (Some t') [] /\
      leaves t' ≡ₚ (id, fattened box, data, true) :: opt_leaves ot /\
      (id ∉ opt_ids ot)).
Proof.
  intros ((fl & Hok) & Hrt) Hfuel. cbn [app] in Hok.
  unfold CreateProxy. wp_step.
  eapply wp_mono; [eapply AllocateNode_spec; exact Hok|].
  intros id s1 (fl' & n & Hok1 & Hni & Hn & Hfresh & Hfr1 & Hrt1 & Hic1 & Hcap1).
  pose proof (arena_NoDup _ _ _ Hok1) as HndA.
  pose proof (zget_Some_range _ _ _ Hn) as Hr.
  destruct s1 as [root1 ns1 cnt1 cap1 hd1 ic1]. tree_red.
  do 11 wp_step. node_red.
  eapply wp_mono.
  { eapply (InsertLeaf_spec _ ot id (fattened box) data true b2_nullNode fuel).
    - split.
      + exists fl'. cbn [app]. eapply arena_ok_frame; [exact Hok1|reflexivity|..]; tree_red;
          rewrite ?length_upd; try reflexivity.
        intros j Hj. rewrite !zget_upd_ne by ne_solve. reflexivity.
      + tree_red. destruct ot as [t|]; [|congruence].
        destruct Hrt as [Hrt Hw]. split; [congruence|].
        eapply wf_frame; [|exact Hw]. intros j Hj. cbn [opt_ids] in *.
        rewrite !zget_upd_ne by notin_ne. apply Hfr1, Hj.
    - tree_red. rewrite zget_upd_eq by (rewrite ?length_upd; lia).
      destruct n as [a u p c1 c2 h m]. destruct Hfresh as (Hp & Hc1 & Hc2 & Hh & Hu & Hm).
      cbn in Hp, Hc1, Hc2. subst. reflexivity.
    - exact Hfuel. }
  intros [] s' (t' & Hok' & Hpl' & _). wp_step.
  exists t'. split; [exact Hok'|]. split; [exact Hpl'|exact Hni].
Qed.
Lemma DestroyProxy_spec s t id box data mv fuel :
  tree_ok s (Some t) [] -> (id, box, data, mv) ∈ leaves t ->
  (length (ids t) < fuel)%nat ->
  wp (DestroyProxy fuel id) s (fun _ s' =>
    exists ot',
      tree_ok s' ot' [] /\ (id, box, data, mv) :: opt_leaves ot' ≡ₚ leaves t).
Proof.
  intros Hok Hin Hfuel. pose proof Hok as ((fl & Hok0) & Hrt & Hw).
  destruct (wf_leaf _ _ _ _ _ _ _ Hw Hin) as (Hid & p' & Hn).
  pose proof (zget_Some_range _ _ _ Hn) as Hr.
  pose proof (ar_len _ _ _ Hok0) as Hlen.
  unfold DestroyProxy. wp_step. wp_step. wp_step. wp_step. wp_step. wp_step.
  wp_step. wp_step. wp_step.
  eapply wp_mono; [eapply RemoveLeaf_spec; eassumption|].
  intros [] s1 (ot' & p1 & ((fl1 & Hok1) & Hrt1) & Hpl1 & Hn1 & _).
  eapply wp_mono.
  { eapply (FreeNode_spec s1 fl1 _ (opt_ids ot') id); [exact Hok1|reflexivity]. }
  intros [] s2 (Hok2 & Hfr2 & _ & Hrt2 & _).
  pose proof (arena_NoDup _ _ _ Hok1) as Hnd.
  exists ot'. split; [|exact Hpl1].
  split; [exists (id :: fl1); exact Hok2|].
  destruct ot' as [t'|]; [|congruence].
  destruct Hrt1 as [Hrt1 Hw1]. split; [congruence|].
  eapply wf_frame; [|exact Hw1]. intros j Hj. apply Hfr2. cbn [opt_ids app] in Hnd. clear Hid. ne_solve.
Qed.

(** Writing the moved flag of a leaf of the tree. *)
Lemma wf_set_moved ns t (v : bool) : forall p i box data mv n,
  wf ns p t -> NoDup (ids t) -> (i, box, data, mv) ∈ leaves t ->
  zget ns i = Some n ->
  exists t' rest,
    wf (upd ns i (with_moved v n)) p t' /\
    ids t' = ids t /\ root_of t' = root_of t /\ theight t' = theight t /\
    leaves t ≡ₚ (i, box, data, mv) :: rest /\
    leaves t' ≡ₚ (i, box, data, v) :: rest.
Proof.
  induction t as [j b d m|j l IHl r IHr]; intros p i box data mv n Hw Hnd Hin Hn.
  - cbn [leaves] in Hin. apply list_elem_of_singleton in Hin. injection Hin as -> -> -> ->.
    cbn [wf] in Hw. rewrite Hw in Hn. injection Hn as <-.
    exists (Lf j b d v), []. cbn [wf ids root_of theight leaves].
    split; [|repeat split; reflexivity].
    rewrite zget_upd_eq by (eapply zget_Some_range, Hw). reflexivity.
  - cbn [wf ids leaves] in *. apply NoDup_cons in Hnd as [Hj Hnd].
    pose proof Hnd as (Hndl & Hdis & Hndr)%NoDup_app.
    destruct Hw as ((nj & nl & nr & Hnj & Hnl & Hnr & Hp & Hc1 & Hc2 & Hh & Ha) & Hl & Hr).
    pose proof (zget_Some_range _ _ _ Hn) as Hri.
    apply elem_of_app in Hin as [Hin|Hin].
    + destruct (wf_leaf _ _ _ _ _ _ _ Hl Hin) as [Hil _].
      destruct (IHl _ _ _ _ _ n Hl Hndl Hin Hn) as (l' & rest & Hwl' & Hids & Hrl & Hth & Hp1 & Hp2).
      assert (Hij : i <> j) by (intros ->; apply Hj, elem_of_app; left; exact Hil).
      assert (Hir : forall k, k ∈ ids r -> i <> k) by (intros k Hk ->; exact (Hdis _ Hil Hk)).
      exists (Nd j l' r), (rest ++ leaves r). cbn [wf ids root_of theight leaves].
      rewrite Hids, Hrl, Hth.
      split; [|split; [reflexivity|split; [reflexivity|split; [reflexivity|split]]]].
      * split; [|split; [exact Hwl'|]].
        -- destruct (wf_root _ _ _ Hwl') as (nl' & Hnl' & _). rewrite Hrl in Hnl'.
           exists nj, nl', nr. rewrite (zget_upd_ne _ i j) by exact Hij.
           rewrite (zget_upd_ne _ i (root_of r)) by (apply Hir, root_in_ids).
           repeat split; try assumption.
           destruct (decide (i = root_of l)) as [->|Hne].
           ++ rewrite Hnl in Hn. injection Hn as <-.
              rewrite zget_upd_eq in Hnl' by exact Hri. injection Hnl' as <-. exact Ha.
           ++ rewrite zget_upd_ne in Hnl' by exact Hne. rewrite Hnl in Hnl'.
              injection Hnl' as <-. exact Ha.
        -- eapply wf_frame; [|exact Hr]. intros k Hk. apply zget_upd_ne, Hir, Hk.
      * rewrite Hp1. reflexivity.
      * rewrite Hp2. reflexivity.
    + destruct (wf_leaf _ _ _ _ _ _ _ Hr Hin) as [Hir _].
      destruct (IHr _ _ _ _ _ n Hr Hndr Hin Hn) as (r' & rest & Hwr' & Hids & Hrr & Hth & Hp1 & Hp2).
      assert (Hij : i <> j) by (intros ->; apply Hj, elem_of_app; right; exact Hir).
      assert (Hil : forall k, k ∈ ids l -> i <> k) by (intros k Hk ->; exact (Hdis _ Hk Hir)).
      exists (Nd j l r'), (rest ++ leaves l). cbn [wf ids root_of theight leaves].
      rewrite Hids, Hrr, Hth.
      split; [|split; [reflexivity|split; [reflexivity|split; [reflexivity|split]]]].
      * split; [|split; [|exact Hwr']].
        -- destruct (wf_root _ _ _ Hwr') as (nr' & Hnr' & _). rewrite Hrr in Hnr'.
           exists nj, nl, nr'. rewrite (zget_upd_ne _ i j) by exact Hij.
           rewrite (zget_upd_ne _ i (root_of l)) by (apply Hil, root_in_ids).
           repeat split; try assumption.
           destruct (decide (i = root_of r)) as [->|Hne].
           ++ rewrite Hnr in Hn. injection Hn as <-.
              rewrite zget_upd_eq in Hnr' by exact Hri. injection Hnr' as <-. exact Ha.
           ++ rewrite zget_upd_ne in Hnr' by exact Hne. rewrite Hnr in Hnr'.
              injection Hnr' as <-. exact Ha.
        -- eapply wf_frame; [|exact Hl]. intros k Hk. apply zget_upd_ne, Hil, Hk.
      * rewrite Hp1. solve_Permutation.
      * rewrite Hp2. solve_Permutation.
Qed.
Lemma MoveProxy_spec s t id box0 data mv fuel box d :
  tree_ok s (Some t) [] -> (id, box0, data, mv) ∈ leaves t ->
  (S (length (ids t)) < fuel)%nat ->
  wp (MoveProxy fuel id box d) s (fun r s' =>
    if Contains box0 box && Contains (hugeAABB_of (predicted_fatAABB box d)) box0
    then r = false /\ s' = s
    else r = true /\ exists t' rest,
           tree_ok s' (Some t') [] /\
           leaves t ≡ₚ (id, box0, data, mv) :: rest /\
           leaves t' ≡ₚ (id, predicted_fatAABB box d, data, true) :: rest).
Proof.
  intros Hok Hin Hfuel. pose proof Hok as ((fl & Hok0) & Hrt & Hw).
  destruct (wf_leaf _ _ _ _ _ _ _ Hw Hin) as (Hid & p' & Hn).
  pose proof (zget_Some_range _ _ _ Hn) as Hr.
  pose proof (ar_len _ _ _ Hok0) as Hlen.
  assert (Hre : wp (RemoveLeaf fuel id >>
                    store (with_aabb (predicted_fatAABB box d)) id >>
                    InsertLeaf fuel id >>
                    store (with_moved true) id >>
                    ret true) s (fun r s' =>
            r = true /\ exists t' rest,
              tree_ok s' (Some t') [] /\
              leaves t ≡ₚ (id, box0, data, mv) :: rest /\
              leaves t' ≡ₚ (id, predicted_fatAABB box d, data, true) :: rest)).
  { clear Hid. wp_step.
    eapply wp_mono; [eapply (RemoveLeaf_spec s t id box0 data mv fuel); [exact Hok|exact Hin|lia]|].
    intros [] s1 (ot' & p1 & ((fl1 & Hok1) & Hrt1) & Hpl1 & Hn1 & _).
    pose proof (arena_NoDup _ _ _ Hok1) as Hnd1. cbn [app] in Hnd1, Hok1.
    pose proof (zget_Some_range _ _ _ Hn1) as Hr1.
    destruct s1 as [root1 ns1 cnt1 cap1 hd1 ic1]. tree_red.
    wp_step. wp_step. wp_step.
    eapply wp_mono.
    { eapply (InsertLeaf_spec _ ot' id (predicted_fatAABB box d) data mv p1 fuel).
      - split.
        + exists fl1. cbn [app]. eapply arena_ok_frame; [exact Hok1|reflexivity|..]; tree_red;
            rewrite ?length_upd; try reflexivity.
          intros j Hj. rewrite zget_upd_ne by ne_solve. reflexivity.
        + tree_red. destruct ot' as [t'|]; [|exact Hrt1].
          destruct Hrt1 as [Hrt1 Hw1]. split; [exact Hrt1|].
          eapply wf_frame; [|exact Hw1]. intros j Hj. cbn [opt_ids] in *.
          rewrite zget_upd_ne by ne_solve. reflexivity.
      - tree_red. rewrite zget_upd_eq by lia. reflexivity.
      - apply Permutation_length in Hpl1. cbn [length] in Hpl1.
        pose proof (ids_leaves_length t).
        destruct ot' as [t'|]; cbn [opt_ids opt_leaves length] in *; [|lia].
        pose proof (ids_leaves_length t'). lia. }
    intros [] s3 (t3 & Hok3 & Hpl3 & _).
    pose proof Hok3 as ((fl3 & Hok3') & Hrt3 & Hw3). cbn [app opt_ids] in Hok3'.
    pose proof (arena_NoDup _ _ _ Hok3') as Hnd3.
    pose proof Hnd3 as (_ & _ & Hnd3')%NoDup_app.
    assert (Hin3 : (id, predicted_fatAABB box d, data, mv) ∈ leaves t3)
      by (rewrite Hpl3; left).
    destruct (wf_leaf _ _ _ _ _ _ _ Hw3 Hin3) as (Hid3 & p3 & Hn3).
    pose proof (zget_Some_range _ _ _ Hn3) as Hr3.
    destruct (wf_set_moved _ _ true _ _ _ _ _ _ Hw3 Hnd3' Hin3 Hn3)
      as (t4 & rest & Hw4 & Hids4 & Hrt4 & _ & Hp3 & Hp4).
    destruct s3 as [root3 ns3 cnt3 cap3 hd3 ic3]. tree_red.
    wp_step. wp_step. wp_step. split; [reflexivity|].
    assert (Hrest : rest ≡ₚ opt_leaves ot').
    { rewrite Hpl3 in Hp3. symmetry. eapply Permutation_cons_inv. exact Hp3. }
    exists t4, rest. split; [|split].
    - split; [|split; [tree_red_goal; congruence|exact Hw4]].
      exists fl3. cbn [app opt_ids]. rewrite Hids4.
      eapply arena_ok_frame; [exact Hok3'|reflexivity|..]; tree_red;
        rewrite ?length_upd; try reflexivity.
      intros j Hj. rewrite zget_upd_ne by ne_solve. reflexivity.
    - rewrite Hrest. symmetry. exact Hpl1.
    - exact Hp4. }
  unfold MoveProxy. do 8 wp_step. cbv zeta. wp_step. wp_step. node_red.
  destruct (Contains box0 box); cbn [andb]; [|exact Hre].
  destruct (Contains (hugeAABB_of (predicted_fatAABB box d)) box0); [|exact Hre].
  wp_step. split; reflexivity.
Qed.
(** ** More fuel does not change a result *)

Lemma bind_Some_mono {St A B} (m : M St A) (k k' : A -> M St B) s r :
  (forall a s1, k a s1 = Some r -> k' a s1 = Some r) ->
  bind m k s = Some r -> bind m k' s = Some r.
Proof. unfold bind. destruct (m s) as [[a s1]|]; [auto|discriminate]. Qed.

Lemma bind_Some_mono2 {St A B} (m m' : M St A) (k k' : A -> M St B) s r :
  (forall x, m s = Some x -> m' s = Some x) ->
  (forall a s1, k a s1 = Some r -> k' a s1 = Some r) ->
  bind m k s = Some r -> bind m' k' s = Some r.
Proof.
  intros Hm Hk. unfold bind. destruct (m s) as [[a s1]|]; [|discriminate].
  rewrite (Hm _ eq_refl). apply Hk.
Qed.

Ltac mono_with tac :=
  repeat first
    [ exact (fun H => H)
    | tac
    | apply bind_Some_mono; intros ? ?; cbv beta
    | apply bind_Some_mono2; [intros ?; tac|intros ? ?; cbv beta]
    | match goal with
      | |- (if ?b then _ else _) _ = _ -> _ => destruct b
      end ].

Lemma InsertLeaf_sibling_mono box : forall fuel fuel' index s r,
  (fuel <= fuel')%nat ->
  InsertLeaf_sibling fuel box index s = Some r ->
  InsertLeaf_sibling fuel' box index s = Some r.
Proof.
  induction fuel as [|fuel IH]; intros fuel' index s r Hle; [discriminate|].
  destruct fuel' as [|fuel']; [lia|]. cbn [InsertLeaf_sibling].
  mono_with ltac:(apply IH; lia).
Qed.

Lemma InsertLeaf_fix_mono : forall fuel fuel' index s r,
  (fuel <= fuel')%nat ->
  InsertLeaf_fix fuel index s = Some r -> InsertLeaf_fix fuel' index s = Some r.
Proof.
  induction fuel as [|fuel IH]; intros fuel' index s r Hle.
  - destruct fuel'; cbn [InsertLeaf_fix]; destruct (index =? b2_nullNode);
      first [exact (fun H => H)|discriminate].
  - destruct fuel' as [|fuel']; [lia|]. cbn [InsertLeaf_fix].
    mono_with ltac:(apply IH; lia).
Qed.

Lemma RemoveLeaf_fix_mono : forall fuel fuel' index s r,
  (fuel <= fuel')%nat ->
  RemoveLeaf_fix fuel index s = Some r -> RemoveLeaf_fix fuel' index s = Some r.
Proof.
  induction fuel as [|fuel IH]; intros fuel' index s r Hle.
  - destruct fuel'; cbn [RemoveLeaf_fix]; destruct (index =? b2_nullNode);
      first [exact (fun H => H)|discriminate].
  - destruct fuel' as [|fuel']; [lia|]. cbn [RemoveLeaf_fix].
    mono_with ltac:(apply IH; lia).
Qed.

Ltac mono_leaf Hle :=
  mono_with ltac:(first [ apply InsertLeaf_sibling_mono; exact Hle
                        | apply InsertLeaf_fix_mono; exact Hle
                        | apply RemoveLeaf_fix_mono; exact Hle ]).

Lemma InsertLeaf_mono fuel fuel' leaf s r :
  (fuel <= fuel')%nat ->
  InsertLeaf fuel leaf s = Some r -> InsertLeaf fuel' leaf s = Some r.
Proof. intros Hle. unfold InsertLeaf. mono_leaf Hle. Qed.

Lemma RemoveLeaf_mono fuel fuel' leaf s r :
  (fuel <= fuel')%nat ->
  RemoveLeaf fuel leaf s = Some r -> RemoveLeaf fuel' leaf s = Some r.
Proof. intros Hle. unfold RemoveLeaf. mono_leaf Hle. Qed.

Ltac mono_proxy Hle :=
  mono_with ltac:(first [ apply InsertLeaf_mono; exact Hle
                        | apply RemoveLeaf_mono; exact Hle ]).

Lemma CreateProxy_mono fuel fuel' box data s r :
  (fuel <= fuel')%nat ->
  CreateProxy fuel box data s = Some r -> CreateProxy fuel' box data s = Some r.
Proof. intros Hle. unfold CreateProxy. mono_proxy Hle. Qed.

Lemma DestroyProxy_mono fuel fuel' proxyId s r :
  (fuel <= fuel')%nat ->
  DestroyProxy fuel proxyId s = Some r -> DestroyProxy fuel' proxyId s = Some r.
Proof. intros Hle. unfold DestroyProxy. mono_proxy Hle. Qed.

Lemma MoveProxy_mono fuel fuel' proxyId box d s r :
  (fuel <= fuel')%nat ->
  MoveProxy fuel proxyId box d s = Some r -> MoveProxy fuel' proxyId box d s = Some r.
Proof. intros Hle. unfold MoveProxy. cbv zeta. mono_proxy Hle. Qed.

(** The result of a run, from what holds of the run with more fuel. *)
Lemma wp_result {St A} (m : M St A) s (Q : A -> St -> Prop) a s' :
  wp m s Q -> m s = Some (a, s') -> Q a s'.
Proof. intros (a0 & s0 & H & HQ) E. rewrite H in E. injection E as <- <-. exact HQ. Qed.
(** ** Sequences of proxy operations *)

Lemma free_list_chain ns : forall fuel h fl,
  free_chain ns h fl -> (length fl <= fuel)%nat -> free_list_from fuel ns h = fl.
Proof.
  induction fuel as [|fuel IH]; intros h fl Hch Hl.
  - destruct fl; [reflexivity|cbn in Hl; lia].
  - destruct fl as [|i fl]; cbn [free_chain free_list_from] in *.
    + subst h. reflexivity.
    + destruct Hch as (-> & n & Hn & _ & Hch).
      pose proof (zget_Some_range _ _ _ Hn).
      replace (i =? b2_nullNode) with false
        by (symmetry; apply Z.eqb_neq; unfold b2_nullNode; lia).
      rewrite Hn. f_equal. apply IH; [exact Hch|cbn in Hl; lia].
Qed.

Lemma arena_free_list s fl live : arena_ok s fl live -> free_list s = fl.
Proof.
  intros Hok. apply free_list_chain; [apply Hok|].
  pose proof (arena_total _ _ _ Hok). pose proof (ar_len _ _ _ Hok).
  pose proof (ar_count _ _ _ Hok). lia.
Qed.

Lemma fle_refl a : fle a a = true.
Proof. apply fle_true. apply Qle_refl. Qed.

Lemma b2MinF_le a b : (b2MinF a b <= a)%Q /\ (b2MinF a b <= b)%Q.
Proof.
  unfold b2MinF. destruct (flt a b) eqn:E.
  - apply flt_true in E. split; [apply Qle_refl|apply Qlt_le_weak, E].
  - apply flt_false in E. split; [exact E|apply Qle_refl].
Qed.

Lemma b2MinF_glb a b c : (c <= a)%Q -> (c <= b)%Q -> (c <= b2MinF a b)%Q.
Proof. unfold b2MinF. destruct (flt a b); auto. Qed.

Lemma b2MaxF_ge a b : (a <= b2MaxF a b)%Q /\ (b <= b2MaxF a b)%Q.
Proof.
  unfold b2MaxF. destruct (flt b a) eqn:E.
  - apply flt_true in E. split; [apply Qle_refl|apply Qlt_le_weak, E].
  - apply flt_false in E. split; [exact E|apply Qle_refl].
Qed.

Lemma b2MaxF_lub a b c : (a <= c)%Q -> (b <= c)%Q -> (b2MaxF a b <= c)%Q.
Proof. unfold b2MaxF. destruct (flt b a); auto. Qed.

Lemma Contains_true a b :
  Contains a b = true <->
  (x (lowerBound a) <= x (lowerBound b))%Q /\ (y (lowerBound a) <= y (lowerBound b))%Q /\
  (x (upperBound b) <= x (upperBound a))%Q /\ (y (upperBound b) <= y (upperBound a))%Q.
Proof.
  unfold Contains. cbv zeta. cbn [andb]. rewrite !andb_true_iff, !fle_true. tauto.
Qed.

Lemma Contains_Combine a b c :
  c = Combine a b \/ c = Combine b a -> Contains c (Combine a b) = true.
Proof.
  intros [->| ->]; apply Contains_true; cbn [Combine lowerBound upperBound vmin vmax x y];
    repeat split;
    first [ apply Qle_refl
          | apply b2MinF_glb; apply b2MinF_le
          | apply b2MaxF_lub; apply b2MaxF_ge ].
Qed.

(** Every node of the tree satisfies the invariant. *)
Lemma wf_node_inv ns t : forall p j,
  wf ns p t -> j ∈ ids t -> exists n, zget ns j = Some n /\ node_inv ns n.
Proof.
  induction t as [i b d m|i l IHl r IHr]; intros p j; cbn [wf ids].
  - intros Hw ->%list_elem_of_singleton. eexists. split; [exact Hw|]. reflexivity.
  - intros ((n & nl & nr & Hn & Hnl & Hnr & Hp & Hc1 & Hc2 & Hh & Ha) & Hl & Hr) Hj.
    apply elem_of_cons in Hj as [->|Hj].
    + exists n. split; [exact Hn|]. unfold node_inv.
      pose proof (zget_Some_range _ _ _ Hnl).
      replace (IsLeaf n) with false
        by (symmetry; unfold IsLeaf; apply Z.eqb_neq; unfold b2_nullNode; lia).
      exists nl, nr. rewrite Hc1, Hc2. split; [exact Hnl|]. split; [exact Hnr|].
      split; [apply Contains_Combine, Ha|].
      destruct (wf_root _ _ _ Hl) as (nl' & Hnl' & _ & Hhl & _).
      destruct (wf_root _ _ _ Hr) as (nr' & Hnr' & _ & Hhr & _).
      rewrite Hnl in Hnl'. rewrite Hnr in Hnr'. injection Hnl' as <-. injection Hnr' as <-.
      rewrite Hh, Hhl, Hhr. reflexivity.
    + apply elem_of_app in Hj as [Hj|Hj]; [eapply IHl|eapply IHr]; eassumption.
Qed.

Lemma tree_ok_nodes_inv s ot : tree_ok s ot [] -> nodes_inv s.
Proof.
  intros ((fl & Hok) & Hrt) j n Hn Hj. cbn [app] in Hok.
  rewrite (arena_free_list _ _ _ Hok) in Hj.
  pose proof (zget_Some_range _ _ _ Hn) as Hr.
  assert (Hin : j ∈ fl ++ opt_ids ot).
  { rewrite (ar_perm _ _ _ Hok). apply elem_of_seqZ.
    pose proof (ar_len _ _ _ Hok). lia. }
  apply elem_of_app in Hin as [Hin|Hin]; [contradiction|].
  destruct ot as [t|]; [|inversion Hin].
  destruct Hrt as [_ Hw]. destruct (wf_node_inv _ _ _ _ Hw Hin) as (n' & Hn' & Hinv).
  rewrite Hn in Hn'. injection Hn' as <-. exact Hinv.
Qed.

Lemma tree_ok_new : tree_ok b2DynamicTree_new None [].
Proof. split; [exists (seqZ 0 16); apply b2DynamicTree_new_ok|reflexivity]. Qed.

Lemma leaf_ids_NoDup t : NoDup (ids t) -> NoDup (leaf_id <$> leaves t).
Proof.
  induction t as [i b d m|i l IHl r IHr]; cbn [ids leaves].
  - intros _. cbn. apply NoDup_singleton.
  - intros [_ (Hl & Hd & Hr)%NoDup_app]%NoDup_cons. rewrite fmap_app.
    apply NoDup_app. split; [auto|split; [|auto]].
    intros k [[[[k1 b1] d1] m1] [-> H1]]%list_elem_of_fmap
             [[[[k2 b2] d2] m2] [E H2]]%list_elem_of_fmap.
    cbn in E. subst k2.
    assert (Hin1 : k1 ∈ ids l).
    { clear -H1. induction l; cbn [leaves ids] in *.
      - apply list_elem_of_singleton in H1. injection H1 as -> _ _ _. left.
      - right. apply elem_of_app. apply elem_of_app in H1 as [H1|H1]; auto. }
    assert (Hin2 : k1 ∈ ids r).
    { clear -H2. induction r; cbn [leaves ids] in *.
      - apply list_elem_of_singleton in H2. injection H2 as -> _ _ _. left.
      - right. apply elem_of_app. apply elem_of_app in H2 as [H2|H2]; auto. }
    exact (Hd _ Hin1 Hin2).
Qed.

(** The states of a sequence of proxy operations hold a tree whose leaves
    are the proxies that exist. *)
Lemma proxy_trace_ok live s :
  proxy_trace live s ->
  exists ot, tree_ok s ot [] /\ leaf_id <$> opt_leaves ot ≡ₚ live.
Proof.
  induction 1 as [|live s fuel box data id s' _ (ot & Hok & Hlive) Hrun
                  |live live' s fuel id s' _ (ot & Hok & Hlive) Hperm Hrun
                  |live s fuel id box d r s' _ (ot & Hok & Hlive) Hin Hrun].
  - exists None. split; [apply tree_ok_new|reflexivity].
  - set (N := Nat.max fuel (length (opt_ids ot) + 2)).
    apply (CreateProxy_mono fuel N) in Hrun; [|lia].
    destruct (wp_result _ _ _ _ _ (CreateProxy_spec s ot box data N Hok ltac:(lia)) Hrun)
      as (t' & Hok' & Hpl & _).
    exists (Some t'). split; [exact Hok'|]. cbn [opt_leaves]. rewrite Hpl.
    cbn [fmap list_fmap leaf_id fst]. rewrite Hlive. reflexivity.
  - assert (Hid : id ∈ leaf_id <$> opt_leaves ot) by (rewrite Hlive, Hperm; left).
    apply list_elem_of_fmap in Hid as ([[[k b] dt] m] & E & Hin). cbn in E. subst k.
    destruct ot as [t|]; [|inversion Hin]. cbn [opt_leaves] in *.
    set (N := Nat.max fuel (length (ids t) + 1)).
    apply (DestroyProxy_mono fuel N) in Hrun; [|lia].
    destruct (wp_result _ _ _ _ _ (DestroyProxy_spec s t id b dt m N Hok Hin ltac:(lia)) Hrun)
      as (ot' & Hok' & Hpl).
    exists ot'. split; [exact Hok'|].
    rewrite <- Hpl in Hlive. cbn [fmap list_fmap leaf_id fst] in Hlive.
    rewrite Hperm in Hlive. eapply Permutation_cons_inv. exact Hlive.
  - assert (Hid : id ∈ leaf_id <$> opt_leaves ot) by (rewrite Hlive; exact Hin).
    apply list_elem_of_fmap in Hid as ([[[k b] dt] m] & E & Hin'). cbn in E. subst k.
    destruct ot as [t|]; [|inversion Hin']. cbn [opt_leaves] in *.
    set (N := Nat.max fuel (length (ids t) + 2)).
    apply (MoveProxy_mono fuel N) in Hrun; [|lia].
    pose proof (wp_result _ _ _ _ _ (MoveProxy_spec s t id b dt m N box d Hok Hin' ltac:(lia)) Hrun)
      as Hpost. cbv beta in Hpost.
    destruct (Contains b box && Contains (hugeAABB_of (predicted_fatAABB box d)) b).
    + destruct Hpost as [_ ->]. exists (Some t). split; [exact Hok|exact Hlive].
    + destruct Hpost as (_ & t' & rest & Hok' & Hp1 & Hp2).
      exists (Some t'). split; [exact Hok'|]. cbn [opt_leaves].
      rewrite Hp2. rewrite Hp1 in Hlive. exact Hlive.
Qed.
(** ** The broad-phase *)

Lemma on_tree_run {A} (op : M b2DynamicTree A) b a t :
  op (m_tree b) = Some (a, t) -> on_tree op b = Some (a, with_tree t b).
Proof. unfold on_tree. intros ->. reflexivity. Qed.

Lemma with_tree_same b : with_tree (m_tree b) b = b.
Proof. destruct b. reflexivity. Qed.

Lemma on_tree_Some {A} (op : M b2DynamicTree A) b a b' :
  on_tree op b = Some (a, b') <->
  exists t, op (m_tree b) = Some (a, t) /\ b' = with_tree t b.
Proof.
  unfold on_tree. destruct (op (m_tree b)) as [[a' t]|]; split.
  - intros [= <- <-]. eauto.
  - intros (t' & [= <- <-] & ->). reflexivity.
  - discriminate.
  - intros (t' & [=] & _).
Qed.

Lemma take_app_replicate_insert {A} (l : list A) (n k : nat) (d v : A) :
  (n <= length l)%nat -> (0 < k)%nat ->
  take (S n) (<[n := v]> (take n l ++ replicate k d)) = take n l ++ [v].
Proof.
  intros Hn Hk. destruct k as [|k]; [lia|]. cbn [replicate].
  rewrite insert_app_r_alt by (rewrite length_take; lia).
  rewrite length_take, Nat.min_l, Nat.sub_diag by lia. cbn [list_insert].
  rewrite take_app_ge by (rewrite length_take; lia).
  rewrite length_take, Nat.min_l by lia.
  replace (S n - n)%nat with 1%nat by lia. reflexivity.
Qed.

Lemma take_S_insert {A} (l : list A) (n : nat) (v : A) :
  (n < length l)%nat -> take (S n) (<[n := v]> l) = take n l ++ [v].
Proof.
  intros Hn. rewrite <- (take_drop n l) at 1.
  destruct (drop n l) as [|d rest] eqn:Hd.
  { apply (f_equal length) in Hd. rewrite length_drop in Hd. cbn in Hd. lia. }
  rewrite insert_app_r_alt by (rewrite length_take; lia).
  rewrite length_take, Nat.min_l, Nat.sub_diag by lia. cbn [list_insert].
  rewrite take_app_ge by (rewrite length_take; lia).
  rewrite length_take, Nat.min_l by lia.
  replace (S n - n)%nat with 1%nat by lia. reflexivity.
Qed.

(** C1.  One call of [QueryCallback(proxyId)] while [q = m_queryProxyId] is
    the proxy driving the query.  (1) [proxyId = q]: nothing is recorded,
    the answer is [true].  (2) The tree reports [proxyId] as moved and
    [proxyId > q]: nothing is recorded, the answer is [true].  (3) Otherwise
    exactly the pair [(min proxyId q, max proxyId q)] is appended to the
    recorded pairs, the answer is [true], and a full buffer has first grown
    to one and a half times its capacity ([c + c / 2]); nothing else of the
    broad-phase changes. *)
Theorem QueryCallback_cases :
  forall (b : b2BroadPhase) (proxyId : Z),
    let q := m_queryProxyId b in
    (proxyId = q -> QueryCallback proxyId b = Some (true, b)) /\
    (forall mv : bool,
       proxyId <> q ->
       WasMoved proxyId (m_tree b) = Some (mv, m_tree b) ->
       (mv = true /\ proxyId > q -> QueryCallback proxyId b = Some (true, b)) /\
       (~ (mv = true /\ proxyId > q) -> pair_buffer_ok b ->
        exists b',
          QueryCallback proxyId b = Some (true, b') /\
          pairs b' = pairs b ++ [mkPair (Z.min proxyId q) (Z.max proxyId q)] /\
          m_pairCount b' = m_pairCount b + 1 /\
          m_pairCapacity b' =
            (if m_pairCount b =? m_pairCapacity b
             then m_pairCapacity b + m_pairCapacity b / 2
             else m_pairCapacity b) /\
          pair_buffer_ok b' /\
          m_tree b' = m_tree b /\ m_proxyCount b' = m_proxyCount b /\
          m_moveBuffer b' = m_moveBuffer b /\ m_moveCapacity b' = m_moveCapacity b /\
          m_moveCount b' = m_moveCount b /\ m_queryProxyId b' = q)).
Proof.
  intros b proxyId q. split.
  - intros ->. unfold QueryCallback, bind, get, ret. subst q.
    rewrite Z.eqb_refl. reflexivity.
  - intros mv Hne Hmv.
    assert (Hq : (proxyId =? m_queryProxyId b) = false) by (apply Z.eqb_neq; exact Hne).
    assert (Hrun : on_tree (WasMoved proxyId) b = Some (mv, b)).
    { rewrite (on_tree_run _ _ _ _ Hmv). rewrite with_tree_same. reflexivity. }
    split.
    + intros [-> Hgt]. unfold QueryCallback, bind, get, ret. rewrite Hq, Hrun.
      replace (proxyId >? m_queryProxyId b) with true; [reflexivity|].
      symmetry. apply Z.gtb_lt. subst q. lia.
    + intros Hnot (Hlen & Hcnt & Hcap).
      assert (Hc : mv && (proxyId >? m_queryProxyId b) = false).
      { destruct mv; [|reflexivity]. cbn. rewrite Z.gtb_ltb. apply Z.ltb_ge.
        destruct (Z.le_gt_cases proxyId (m_queryProxyId b)); [assumption|].
        exfalso. apply Hnot. subst q. split; [reflexivity|lia]. }
      unfold QueryCallback, bind, get, ret. rewrite Hq, Hrun, Hc.
      destruct b as [tr pc mb mcap mcnt pb pcap pcnt qid].
      cbn [m_pairCount m_pairCapacity m_pairBuffer m_tree m_proxyCount m_moveBuffer
           m_moveCapacity m_moveCount m_queryProxyId] in *.
      unfold pairs, pair_buffer_ok.
      rewrite Z.shiftr_div_pow2 by lia. change (2 ^ 1) with 2.
      destruct (Z.eqb_spec pcnt pcap) as [->|Hfull].
      * pose proof (Z.div_pos pcap 2 ltac:(lia) ltac:(lia)) as Hd0.
        assert (1 <= pcap / 2) by (apply Z.div_le_lower_bound; lia).
        cbn -[Z.div Z.min Z.max b2Min b2Max zset].
        rewrite b2Min_spec, b2Max_spec. unfold zset.
        rewrite length_app, length_take, length_replicate.
        case_decide as Hr; [|exfalso; lia].
        eexists. split; [reflexivity|].
        cbn -[Z.div Z.min Z.max]. unfold upd. rewrite decide_True by lia.
        rewrite length_insert, length_app, length_take, length_replicate.
        replace (Z.to_nat (pcap + 1)) with (S (Z.to_nat pcap)) by lia.
        rewrite take_app_replicate_insert by lia.
        split; [reflexivity|]. repeat split; try reflexivity; try lia.
      * cbn -[Z.div Z.min Z.max b2Min b2Max zset].
        rewrite b2Min_spec, b2Max_spec. unfold zset.
        case_decide as Hr; [|exfalso; lia].
        eexists. split; [reflexivity|].
        cbn -[Z.div Z.min Z.max]. unfold upd. rewrite decide_True by lia.
        rewrite length_insert.
        replace (Z.to_nat (pcnt + 1)) with (S (Z.to_nat pcnt)) by lia.
        rewrite take_S_insert by lia.
        split; [reflexivity|]. repeat split; try reflexivity; try lia.
Qed.

(** Runs of the read-only accessors leave the broad-phase as it is. *)
Ltac inv_reads :=
  repeat match goal with
  | H : on_tree (WasMoved _) _ = Some _ |- _ =>
      apply on_tree_Some in H as (? & (-> & _)%WasMoved_Some & ->);
      rewrite ?with_tree_same in *
  | H : on_tree (GetFatAABB _) _ = Some _ |- _ =>
      apply on_tree_Some in H as (? & (-> & _)%GetFatAABB_Some & ->);
      rewrite ?with_tree_same in *
  | H : on_tree (GetUserData _) _ = Some _ |- _ =>
      apply on_tree_Some in H as (? & (-> & _)%GetUserData_Some & ->);
      rewrite ?with_tree_same in *
  end.

Lemma QueryCallback_same_moves b proxyId s r s' :
  same_moves b s -> QueryCallback proxyId s = Some (r, s') -> same_moves b s'.
Proof.
  intros (Ht & Hb & Hc). unfold QueryCallback. intros H. minv H.
  destruct (proxyId =? m_queryProxyId s).
  { minv_all H. repeat split; assumption. }
  minv H. inv_reads.
  destruct (a && (proxyId >? m_queryProxyId s)).
  { minv_all H. repeat split; assumption. }
  minv H.
  assert (Hs0 : same_moves b s0).
  { destruct (m_pairCount s =? m_pairCapacity s); minv_all Hrun;
      repeat split; assumption. }
  destruct (zset _ _ _); [|minv H]. minv_all H.
  destruct Hs0 as (? & ? & ?). repeat split; assumption.
Qed.

Lemma Query_loop_keeps {St} (P : St -> Prop) fuel (tree_of : St -> b2DynamicTree)
    (cb : Z -> M St bool) box stack s s' :
  (forall i s1 r s2, P s1 -> cb i s1 = Some (r, s2) -> P s2) ->
  P s -> Query_loop fuel tree_of cb box stack s = Some (tt, s') -> P s'.
Proof.
  intros Hcb. revert stack s.
  induction fuel as [|fuel IH]; intros stack s HP; destruct stack as [|nodeId stack]; cbn.
  - intros [= <-]. exact HP.
  - discriminate.
  - intros [= <-]. exact HP.
  - destruct (nodeId =? b2_nullNode); [apply IH, HP|].
    intros H. minv H.
    destruct (zget _ nodeId) as [n|]; [|discriminate].
    destruct (b2TestOverlap _ _); [|eapply IH; eassumption].
    destruct (IsLeaf n); [|eapply IH; eassumption].
    minv H. destruct a.
    + eapply IH; [|eassumption]. eapply Hcb; eassumption.
    + minv_all H. eapply Hcb; eassumption.
Qed.

Lemma ClearMoved_cleared t id r t' j n :
  ClearMoved id t = Some (r, t') ->
  zget (m_nodes t) j = Some n -> moved n = false \/ j = id ->
  exists n', zget (m_nodes t') j = Some n' /\ moved n' = false.
Proof.
  intros (m & Hm & ->)%ClearMoved_Some Hj Hor. unfold with_nodes. cbn [m_nodes].
  destruct (decide (id = j)) as [->|Hne].
  - rewrite zget_upd_eq by (eapply zget_Some_range, Hm). eexists. split; reflexivity.
  - rewrite zget_upd_ne by exact Hne. destruct Hor as [Hf|Hf]; [eauto|congruence].
Qed.

Lemma UpdatePairs_empty fuel b :
  m_moveCount b = 0 ->
  UpdatePairs fuel b = Some ([], with_moveCount 0 (with_pairCount 0 b)).
Proof.
  intros H0. unfold UpdatePairs, bind, get, modify, ret.
  cbn [m_moveCount with_pairCount m_pairCount]. rewrite H0.
  rewrite for_range_nil by lia.
  cbn [m_moveCount with_pairCount m_pairCount].
  rewrite for_collect_nil by lia.
  cbn [m_moveCount with_pairCount m_pairCount]. rewrite H0.
  rewrite for_range_nil by lia. reflexivity.
Qed.

(** What a call of [UpdatePairs] that returns leaves: an empty move buffer
    and the moved flag of every proxy that was waiting in it cleared, so
    that the next call returns at once with no call of [AddPair]. *)
Lemma UpdatePairs_post :
  forall (fuel : nat) (b b' : b2BroadPhase) (calls : list (Z * Z)),
    UpdatePairs fuel b = Some (calls, b') ->
    m_moveCount b' = 0 /\
    (forall id, buffered b id -> moved_cleared b' id) /\
    (forall fuel', UpdatePairs fuel' b' = Some ([], with_pairCount 0 b')).
Proof.
  intros fuel b b' calls H. unfold UpdatePairs in H. minv_all H.
  rename s1 into s3, s0 into s2, s into s1. destruct a0, a2.
  (* phase 1: the tree queries *)
  assert (H1 : same_moves b s1).
  { eapply (for_range_post (fun _ s => same_moves b s)); [|clear|exact Hrun].
    - repeat split; reflexivity.
    - intros i sa sb _ Hsa Hbody. minv Hbody.
      destruct (zget (m_moveBuffer sa) i) as [id|]; [|minv Hbody]. minv Hbody.
      assert (Hsa' : same_moves b (with_queryProxyId id sa)) by exact Hsa.
      destruct (id =? e_nullProxy).
      { minv_all Hbody. exact Hsa'. }
      minv Hbody. inv_reads. unfold Query in Hbody. minv Hbody.
      match type of Hbody with _ = Some (?u, _) => destruct u end.
      eapply (Query_loop_keeps (same_moves b)); [|exact Hsa'|exact Hbody].
      intros j sc r sd. apply QueryCallback_same_moves. }
  (* phase 2: the calls of AddPair *)
  assert (H2 : same_moves b s2).
  { eapply (for_collect_keeps (same_moves b)); [clear|exact H1|exact Hrun0].
    intros i sa r sb Hsa Hbody. minv Hbody.
    destruct (zget (m_pairBuffer sa) i) as [pr|]; [|minv Hbody]. minv_all Hbody.
    inv_reads. exact Hsa. }
  (* phase 3: the flags *)
  destruct H2 as (H2t & H2b & H2c).
  set (I := fun (i : Z) (s : b2BroadPhase) =>
              m_moveBuffer s = m_moveBuffer b /\
              forall j id, 0 <= j < i -> zget (m_moveBuffer b) j = Some id ->
                           id <> e_nullProxy -> moved_cleared s id).
  assert (H3 : I (Z.max 0 (m_moveCount b)) s3).
  { rewrite H2c in Hrun1.
    eapply (for_range_post I); [|clear -I|exact Hrun1].
    - split; [exact H2b|]. intros; lia.
    - intros i sa sb Hi (Hbuf & Hcl) Hbody. minv Hbody.
      rewrite Hbuf in Hbody.
      destruct (zget (m_moveBuffer b) i) as [id|] eqn:Hid; [|minv Hbody].
      destruct (Z.eqb_spec id e_nullProxy) as [->|Hnn].
      + minv_all Hbody. split; [exact Hbuf|].
        intros j id' Hj Hj' Hn. destruct (decide (j = i)) as [->|].
        * congruence.
        * apply Hcl with j; [lia|assumption|assumption].
      + apply on_tree_Some in Hbody as (t & Hclr & ->).
        pose proof Hclr as (m & Hm & ->)%ClearMoved_Some.
        split; [exact Hbuf|].
        intros j id' Hj Hj' Hn. unfold moved_cleared. cbn [m_tree with_tree].
        destruct (decide (j = i)) as [->|].
        * assert (id' = id) as -> by congruence.
          eapply ClearMoved_cleared; [exact Hclr|exact Hm|right; reflexivity].
        * destruct (Hcl j id') as (n' & Hn' & Hf); [lia|assumption|assumption|].
          eapply ClearMoved_cleared; [exact Hclr|exact Hn'|left; exact Hf]. }
  destruct H3 as (H3b & H3c).
  split; [reflexivity|]. split.
  - intros id (i & Hi & Hid & Hn).
    destruct (H3c i id ltac:(lia) Hid Hn) as (n & Hn1 & Hn2).
    exists n. split; assumption.
  - intros fuel'. rewrite UpdatePairs_empty by reflexivity.
    destruct s3; reflexivity.
Qed.
(** One call on a broad-phase with two proxies: the query proxy is 1 and
    the callback is given proxy 0, which has moved. *)
Lemma QueryCallback_cases_witness :
  exists b,
    (BP_CreateProxy 10 (unit_box 0 0) 65 >> BP_CreateProxy 10 (unit_box 0 0) 66 >>
     modify (with_queryProxyId 1)) b2BroadPhase_new = Some (tt, b) /\
    WasMoved 0 (m_tree b) = Some (true, m_tree b) /\
    exists b',
      QueryCallback 0 b = Some (true, b') /\
      pairs b' = pairs b ++ [mkPair 0 1] /\
      m_pairCount b' = m_pairCount b + 1.
Proof.
  eexists. split; [vm_compute; reflexivity|].
  match goal with
  | |- ?W /\ _ => assert (Hmv : W) by (vm_compute; reflexivity)
  end.
  split; [exact Hmv|].
  match type of Hmv with
  | WasMoved _ (m_tree ?b0) = _ =>
      destruct (proj2 (QueryCallback_cases b0 0) true ltac:(discriminate) Hmv) as [_ H];
      destruct H as (b' & Hrun & Hp & Hc & _)
  end.
  - intros [_ Hgt]. vm_compute in Hgt. discriminate Hgt.
  - unfold pair_buffer_ok. cbn [m_pairBuffer m_pairCapacity m_pairCount].
    split; [reflexivity|lia].
  - exists b'. split; [exact Hrun|]. split; [exact Hp|exact Hc].
Defined.
(** ** The broad-phase between two operations *)

Lemma ClearMoved_spec t ot id box data mv :
  tree_ok t ot [] -> (id, box, data, mv) ∈ opt_leaves ot ->
  wp (ClearMoved id) t (fun _ t' =>
    exists ot',
      tree_ok t' ot' [] /\ leaf_id <$> opt_leaves ot' ≡ₚ leaf_id <$> opt_leaves ot /\
      opt_ids ot' = opt_ids ot /\
      length (m_nodes t') = length (m_nodes t) /\
      m_nodeCapacity t' = m_nodeCapacity t /\ m_nodeCount t' = m_nodeCount t).
Proof.
  intros ((fl & Hok) & Hrt) Hin. destruct ot as [tr|]; [|inversion Hin].
  cbn [opt_leaves opt_ids app] in *. destruct Hrt as [Hrt Hw].
  pose proof (arena_NoDup _ _ _ Hok) as HndA.
  pose proof HndA as (_ & _ & Hnd)%NoDup_app.
  destruct (wf_leaf _ _ _ _ _ _ _ Hw Hin) as (Hid & p & Hn).
  pose proof (zget_Some_range _ _ _ Hn) as Hr.
  pose proof (ar_len _ _ _ Hok) as Hlen.
  destruct (wf_set_moved _ _ false _ _ _ _ _ _ Hw Hnd Hin Hn)
    as (t' & rest & Hw' & Hids & Hrt' & _ & Hp1 & Hp2).
  destruct t as [root ns cnt cap hd ic]. tree_red.
  unfold ClearMoved. wp_steps.
  exists (Some t'). cbn [opt_leaves opt_ids]. split; [|split; [|split; [exact Hids|]]].
  - split; [|split; [tree_red_goal; congruence|exact Hw']].
    exists fl. cbn [app opt_ids]. rewrite Hids.
    eapply arena_ok_frame; [exact Hok|reflexivity|..]; tree_red;
      rewrite ?length_upd; try reflexivity.
    intros j Hj. rewrite zget_upd_ne; [reflexivity|]. clear Hid.
    intros ->. apply NoDup_app in HndA as (_ & Hd & _). apply (Hd _ Hj).
    destruct (wf_leaf _ _ _ _ _ _ _ Hw Hin) as (Hid & _). exact Hid.
  - rewrite Hp1, Hp2. reflexivity.
  - tree_red_goal. rewrite length_upd. repeat split.
Qed.

Lemma Query_loop_total {St} (P : St -> Prop) (tree_of : St -> b2DynamicTree)
    (cb : Z -> M St bool) box ns :
  (forall s, P s -> m_nodes (tree_of s) = ns) ->
  (forall i n s, P s -> zget ns i = Some n -> IsLeaf n = true ->
     wp (cb i) s (fun _ s' => P s')) ->
  forall fuel stack k s,
    P s -> stack_cost ns stack k -> (k <= fuel)%nat ->
    wp (Query_loop fuel tree_of cb box stack) s (fun _ s' => P s').
Proof.
  intros Hns Hcb. induction fuel as [|fuel IH]; intros stack k s HP Hc Hk.
  - inversion Hc; subst; try lia.
    + apply wp_ret. exact HP.
    + pose proof (ids_nonempty t). lia.
  - inversion Hc as [|st k' Hst|p t st k' Hw Hst]; subst; cbn [Query_loop].
    + apply wp_ret. exact HP.
    + rewrite Z.eqb_refl. apply (IH st k'); [exact HP|exact Hst|lia].
    + destruct (wf_root _ _ _ Hw) as (n & Hn & _ & _ & Hleaf).
      pose proof (zget_Some_range _ _ _ Hn) as Hr.
      replace (root_of t =? b2_nullNode) with false
        by (symmetry; apply Z.eqb_neq; unfold b2_nullNode; lia).
      apply wp_bind, wp_get. rewrite (Hns s HP), Hn.
      pose proof (ids_nonempty t) as Hne.
      destruct (b2TestOverlap (aabb n) box); [|apply (IH st k'); [exact HP|exact Hst|lia]].
      destruct t as [i b d m|i l r]; rewrite Hleaf.
      * apply wp_bind. eapply wp_mono; [eapply Hcb; [exact HP|exact Hn|exact Hleaf]|].
        intros [|] s1 HP1; [|apply wp_ret; exact HP1].
        apply (IH st k'); [exact HP1|exact Hst|lia].
      * cbn [wf root_of] in Hw, Hn.
        destruct Hw as ((n0 & nl & nr & Hn0 & Hnl & Hnr & Hp & Hc1 & Hc2 & _) & Hl & Hrr).
        rewrite Hn in Hn0. injection Hn0 as <-. rewrite Hc1, Hc2.
        apply (IH _ (length (ids r) + (length (ids l) + k'))%nat); [exact HP| |].
        -- eapply cost_tree; [exact Hrr|]. eapply cost_tree; [exact Hl|exact Hst].
        -- cbn [ids length] in Hk. rewrite length_app in Hk. lia.
Qed.

Lemma wp_on_tree {A} (op : M b2DynamicTree A) b Q :
  wp op (m_tree b) (fun a t => Q a (with_tree t b)) -> wp (on_tree op) b Q.
Proof.
  intros (a & t & Hrun & HQ). exists a, (with_tree t b).
  split; [apply on_tree_run, Hrun|exact HQ].
Qed.

Lemma wp_for_collect {St A} (I : Z -> St -> Prop) lo hi (body : Z -> M St A) s
    (Q : list A -> St -> Prop) :
  lo <= hi -> I lo s ->
  (forall i s1, lo <= i < hi -> I i s1 -> wp (body i) s1 (fun _ s2 => I (i + 1) s2)) ->
  (forall l s', I hi s' -> Q l s') ->
  wp (for_collect lo hi body) s Q.
Proof.
  intros Hle. remember (Z.to_nat (hi - lo)) as n eqn:Hn.
  revert lo s Q Hle Hn. induction n as [|n IH]; intros lo s Q Hle Hn HI Hbody HQ.
  - assert (hi = lo) as -> by lia. eapply wp_run; [apply for_collect_nil; lia|]. auto.
  - eapply wp_ext; [apply for_collect_step; lia|].
    apply wp_bind. eapply wp_mono; [apply Hbody; [lia|exact HI]|].
    intros a s1 H1. cbv beta. apply wp_bind.
    apply (IH (lo + 1)); [lia|lia|exact H1| |].
    + intros i s2 Hi. apply Hbody. lia.
    + intros l s' H'. apply wp_ret. auto.
Qed.

(** An existing proxy is a leaf of the tree. *)
Lemma live_leaf t ot live id :
  tree_ok t ot [] -> leaf_id <$> opt_leaves ot ≡ₚ live -> id ∈ live ->
  exists box data mv p,
    (id, box, data, mv) ∈ opt_leaves ot /\
    zget (m_nodes t) id = Some (mkNode box data p b2_nullNode b2_nullNode 0 mv) /\
    0 <= id < m_nodeCapacity t.
Proof.
  intros Hok Hlive Hin. rewrite <- Hlive in Hin.
  apply list_elem_of_fmap in Hin as ([[[k b] dt] m] & E & Hin). cbn in E. subst k.
  destruct ot as [tr|]; [|inversion Hin]. destruct Hok as ((fl & Hok) & _ & Hw).
  destruct (wf_leaf _ _ _ _ _ _ _ Hw Hin) as (_ & p & Hn).
  exists b, dt, m, p. split; [exact Hin|]. split; [exact Hn|].
  pose proof (zget_Some_range _ _ _ Hn). pose proof (ar_len _ _ _ Hok). lia.
Qed.

Lemma QueryCallback_gathering b s i q :
  gathering b s -> m_queryProxyId s = q ->
  Z.of_nat (length (m_nodes (m_tree b))) = m_nodeCapacity (m_tree b) ->
  0 <= q < m_nodeCapacity (m_tree b) -> 0 <= i < m_nodeCapacity (m_tree b) ->
  wp (QueryCallback i) s (fun _ s' => gathering b s' /\ m_queryProxyId s' = q).
Proof.
  intros Hg Hq Hlen Hvq Hvi. pose proof Hg as (Hsm & Hmc & Hpb & Hpv).
  pose proof Hsm as (Ht & Hb & Hc).
  destruct (QueryCallback_cases s i) as [H1 H2]. cbv zeta in H1, H2.
  destruct (decide (i = m_queryProxyId s)) as [E|E].
  { eapply wp_run; [apply H1, E|]. split; assumption. }
  destruct (zget_in_range (m_nodes (m_tree s)) i) as [n Hn]; [rewrite Ht; lia|].
  assert (Hmv : WasMoved i (m_tree s) = Some (moved n, m_tree s)).
  { apply WasMoved_Some. split; [reflexivity|]. split; [rewrite Ht; lia|]. eauto. }
  destruct (H2 (moved n) E Hmv) as [H2a H2b].
  destruct (decide (moved n = true /\ i > m_queryProxyId s)) as [D|D].
  { eapply wp_run; [apply H2a, D|]. split; assumption. }
  destruct (H2b D Hpb) as (b' & Hrun & Hp & _ & _ & Hpb' & Ht' & _ & Hb' & Hmc' & Hc' & Hq').
  eapply wp_run; [exact Hrun|]. split; [|congruence].
  split; [split; [congruence|split; congruence]|]. split; [congruence|]. split; [exact Hpb'|].
  rewrite Hp. apply Forall_app. split; [exact Hpv|].
  apply Forall_singleton. cbn [proxyIdA proxyIdB]. lia.
Qed.

Arguments with_tree _ !_ /.
Arguments with_proxyCount _ !_ /.
Arguments with_moveBuffer _ !_ /.
Arguments with_moveCapacity _ !_ /.
Arguments with_moveCount _ !_ /.
Arguments with_pairBuffer _ !_ /.
Arguments with_pairCapacity _ !_ /.
Arguments with_pairCount _ !_ /.
Arguments with_queryProxyId _ !_ /.

Ltac bp_red :=
  unfold gathering in *; unfold pair_buffer_ok, pairs, same_moves in *;
  cbn [m_tree m_proxyCount m_moveBuffer m_moveCapacity m_moveCount m_pairBuffer
       m_pairCapacity m_pairCount m_queryProxyId with_tree with_proxyCount
       with_moveBuffer with_moveCapacity with_moveCount with_pairBuffer
       with_pairCapacity with_pairCount with_queryProxyId] in *.

Lemma pairs_lookup b i :
  pair_buffer_ok b -> 0 <= i < m_pairCount b ->
  exists p, zget (m_pairBuffer b) i = Some p /\ p ∈ pairs b.
Proof.
  intros (Hl & Hc & _) Hi.
  destruct (zget_in_range (m_pairBuffer b) i) as [p Hp]; [lia|].
  exists p. split; [exact Hp|]. unfold pairs. apply list_elem_of_lookup.
  exists (Z.to_nat i). rewrite lookup_take_lt by lia.
  unfold zget in Hp. rewrite decide_True in Hp by lia. exact Hp.
Qed.

Lemma UpdatePairs_spec b live fuel :
  bp_ok b live -> (Z.to_nat (m_nodeCount (m_tree b)) < fuel)%nat ->
  wp (UpdatePairs fuel) b (fun _ b' => bp_ok b' live /\ m_moveCount b' = 0).
Proof.
  intros ((ot & Hok & Hlive) & (Hml & Hmc & Hmp & Hme) & Hpb) Hfuel.
  pose proof Hok as ((fl & Hok0) & Hrt).
  pose proof (ar_len _ _ _ Hok0) as Hlen.
  pose proof (ar_count _ _ _ Hok0) as Hcnt. cbn [app] in Hcnt.
  unfold UpdatePairs. apply wp_bind, wp_modify. apply wp_bind, wp_get.
  (* Perform tree queries for all moving proxies. *)
  apply wp_bind. apply (wp_for_range (fun _ s => gathering b s)).
  { destruct b as [tr pc mb mcap mcnt pbuf pcap pcnt qid]; bp_red. lia. }
  { destruct b as [tr pc mb mcap mcnt pbuf pcap pcnt qid]; bp_red.
    destruct Hpb as (H1 & H2 & H3).
    split; [repeat split|]. split; [reflexivity|]. split; [|constructor].
    split; [exact H1|]. split; [lia|exact H3]. }
  { intros i s1 Hi Hg. pose proof Hg as ((Ht & Hb & Hc) & Hcap & Hpb1 & Hpv1).
    assert (Hi' : 0 <= i < m_moveCount b) by (destruct b as [tr pc mb mcap mcnt pbuf pcap pcnt qid]; bp_red; lia).
    apply wp_bind, wp_get. rewrite Hb.
    destruct (zget_in_range (m_moveBuffer b) i) as [id Hid]; [lia|]. rewrite Hid.
    apply wp_bind, wp_modify.
    assert (Hg2 : gathering b (with_queryProxyId id s1)).
    { destruct s1 as [tr pc mb mcap mcnt pbuf pcap pcnt qid]; bp_red. exact Hg. }
    destruct (Z.eqb_spec id e_nullProxy) as [E|E]; [apply wp_ret; exact Hg2|].
    destruct (Hme i id Hi' Hid) as [?|Hin]; [contradiction|].
    destruct (live_leaf _ _ _ _ Hok Hlive Hin) as (bx & dt & mv & p & Hl & Hn & Hv).
    apply wp_bind, wp_on_tree.
    assert (Ht2 : m_tree (with_queryProxyId id s1) = m_tree b) by (destruct s1 as [tr pc mb mcap mcnt pbuf pcap pcnt qid]; exact Ht).
    eapply wp_run.
    { apply GetFatAABB_Some. split; [reflexivity|]. rewrite Ht2. split; [exact Hv|]. eauto. }
    rewrite with_tree_same. unfold Query. apply wp_bind, wp_get.
    eapply wp_mono.
    { eapply (Query_loop_total (fun s => gathering b s /\ m_queryProxyId s = id) m_tree
                QueryCallback _ (m_nodes (m_tree b)))
        with (k := Nat.max 1 (Z.to_nat (m_nodeCount (m_tree b)))).
      - intros s [((Hts & _) & _) _]. rewrite Hts. reflexivity.
      - intros j n s [Hgs Hqs] Hnj _.
        eapply QueryCallback_gathering; [exact Hgs|exact Hqs|exact Hlen|exact Hv|].
        pose proof (zget_Some_range _ _ _ Hnj). lia.
      - split; [exact Hg2|]. destruct s1 as [tr pc mb mcap mcnt pbuf pcap pcnt qid]; reflexivity.
      - rewrite Ht2. destruct ot as [t|].
        + destruct Hrt as [-> Hw]. cbn [opt_ids] in Hcnt.
          replace (Nat.max 1 (Z.to_nat (m_nodeCount (m_tree b)))) with (length (ids t) + 0)%nat
            by (pose proof (ids_nonempty t); lia).
          eapply cost_tree; [exact Hw|apply cost_nil].
        + rewrite Hrt. cbn [opt_ids length] in Hcnt.
          replace (Nat.max 1 (Z.to_nat (m_nodeCount (m_tree b)))) with 1%nat by lia.
          apply cost_null, cost_nil.
      - lia. }
    intros [] s2 [Hg3 _]. exact Hg3. }
  intros s1 Hg1. pose proof Hg1 as ((Ht & Hb & Hc) & Hcap & Hpb1 & Hpv1).
  (* Send pairs to caller *)
  apply wp_bind, wp_get. apply wp_bind.
  apply (wp_for_collect (fun _ s => s = s1)).
  { destruct Hpb1 as (_ & H & _). lia. }
  { reflexivity. }
  { intros i s2 Hi ->. apply wp_bind, wp_get.
    destruct (pairs_lookup s1 i Hpb1 Hi) as (pr & Hpr & Hin).
    rewrite Hpr. rewrite Forall_forall in Hpv1. destruct (Hpv1 pr Hin) as [HA HB].
    destruct (zget_in_range (m_nodes (m_tree b)) (proxyIdA pr)) as [nA HnA]; [lia|].
    destruct (zget_in_range (m_nodes (m_tree b)) (proxyIdB pr)) as [nB HnB]; [lia|].
    apply wp_bind, wp_on_tree. eapply wp_run.
    { apply GetUserData_Some. split; [reflexivity|]. rewrite Ht. split; [exact HA|]. eauto. }
    rewrite with_tree_same.
    apply wp_bind, wp_on_tree. eapply wp_run.
    { apply GetUserData_Some. split; [reflexivity|]. rewrite Ht. split; [exact HB|]. eauto. }
    rewrite with_tree_same. apply wp_ret. reflexivity. }
  intros calls s' ->.
  (* Clear move flags *)
  apply wp_bind, wp_get. apply wp_bind.
  apply (wp_for_range (fun _ s =>
           (exists ot', tree_ok (m_tree s) ot' [] /\ leaf_id <$> opt_leaves ot' ≡ₚ live) /\
           m_moveBuffer s = m_moveBuffer b /\ m_moveCount s = m_moveCount b /\
           m_moveCapacity s = m_moveCapacity b /\ pair_buffer_ok s)).
  { lia. }
  { split; [exists ot; rewrite Ht; auto|]. auto. }
  { intros i s2 Hi ((ot2 & Hok2 & Hlive2) & Hb2 & Hc2 & Hcap2 & Hpb2).
    apply wp_bind, wp_get. rewrite Hb2.
    destruct (zget_in_range (m_moveBuffer b) i) as [id Hid]; [lia|]. rewrite Hid.
    destruct (Z.eqb_spec id e_nullProxy) as [E|E].
    { apply wp_ret. split; [exists ot2; auto|]. auto. }
    destruct (Hme i id ltac:(lia) Hid) as [?|Hin]; [contradiction|].
    destruct (live_leaf _ _ _ _ Hok2 Hlive2 Hin) as (bx & dt & mv & p & Hl & Hn & Hv).
    apply wp_on_tree. eapply wp_mono; [eapply ClearMoved_spec; eassumption|].
    intros [] t' (ot' & Hok' & Hlive' & _).
    split; [exists ot'; split; [destruct s2 as [tr pc mb mcap mcnt pbuf pcap pcnt qid]; exact Hok'|rewrite Hlive'; exact Hlive2]|].
    destruct s2 as [tr pc mb mcap mcnt pbuf pcap pcnt qid]; bp_red. auto. }
  intros s3 ((ot3 & Hok3 & Hlive3) & Hb3 & Hc3 & Hcap3 & Hpb3).
  (* Reset move buffer *)
  apply wp_bind, wp_modify. apply wp_ret.
  split; [|destruct s3 as [tr pc mb mcap mcnt pbuf pcap pcnt qid]; reflexivity].
  split; [exists ot3; destruct s3 as [tr pc mb mcap mcnt pbuf pcap pcnt qid]; auto|].
  split; [|destruct s3 as [tr pc mb mcap mcnt pbuf pcap pcnt qid]; exact Hpb3].
  destruct s3 as [tr pc mb mcap mcnt pbuf pcap pcnt qid]; bp_red. subst. unfold move_buffer_ok. bp_red. split; [exact Hml|]. split; [lia|]. split; [exact Hmp|].
  intros i id Hi. lia.
Qed.
Lemma move_buffer_ok_weaken b live live' :
  (forall id, id ∈ live -> id ∈ live') -> move_buffer_ok b live -> move_buffer_ok b live'.
Proof.
  intros Hsub (H1 & H2 & H3 & H4). repeat split; try assumption; try lia.
  intros i id Hi Hz. destruct (H4 i id Hi Hz); auto.
Qed.

Lemma zget_take_app {A} (l : list A) (n : nat) (l' : list A) i :
  0 <= i < Z.of_nat n -> (n <= length l)%nat -> zget (take n l ++ l') i = zget l i.
Proof.
  intros Hi Hn. unfold zget. case_decide; [|reflexivity].
  rewrite lookup_app_l by (rewrite length_take; lia). apply lookup_take_lt. lia.
Qed.

Lemma BufferMove_spec b live id :
  move_buffer_ok b live -> id ∈ live ->
  wp (BufferMove id) b (fun _ b' =>
    move_buffer_ok b' live /\ m_tree b' = m_tree b /\
    m_pairBuffer b' = m_pairBuffer b /\ m_pairCapacity b' = m_pairCapacity b /\
    m_pairCount b' = m_pairCount b).
Proof.
  intros (Hl & Hc & Hp & He) Hin.
  destruct b as [tr pc mb mcap mcnt pbuf pcap pcnt qid]. bp_red.
  unfold BufferMove. apply wp_bind, wp_get. bp_red. apply wp_bind.
  destruct (Z.eqb_spec mcnt mcap) as [->|Hne].
  - apply wp_bind, wp_modify. apply wp_modify. bp_red.
    apply wp_bind, wp_get. bp_red.
    rewrite zset_in_range
      by (rewrite length_app, length_take, length_replicate; lia).
    apply wp_bind, wp_modify. apply wp_modify. bp_red.
    unfold move_buffer_ok. bp_red. split; [|repeat split].
    split; [rewrite length_upd, length_app, length_take, length_replicate; lia|].
    split; [lia|]. split; [lia|].
    intros i x Hi. destruct (decide (i = mcap)) as [->|Hn].
    + rewrite zget_upd_eq
        by (rewrite length_app, length_take, length_replicate; lia).
      intros [= <-]. right. exact Hin.
    + rewrite zget_upd_ne by congruence. rewrite zget_take_app by lia.
      apply He. lia.
  - apply wp_ret. apply wp_bind, wp_get. bp_red.
    rewrite zset_in_range by lia.
    apply wp_bind, wp_modify. apply wp_modify. bp_red.
    unfold move_buffer_ok. bp_red. split; [|repeat split].
    split; [rewrite length_upd; lia|]. split; [lia|]. split; [lia|].
    intros i x Hi. destruct (decide (i = mcnt)) as [->|Hn].
    + rewrite zget_upd_eq by lia. intros [= <-]. right. exact Hin.
    + rewrite zget_upd_ne by congruence. apply He. lia.
Qed.
Lemma UnBufferMove_spec b live live' id :
  move_buffer_ok b live -> live ≡ₚ id :: live' -> NoDup live ->
  wp (UnBufferMove id) b (fun _ b' =>
    move_buffer_ok b' live' /\ m_tree b' = m_tree b /\
    m_pairBuffer b' = m_pairBuffer b /\ m_pairCapacity b' = m_pairCapacity b /\
    m_pairCount b' = m_pairCount b).
Proof.
  intros (Hl & Hc & Hp & He) Hperm Hnd.
  assert (Hlive' : forall x, x ∈ live -> x <> id -> x ∈ live').
  { intros x Hx Hne. rewrite Hperm in Hx. apply elem_of_cons in Hx as [?|?]; [contradiction|auto]. }
  unfold UnBufferMove. apply wp_bind, wp_get.
  apply (wp_for_range (fun k s =>
           m_tree s = m_tree b /\ m_pairBuffer s = m_pairBuffer b /\
           m_pairCapacity s = m_pairCapacity b /\ m_pairCount s = m_pairCount b /\
           m_moveCapacity s = m_moveCapacity b /\ m_moveCount s = m_moveCount b /\
           length (m_moveBuffer s) = length (m_moveBuffer b) /\
           forall i x, 0 <= i < m_moveCount b -> zget (m_moveBuffer s) i = Some x ->
             x = e_nullProxy \/ (x ∈ live /\ (i < k -> x <> id)))).
  - lia.
  - repeat split; try reflexivity. intros i x Hi Hx.
    destruct (He i x Hi Hx) as [?|?]; [left; assumption|right; split; [assumption|lia]].
  - intros i s Hi (Ht & Hpb & Hpc & Hpn & Hmc & Hmn & Hml & Hme).
    apply wp_bind, wp_get.
    destruct (zget_in_range (m_moveBuffer s) i) as [x Hx]; [lia|]. rewrite Hx.
    destruct (Z.eqb_spec x id) as [->|Hne].
    + rewrite zset_in_range by lia. apply wp_modify.
      destruct s as [tr pc mb mcap mcnt pbuf pcap pcnt qid]. bp_red.
      repeat split; try assumption; [rewrite length_upd; assumption|].
      intros j y Hj. destruct (decide (j = i)) as [->|Hn].
      * rewrite zget_upd_eq by lia. intros [= <-]. left. reflexivity.
      * rewrite zget_upd_ne by congruence. intros Hy.
        destruct (Hme j y Hj Hy) as [?|[H1 H2]]; [left; assumption|].
        right. split; [exact H1|]. intros Hlt. apply H2. lia.
    + apply wp_ret. repeat split; try assumption.
      intros j y Hj Hy. destruct (Hme j y Hj Hy) as [?|[H1 H2]]; [left; assumption|].
      right. split; [exact H1|]. intros Hlt.
      destruct (decide (j = i)) as [->|Hn]; [congruence|]. apply H2. lia.
  - intros s (Ht & Hpb & Hpc & Hpn & Hmc & Hmn & Hml & Hme).
    split; [|repeat split; assumption].
    unfold move_buffer_ok. rewrite Hmc, Hmn, Hml.
    split; [exact Hl|]. split; [exact Hc|]. split; [exact Hp|].
    intros i x Hi Hx. destruct (Hme i x Hi Hx) as [?|[H1 H2]]; [left; assumption|].
    right. apply Hlive'; [exact H1|]. apply H2. lia.
Qed.
Lemma bp_ok_count b live :
  bp_ok b live ->
  exists ot, tree_ok (m_tree b) ot [] /\ leaf_id <$> opt_leaves ot ≡ₚ live /\
             m_nodeCount (m_tree b) = Z.of_nat (length (opt_ids ot)) /\ NoDup live.
Proof.
  intros ((ot & Hok & Hlive) & _). exists ot. split; [exact Hok|]. split; [exact Hlive|].
  destruct Hok as ((fl & Hok) & Hrt). split; [exact (ar_count _ _ _ Hok)|].
  rewrite <- Hlive. destruct ot as [t|]; [|constructor].
  apply leaf_ids_NoDup. pose proof (arena_NoDup _ _ _ Hok) as H.
  apply NoDup_app in H as (_ & _ & H). exact H.
Qed.

Lemma BP_CreateProxy_spec b live fuel box data :
  bp_ok b live -> (Z.to_nat (m_nodeCount (m_tree b)) + 2 <= fuel)%nat ->
  wp (BP_CreateProxy fuel box data) b (fun id b' => bp_ok b' (id :: live)).
Proof.
  intros Hbp Hfuel. destruct (bp_ok_count _ _ Hbp) as (ot & Hok & Hlive & Hcnt & _).
  destruct Hbp as (_ & Hmb & Hpb).
  unfold BP_CreateProxy. apply wp_bind, wp_on_tree.
  eapply wp_mono; [apply (CreateProxy_spec _ ot box data fuel Hok); lia|].
  intros id t' (t2 & Hok2 & Hpl & _).
  apply wp_bind, wp_modify. apply wp_bind.
  eapply wp_mono.
  { eapply (BufferMove_spec _ (id :: live) id); [|left].
    eapply move_buffer_ok_weaken; [|destruct b; exact Hmb]. intros x Hx. right. exact Hx. }
  intros [] b' (Hmb' & Ht' & Hp1 & Hp2 & Hp3). apply wp_ret.
  split; [|split; [exact Hmb'|]].
  - exists (Some t2). rewrite Ht'. destruct b; bp_red. split; [exact Hok2|].
    cbn [opt_leaves]. rewrite Hpl. cbn [fmap list_fmap leaf_id fst]. rewrite Hlive. reflexivity.
  - unfold pair_buffer_ok in *. rewrite Hp1, Hp2, Hp3. destruct b; exact Hpb.
Qed.

Lemma BP_DestroyProxy_spec b live live' fuel id :
  bp_ok b live -> live ≡ₚ id :: live' ->
  (Z.to_nat (m_nodeCount (m_tree b)) + 1 <= fuel)%nat ->
  wp (BP_DestroyProxy fuel id) b (fun _ b' => bp_ok b' live').
Proof.
  intros Hbp Hperm Hfuel.
  destruct (bp_ok_count _ _ Hbp) as (ot & Hok & Hlive & Hcnt & Hnd).
  destruct Hbp as (_ & Hmb & Hpb).
  unfold BP_DestroyProxy. apply wp_bind.
  eapply wp_mono; [eapply UnBufferMove_spec; eassumption|].
  intros [] b1 (Hmb1 & Ht1 & Hp1 & Hp2 & Hp3).
  apply wp_bind, wp_modify. apply wp_on_tree.
  assert (Hid : id ∈ leaf_id <$> opt_leaves ot) by (rewrite Hlive, Hperm; left).
  apply list_elem_of_fmap in Hid as ([[[k bx] dt] m] & E & Hin). cbn in E. subst k.
  destruct ot as [t|]; [|inversion Hin]. cbn [opt_leaves opt_ids] in *.
  replace (m_tree (with_proxyCount (m_proxyCount b1 - 1) b1)) with (m_tree b)
    by (destruct b1; symmetry; exact Ht1).
  eapply wp_mono; [apply (DestroyProxy_spec _ t id bx dt m fuel Hok Hin); lia|].
  intros [] t' (ot' & Hok' & Hpl).
  split; [|split].
  - exists ot'. destruct b1; bp_red. split; [exact Hok'|].
    rewrite <- Hpl in Hlive. cbn [fmap list_fmap leaf_id fst] in Hlive.
    rewrite Hperm in Hlive. eapply Permutation_cons_inv. exact Hlive.
  - destruct b1; exact Hmb1.
  - unfold pair_buffer_ok in *. destruct b1; bp_red. rewrite Hp1, Hp2, Hp3. exact Hpb.
Qed.

Lemma BP_MoveProxy_spec b live fuel id box d :
  bp_ok b live -> id ∈ live ->
  (Z.to_nat (m_nodeCount (m_tree b)) + 2 <= fuel)%nat ->
  wp (BP_MoveProxy fuel id box d) b (fun _ b' => bp_ok b' live).
Proof.
  intros Hbp Hin Hfuel.
  destruct (bp_ok_count _ _ Hbp) as (ot & Hok & Hlive & Hcnt & Hnd).
  destruct Hbp as (_ & Hmb & Hpb).
  assert (Hid : id ∈ leaf_id <$> opt_leaves ot) by (rewrite Hlive; exact Hin).
  apply list_elem_of_fmap in Hid as ([[[k bx] dt] m] & E & Hl). cbn in E. subst k.
  destruct ot as [t|]; [|inversion Hl]. cbn [opt_leaves opt_ids] in *.
  unfold BP_MoveProxy. apply wp_bind, wp_on_tree.
  eapply wp_mono; [apply (MoveProxy_spec _ t id bx dt m fuel box d Hok Hl); lia|].
  intros r t' Hpost. cbv beta in Hpost.
  assert (Hbp' : bp_ok (with_tree t' b) live).
  { split; [|split; [destruct b; exact Hmb|destruct b; exact Hpb]].
    destruct (Contains bx box && Contains (hugeAABB_of (predicted_fatAABB box d)) bx).
    - destruct Hpost as [_ ->]. exists (Some t). destruct b; auto.
    - destruct Hpost as (_ & t2 & rest & Hok2 & Hp1 & Hp2).
      exists (Some t2). destruct b; bp_red. split; [exact Hok2|].
      cbn [opt_leaves]. rewrite Hp2. rewrite Hp1 in Hlive. exact Hlive. }
  destruct r; [|apply wp_ret; exact Hbp'].
  destruct Hbp' as (Htr & Hmb' & Hpb').
  eapply wp_mono; [eapply BufferMove_spec; eassumption|].
  intros [] b' (Hmb2 & Ht2 & Hp1 & Hp2 & Hp3).
  split; [rewrite Ht2; exact Htr|]. split; [exact Hmb2|].
  unfold pair_buffer_ok in *. rewrite Hp1, Hp2, Hp3. exact Hpb'.
Qed.

Lemma TouchProxy_spec b live id :
  bp_ok b live -> id ∈ live -> wp (TouchProxy id) b (fun _ b' => bp_ok b' live).
Proof.
  intros (Htr & Hmb & Hpb) Hin. unfold TouchProxy.
  eapply wp_mono; [eapply BufferMove_spec; eassumption|].
  intros [] b' (Hmb2 & Ht2 & Hp1 & Hp2 & Hp3).
  split; [rewrite Ht2; exact Htr|]. split; [exact Hmb2|].
  unfold pair_buffer_ok in *. rewrite Hp1, Hp2, Hp3. exact Hpb.
Qed.

Lemma bp_ok_new : bp_ok b2BroadPhase_new [].
Proof.
  split; [exists None; split; [apply tree_ok_new|reflexivity]|].
  split; [|split; [reflexivity|cbn; lia]].
  split; [reflexivity|]. split; [cbn; lia|]. split; [cbn; lia|].
  intros i id Hi. cbn in Hi. lia.
Qed.
Lemma Query_loop_mono {St} (tree_of : St -> b2DynamicTree) (cb : Z -> M St bool) box :
  forall fuel fuel' stack s r,
    (fuel <= fuel')%nat ->
    Query_loop fuel tree_of cb box stack s = Some r ->
    Query_loop fuel' tree_of cb box stack s = Some r.
Proof.
  induction fuel as [|fuel IH]; intros fuel' stack s r Hle.
  - destruct stack; [destruct fuel'; exact (fun H => H)|discriminate].
  - destruct fuel' as [|fuel']; [lia|]. destruct stack as [|nodeId stack]; [exact (fun H => H)|].
    cbn [Query_loop].
    destruct (nodeId =? b2_nullNode); [apply IH; lia|].
    apply bind_Some_mono. intros s0 s1.
    destruct (zget _ nodeId) as [n|]; [|exact (fun H => H)].
    destruct (b2TestOverlap _ _); [|apply IH; lia].
    destruct (IsLeaf n); [|apply IH; lia].
    apply bind_Some_mono. intros [|] s2; [apply IH; lia|exact (fun H => H)].
Qed.

Lemma for_range_mono {St} (body body' : Z -> M St unit) r : forall n lo s,
  (forall i s1 x, body i s1 = Some x -> body' i s1 = Some x) ->
  foldr (fun i k => body i >> k) (ret tt) (seqZ lo n) s = Some r ->
  foldr (fun i k => body' i >> k) (ret tt) (seqZ lo n) s = Some r.
Proof.
  intros n lo s Hb. unfold seqZ. generalize (seq 0 (Z.to_nat n)). intros l. revert s.
  induction l as [|a l IH]; intros s; cbn [fmap list_fmap foldr]; [exact (fun H => H)|].
  apply bind_Some_mono2; [apply Hb|]. intros ? s1. apply IH.
Qed.

Lemma UpdatePairs_mono fuel fuel' b r :
  (fuel <= fuel')%nat -> UpdatePairs fuel b = Some r -> UpdatePairs fuel' b = Some r.
Proof.
  intros Hle. unfold UpdatePairs.
  apply bind_Some_mono. intros ? s1. apply bind_Some_mono. intros b0 s2.
  apply bind_Some_mono2; [|intros; assumption].
  intros x. unfold for_range. apply for_range_mono. clear x.
  intros i s3 x. apply bind_Some_mono. intros b1 s4.
  destruct (zget _ i); [|exact (fun H => H)].
  apply bind_Some_mono. intros ? s5.
  destruct (_ =? _); [exact (fun H => H)|].
  apply bind_Some_mono. intros fat s6. unfold Query.
  apply bind_Some_mono. intros ? s7. apply Query_loop_mono. exact Hle.
Qed.

Lemma on_tree_mono {A} (op op' : M b2DynamicTree A) b x :
  (forall y, op (m_tree b) = Some y -> op' (m_tree b) = Some y) ->
  on_tree op b = Some x -> on_tree op' b = Some x.
Proof.
  intros H. unfold on_tree. destruct (op (m_tree b)) as [[a t]|] eqn:E; [|discriminate].
  rewrite (H _ eq_refl). exact (fun H => H).
Qed.

Lemma BP_CreateProxy_mono fuel fuel' box data b r :
  (fuel <= fuel')%nat ->
  BP_CreateProxy fuel box data b = Some r -> BP_CreateProxy fuel' box data b = Some r.
Proof.
  intros Hle. unfold BP_CreateProxy.
  apply bind_Some_mono2; [|intros; assumption].
  intros x. apply on_tree_mono. intros y. apply CreateProxy_mono. exact Hle.
Qed.

Lemma BP_DestroyProxy_mono fuel fuel' id b r :
  (fuel <= fuel')%nat ->
  BP_DestroyProxy fuel id b = Some r -> BP_DestroyProxy fuel' id b = Some r.
Proof.
  intros Hle. unfold BP_DestroyProxy.
  apply bind_Some_mono. intros ? s1. apply bind_Some_mono. intros ? s2.
  apply on_tree_mono. intros y. apply DestroyProxy_mono. exact Hle.
Qed.

Lemma BP_MoveProxy_mono fuel fuel' id box d b r :
  (fuel <= fuel')%nat ->
  BP_MoveProxy fuel id box d b = Some r -> BP_MoveProxy fuel' id box d b = Some r.
Proof.
  intros Hle. unfold BP_MoveProxy.
  apply bind_Some_mono2; [|intros; assumption].
  intros x. apply on_tree_mono. intros y. apply MoveProxy_mono. exact Hle.
Qed.

(** The states of a sequence of broad-phase operations are in order. *)
Lemma bp_trace_ok live b : bp_trace live b -> bp_ok b live.
Proof.
  induction 1 as [|live b fuel box data id b' _ IH Hrun
                  |live live' b fuel id b' _ IH Hperm Hrun
                  |live b fuel id box d b' _ IH Hin Hrun
                  |live b id b' _ IH Hin Hrun
                  |live b fuel calls b' _ IH Hrun].
  - apply bp_ok_new.
  - set (N := Nat.max fuel (Z.to_nat (m_nodeCount (m_tree b)) + 2)).
    apply (BP_CreateProxy_mono fuel N) in Hrun; [|lia].
    exact (wp_result _ _ _ _ _ (BP_CreateProxy_spec b live N box data IH ltac:(lia)) Hrun).
  - set (N := Nat.max fuel (Z.to_nat (m_nodeCount (m_tree b)) + 2)).
    apply (BP_DestroyProxy_mono fuel N) in Hrun; [|lia].
    exact (wp_result _ _ _ _ _ (BP_DestroyProxy_spec b live live' N id IH Hperm ltac:(lia)) Hrun).
  - set (N := Nat.max fuel (Z.to_nat (m_nodeCount (m_tree b)) + 2)).
    apply (BP_MoveProxy_mono fuel N) in Hrun; [|lia].
    exact (wp_result _ _ _ _ _ (BP_MoveProxy_spec b live N id box d IH Hin ltac:(lia)) Hrun).
  - exact (wp_result _ _ _ _ _ (TouchProxy_spec b live id IH Hin) Hrun).
  - set (N := Nat.max fuel (Z.to_nat (m_nodeCount (m_tree b)) + 2)).
    apply (UpdatePairs_mono fuel N) in Hrun; [|lia].
    exact (proj1 (wp_result _ _ _ _ _ (UpdatePairs_spec b live N IH ltac:(lia)) Hrun)).
Qed.
(** ** The claim on [UpdatePairs] *)

(** C4.  When a call of [UpdatePairs] returns, the move buffer is empty and
    the moved flag of every proxy that was waiting in it is cleared; a
    second call made right after it (or any call made while the move buffer
    is empty) returns at once with no call of [AddPair], and changes nothing
    but the pair count, which it resets.  And in every state reached by
    broad-phase operations on existing proxies the call does return, with
    more fuel than the tree has nodes. *)
Theorem UpdatePairs_drains_move_buffer :
  (forall (fuel : nat) (b b' : b2BroadPhase) (calls : list (Z * Z)),
     UpdatePairs fuel b = Some (calls, b') ->
     m_moveCount b' = 0 /\
     (forall id, buffered b id -> moved_cleared b' id) /\
     (forall fuel', UpdatePairs fuel' b' = Some ([], with_pairCount 0 b'))) /\
  (forall (live : list Z) (b : b2BroadPhase) (fuel : nat),
     bp_trace live b ->
     (Z.to_nat (m_nodeCount (m_tree b)) < fuel)%nat ->
     exists calls b', UpdatePairs fuel b = Some (calls, b')).
Proof.
  split; [exact UpdatePairs_post|].
  intros live b fuel Hok%bp_trace_ok Hfuel.
  destruct (UpdatePairs_spec b live fuel Hok Hfuel) as (calls & b' & Hrun & _).
  eauto.
Qed.

(** Two overlapping proxies: the first call reports their pair, and the
    one after it reports nothing. *)
Lemma UpdatePairs_drains_move_buffer_witness :
  exists b b',
    (BP_CreateProxy 10 (mkAABB (mkVec2 0 0) (mkVec2 1 1)) 65 >>
     BP_CreateProxy 10 (mkAABB (mkVec2 (1 # 2) (1 # 2)) (mkVec2 (3 # 2) (3 # 2))) 66 >>
     ret tt) b2BroadPhase_new = Some (tt, b) /\
    bp_trace [1; 0] b /\
    UpdatePairs 10 b = Some ([(65, 66)], b') /\
    m_moveCount b' = 0 /\
    (forall id, buffered b id -> moved_cleared b' id) /\
    (forall fuel', UpdatePairs fuel' b' = Some ([], with_pairCount 0 b')).
Proof.
  eexists _, _. split; [vm_compute; reflexivity|].
  match goal with |- bp_trace ?l ?b0 /\ _ => assert (Hb : bp_trace l b0) end.
  { eapply (bp_create [0] _ 10 (mkAABB (mkVec2 (1 # 2) (1 # 2)) (mkVec2 (3 # 2) (3 # 2))) 66 1).
    - eapply (bp_create [] _ 10 (mkAABB (mkVec2 0 0) (mkVec2 1 1)) 65 0); [apply bp_new|].
      vm_compute. reflexivity.
    - vm_compute. reflexivity. }
  split; [exact Hb|].
  match goal with
  | |- UpdatePairs _ ?b0 = _ /\ _ =>
      destruct (proj2 UpdatePairs_drains_move_buffer _ b0 10%nat Hb ltac:(vm_compute; lia))
        as (calls & b1 & Hrun)
  end.
  pose proof Hrun as Hrun'. vm_compute in Hrun'. injection Hrun' as <- <-.
  split; [exact Hrun|].
  exact (proj1 UpdatePairs_drains_move_buffer _ _ _ _ Hrun).
Defined.
(** ** Sequences of operations of the tree *)


Lemma CreateProxy_keeps s ot fuel box data id s' :
  tree_ok s ot [] -> CreateProxy fuel box data s = Some (id, s') ->
  exists t', tree_ok s' (Some t') [] /\
    leaves t' ≡ₚ (id, fattened box, data, true) :: opt_leaves ot /\ (id ∉ opt_ids ot).
Proof.
  intros Hok Hrun.
  set (N := Nat.max fuel (length (opt_ids ot) + 2)).
  apply (CreateProxy_mono fuel N) in Hrun; [|lia].
  exact (wp_result _ _ _ _ _ (CreateProxy_spec s ot box data N Hok ltac:(lia)) Hrun).
Qed.

Lemma DestroyProxy_keeps s t fuel id box data mv s' :
  tree_ok s (Some t) [] -> (id, box, data, mv) ∈ leaves t ->
  DestroyProxy fuel id s = Some (tt, s') ->
  exists ot', tree_ok s' ot' [] /\ (id, box, data, mv) :: opt_leaves ot' ≡ₚ leaves t.
Proof.
  intros Hok Hin Hrun.
  set (N := Nat.max fuel (length (ids t) + 1)).
  apply (DestroyProxy_mono fuel N) in Hrun; [|lia].
  exact (wp_result _ _ _ _ _ (DestroyProxy_spec s t id box data mv N Hok Hin ltac:(lia)) Hrun).
Qed.

Lemma MoveProxy_keeps s t fuel id box0 data mv box d r s' :
  tree_ok s (Some t) [] -> (id, box0, data, mv) ∈ leaves t ->
  MoveProxy fuel id box d s = Some (r, s') ->
  if Contains box0 box && Contains (hugeAABB_of (predicted_fatAABB box d)) box0
  then r = false /\ s' = s
  else r = true /\ exists t' rest,
         tree_ok s' (Some t') [] /\
         leaves t ≡ₚ (id, box0, data, mv) :: rest /\
         leaves t' ≡ₚ (id, predicted_fatAABB box d, data, true) :: rest.
Proof.
  intros Hok Hin Hrun.
  set (N := Nat.max fuel (length (ids t) + 2)).
  apply (MoveProxy_mono fuel N) in Hrun; [|lia].
  exact (wp_result _ _ _ _ _ (MoveProxy_spec s t id box0 data mv N box d Hok Hin ltac:(lia)) Hrun).
Qed.

Lemma live_leaf_in ot live id :
  leaf_id <$> opt_leaves ot ≡ₚ live -> id ∈ live ->
  exists t box data mv, ot = Some t /\ (id, box, data, mv) ∈ leaves t.
Proof.
  intros Hlive Hin. rewrite <- Hlive in Hin.
  apply list_elem_of_fmap in Hin as ([[[k b] dt] m] & E & Hin). cbn in E. subst k.
  destruct ot as [t|]; [|inversion Hin]. eauto 10.
Qed.


Lemma flt_shift a b o : flt (a - o) (b - o) = flt a b.
Proof.
  destruct (flt a b) eqn:E.
  - apply flt_true in E. apply flt_true. lra.
  - apply flt_false in E. apply flt_false. lra.
Qed.

Lemma shifted_Combine o a b :
  shifted o (Combine a b) = Combine (shifted o a) (shifted o b).
Proof.
  unfold shifted, Combine, vmin, vmax, vsub, b2MinF, b2MaxF. cbn [lowerBound upperBound x y].
  rewrite !flt_shift.
  destruct (flt (x (lowerBound a)) (x (lowerBound b))), (flt (y (lowerBound a)) (y (lowerBound b))),
    (flt (x (upperBound b)) (x (upperBound a))), (flt (y (upperBound b)) (y (upperBound a)));
    reflexivity.
Qed.

Lemma zget_fmap {A B} (f : A -> B) (l : list A) i : zget (f <$> l) i = f <$> zget l i.
Proof. unfold zget. case_decide; [apply list_lookup_fmap|reflexivity]. Qed.

Lemma upd_shift_step {A} (f : A -> A) (l : list A) (i : nat) n :
  l !! i = Some n ->
  <[i := f n]> ((f <$> take i l) ++ drop i l) = (f <$> take (S i) l) ++ drop (S i) l.
Proof.
  intros Hn. pose proof (lookup_lt_Some _ _ _ Hn) as Hlt.
  rewrite (drop_S _ _ _ Hn). rewrite (take_S_r _ _ _ Hn). rewrite fmap_app. cbn [fmap list_fmap].
  rewrite <- app_assoc. cbn [app].
  rewrite insert_app_r_alt by (rewrite length_fmap, length_take; lia).
  rewrite length_fmap, length_take. replace (i - i `min` length l)%nat with O by lia.
  reflexivity.
Qed.

Lemma ShiftOrigin_run s o :
  Z.of_nat (length (m_nodes s)) = m_nodeCapacity s ->
  ShiftOrigin o s = Some (tt, with_nodes (shift_node o <$> m_nodes s) s).
Proof.
  destruct s as [root ns cnt cap fl ic]. tree_red. intros Hlen.
  unfold ShiftOrigin. rewrite (bind_run _ _ _ _ _ eq_refl). tree_red.
  pose (I := fun (i : Z) (s1 : b2DynamicTree) =>
    s1 = mkTree root ((shift_node o <$> take (Z.to_nat i) ns) ++ drop (Z.to_nat i) ns)
                cnt cap fl ic).
  destruct (for_range_inv I 0 cap
    (fun i => store (fun n => with_aabb (mkAABB (vsub (lowerBound (aabb n)) o) (upperBound (aabb n))) n) i >>
              store (fun n => with_aabb (mkAABB (lowerBound (aabb n)) (vsub (upperBound (aabb n)) o)) n) i)
    (mkTree root ns cnt cap fl ic))
    as (s' & Hrun & HI).
  - lia.
  - unfold I. cbn. reflexivity.
  - intros i s1 Hi ->.
    destruct (zget_in_range ns i ltac:(lia)) as [n Hn].
    assert (Hn' : ns !! Z.to_nat i = Some n).
    { unfold zget in Hn. case_decide; [exact Hn|lia]. }
    set (ns1 := (shift_node o <$> take (Z.to_nat i) ns) ++ drop (Z.to_nat i) ns).
    assert (Hl1 : length ns1 = length ns).
    { unfold ns1. rewrite length_app, length_fmap, length_take, length_drop. lia. }
    assert (H1 : zget ns1 i = Some n).
    { unfold zget, ns1. case_decide; [|lia].
      rewrite lookup_app_r by (rewrite length_fmap, length_take; lia).
      rewrite length_fmap, length_take, lookup_drop.
      replace (Z.to_nat i + (Z.to_nat i - Z.to_nat i `min` length ns))%nat
        with (Z.to_nat i) by lia. exact Hn'. }
    eexists. split.
    + erewrite bind_run; [|apply store_run; tree_red; exact H1]. tree_red.
      erewrite store_run; [reflexivity|].
      tree_red. apply zget_upd_eq. lia.
    + unfold I. tree_red. f_equal. unfold upd. case_decide; [|lia].
      rewrite list_insert_insert_eq.
      replace (Z.to_nat (i + 1)) with (S (Z.to_nat i)) by lia.
      rewrite <- (upd_shift_step (shift_node o) _ _ _ Hn'). reflexivity.
  - rewrite Hrun. unfold I in HI. rewrite HI. do 3 f_equal.
    rewrite firstn_all2 by lia. rewrite drop_ge by lia. apply app_nil_r.
Qed.

Lemma root_of_tshift o t : root_of (tshift o t) = root_of t.
Proof. destruct t; reflexivity. Qed.

Lemma ids_tshift o t : ids (tshift o t) = ids t.
Proof. induction t as [|i l IHl r IHr]; cbn; [reflexivity|]. rewrite IHl, IHr. reflexivity. Qed.

Lemma theight_tshift o t : theight (tshift o t) = theight t.
Proof. induction t as [|i l IHl r IHr]; cbn; [reflexivity|]. rewrite IHl, IHr. reflexivity. Qed.

Lemma leaves_tshift o t :
  leaves (tshift o t) = (fun l => (l.1.1.1, shifted o l.1.1.2, l.1.2, l.2)) <$> leaves t.
Proof.
  induction t as [|i l IHl r IHr]; cbn [tshift leaves]; [reflexivity|].
  rewrite IHl, IHr, fmap_app. reflexivity.
Qed.

Lemma wf_shift o ns t : forall p,
  wf ns p t -> wf (shift_node o <$> ns) p (tshift o t).
Proof.
  induction t as [i box data mv|i l IHl r IHr]; intros p; cbn [wf tshift].
  - intros H. rewrite zget_fmap, H. reflexivity.
  - intros ((n & nl & nr & Hn & Hnl & Hnr & Hp & Hc1 & Hc2 & Hh & Ha) & Hl & Hr).
    split; [|split; [apply IHl, Hl|apply IHr, Hr]].
    exists (shift_node o n), (shift_node o nl), (shift_node o nr).
    rewrite !root_of_tshift, !zget_fmap, Hn, Hnl, Hnr.
    repeat split; try assumption.
    + change (height n = 1 + Z.max (theight (tshift o l)) (theight (tshift o r))).
      rewrite !theight_tshift. exact Hh.
    + cbn [shift_node with_aabb aabb]. rewrite <- !shifted_Combine.
      destruct Ha as [->| ->]; auto.
Qed.

Lemma free_chain_shift o ns fl : forall h,
  free_chain ns h fl -> free_chain (shift_node o <$> ns) h fl.
Proof.
  induction fl as [|i fl IH]; intros h; cbn [free_chain]; [auto|].
  intros (-> & n & Hn & Hh & Hc). split; [reflexivity|].
  exists (shift_node o n). rewrite zget_fmap, Hn. split; [reflexivity|].
  split; [exact Hh|]. apply IH, Hc.
Qed.

Lemma ShiftOrigin_keeps s ot o s' :
  tree_ok s ot [] -> ShiftOrigin o s = Some (tt, s') ->
  s' = with_nodes (shift_node o <$> m_nodes s) s /\
  tree_ok s' (tshift o <$> ot) [].
Proof.
  intros [[fl Har] Hot] Hrun.
  rewrite ShiftOrigin_run in Hrun by apply Har. injection Hrun as <-.
  split; [reflexivity|].
  destruct s as [root ns cnt cap fl0 ic]. destruct Har as [Hlen Hpos Hch Hperm Hcnt]. tree_red.
  split.
  - exists fl. split; tree_red.
    + rewrite length_fmap. exact Hlen.
    + exact Hpos.
    + apply free_chain_shift, Hch.
    + destruct ot as [t|]; cbn [fmap option_fmap option_map opt_ids] in *;
        rewrite ?ids_tshift; exact Hperm.
    + destruct ot as [t|]; cbn [fmap option_fmap option_map opt_ids] in *;
        rewrite ?ids_tshift; exact Hcnt.
  - destruct ot as [t|]; cbn [fmap option_fmap option_map]; [|exact Hot].
    destruct Hot as [Hr Hwf]. rewrite root_of_tshift. split; [exact Hr|].
    apply wf_shift, Hwf.
Qed.

Lemma leaf_ids_tshift o ot :
  leaf_id <$> opt_leaves (tshift o <$> ot) = leaf_id <$> opt_leaves ot.
Proof.
  destruct ot as [t|]; [|reflexivity]. cbn [fmap option_fmap option_map opt_leaves].
  rewrite leaves_tshift, <- list_fmap_compose. apply list_fmap_ext.
  intros _ [[[k b] d] m] _. reflexivity.
Qed.

(** The states of a sequence of operations of the tree hold a tree whose
    leaves are the proxies that exist. *)
Lemma tree_trace_ok live s :
  tree_trace live s ->
  exists ot, tree_ok s ot [] /\ leaf_id <$> opt_leaves ot ≡ₚ live.
Proof.
  induction 1 as [|live s fuel box data id s' _ (ot & Hok & Hlive) Hrun
                  |live live' s fuel id s' _ (ot & Hok & Hlive) Hperm Hrun
                  |live s fuel id box d r s' _ (ot & Hok & Hlive) Hin Hrun
                  |live s id s' _ (ot & Hok & Hlive) Hin Hrun
                  |live s o s' _ (ot & Hok & Hlive) Hrun].
  - exists None. split; [apply tree_ok_new|reflexivity].
  - destruct (CreateProxy_keeps _ _ _ _ _ _ _ Hok Hrun) as (t' & Hok' & Hpl & _).
    exists (Some t'). split; [exact Hok'|]. cbn [opt_leaves]. rewrite Hpl.
    cbn [fmap list_fmap leaf_id fst]. rewrite Hlive. reflexivity.
  - destruct (live_leaf_in ot live id Hlive) as (t & b & dt & m & -> & Hin);
      [rewrite Hperm; left|].
    destruct (DestroyProxy_keeps _ _ _ _ _ _ _ _ Hok Hin Hrun) as (ot' & Hok' & Hpl).
    exists ot'. split; [exact Hok'|]. cbn [opt_leaves] in Hlive.
    rewrite <- Hpl in Hlive. cbn [fmap list_fmap leaf_id fst] in Hlive.
    rewrite Hperm in Hlive. eapply Permutation_cons_inv. exact Hlive.
  - destruct (live_leaf_in ot live id Hlive Hin) as (t & b & dt & m & -> & Hin').
    pose proof (MoveProxy_keeps _ _ _ _ _ _ _ _ _ _ _ Hok Hin' Hrun) as Hpost.
    destruct (Contains b box && Contains (hugeAABB_of (predicted_fatAABB box d)) b).
    + destruct Hpost as [_ ->]. exists (Some t). split; [exact Hok|exact Hlive].
    + destruct Hpost as (_ & t' & rest & Hok' & Hp1 & Hp2).
      exists (Some t'). split; [exact Hok'|]. cbn [opt_leaves] in *.
      rewrite Hp2. rewrite Hp1 in Hlive. exact Hlive.
  - destruct (live_leaf_in ot live id Hlive Hin) as (t & b & dt & m & -> & Hin').
    destruct (wp_result _ _ _ _ _ (ClearMoved_spec s (Some t) id b dt m Hok Hin') Hrun)
      as (ot' & Hok' & Hpl & _).
    exists ot'. split; [exact Hok'|]. rewrite Hpl. exact Hlive.
  - destruct (ShiftOrigin_keeps _ _ _ _ Hok Hrun) as [_ Hok'].
    exists (tshift o <$> ot). split; [exact Hok'|]. rewrite leaf_ids_tshift. exact Hlive.
Qed.

Lemma proxy_trace_tree_trace live s : proxy_trace live s -> tree_trace live s.
Proof.
  induction 1; [apply tree_new|eapply tree_create|eapply tree_destroy|eapply tree_move];
    eassumption.
Qed.

Lemma tree_trace_leaf live s id :
  tree_trace live s -> id ∈ live ->
  exists t box data mv,
    tree_ok s (Some t) [] /\ (id, box, data, mv) ∈ leaves t /\
    m_nodeCount s = Z.of_nat (length (ids t)).
Proof.
  intros (ot & Hok & Hlive)%tree_trace_ok Hin.
  destruct (live_leaf_in ot live id Hlive Hin) as (t & b & dt & m & -> & Hl).
  exists t, b, dt, m. split; [exact Hok|]. split; [exact Hl|].
  destruct Hok as ((fl & Hok) & _). exact (ar_count _ _ _ Hok).
Qed.

(** The tree of the broad-phase goes through a sequence of operations of
    the tree. *)
Lemma UpdatePairs_tree_trace live fuel b calls b' :
  tree_trace live (m_tree b) ->
  (forall i id, 0 <= i < m_moveCount b -> zget (m_moveBuffer b) i = Some id ->
                id = e_nullProxy \/ id ∈ live) ->
  UpdatePairs fuel b = Some (calls, b') ->
  tree_trace live (m_tree b').
Proof.
  intros Htr Hbuf H. unfold UpdatePairs in H. minv_all H.
  rename s1 into s3, s0 into s2, s into s1. destruct a0, a2.
  assert (H1 : same_moves b s1).
  { eapply (for_range_post (fun _ s => same_moves b s)); [|clear|exact Hrun].
    - repeat split; reflexivity.
    - intros i sa sb _ Hsa Hbody. minv Hbody.
      destruct (zget (m_moveBuffer sa) i) as [id|]; [|minv Hbody]. minv Hbody.
      assert (Hsa' : same_moves b (with_queryProxyId id sa)) by exact Hsa.
      destruct (id =? e_nullProxy).
      { minv_all Hbody. exact Hsa'. }
      minv Hbody. inv_reads. unfold Query in Hbody. minv Hbody.
      match type of Hbody with _ = Some (?u, _) => destruct u end.
      eapply (Query_loop_keeps (same_moves b)); [|exact Hsa'|exact Hbody].
      intros j sc r sd. apply QueryCallback_same_moves. }
  assert (H2 : same_moves b s2).
  { eapply (for_collect_keeps (same_moves b)); [clear|exact H1|exact Hrun0].
    intros i sa r sb Hsa Hbody. minv Hbody.
    destruct (zget (m_pairBuffer sa) i) as [pr|]; [|minv Hbody]. minv_all Hbody.
    inv_reads. exact Hsa. }
  destruct H2 as (H2t & H2b & H2c).
  set (I := fun (i : Z) (s : b2BroadPhase) =>
              m_moveBuffer s = m_moveBuffer b /\ tree_trace live (m_tree s)).
  assert (H3 : I (Z.max 0 (m_moveCount b)) s3).
  { rewrite H2c in Hrun1.
    eapply (for_range_post I); [|clear -I Hbuf|exact Hrun1].
    - split; [exact H2b|]. rewrite H2t. exact Htr.
    - intros i sa sb Hi (Hb & Ht) Hbody. minv Hbody.
      rewrite Hb in Hbody.
      destruct (zget (m_moveBuffer b) i) as [id|] eqn:Hid; [|minv Hbody].
      destruct (Z.eqb_spec id e_nullProxy) as [->|Hnn].
      + minv_all Hbody. split; assumption.
      + apply on_tree_Some in Hbody as (t & Hclr & ->).
        split; [exact Hb|]. cbn [m_tree with_tree].
        destruct (Hbuf i id Hi Hid) as [?|Hin]; [contradiction|].
        eapply tree_clear; [exact Ht|exact Hin|exact Hclr]. }
  destruct H3 as (_ & H3). exact H3.
Qed.

Lemma BufferMove_tree id b u b' :
  BufferMove id b = Some (u, b') -> m_tree b' = m_tree b.
Proof.
  unfold BufferMove. intros H. minv H.
  assert (Ht : m_tree s = m_tree b).
  { destruct (m_moveCount b =? m_moveCapacity b); minv_all Hrun; reflexivity. }
  destruct (zset _ _ _); [|minv H]. minv_all H. exact Ht.
Qed.

Lemma UnBufferMove_tree id b u b' :
  UnBufferMove id b = Some (u, b') -> m_tree b' = m_tree b.
Proof.
  unfold UnBufferMove. intros H. minv H. destruct u.
  eapply (for_range_post (fun _ s => m_tree s = m_tree b)); [reflexivity|clear|exact H].
  intros i s1 s2 _ Ht Hbody. minv Hbody.
  destruct (zget _ i) as [x|]; [|minv Hbody].
  destruct (x =? id); [|minv_all Hbody; exact Ht].
  destruct (zset _ _ _); [|minv Hbody]. minv_all Hbody. exact Ht.
Qed.

Lemma bp_trace_tree_trace live b : bp_trace live b -> tree_trace live (m_tree b).
Proof.
  induction 1 as [|live b fuel box data id b' Hb IH Hrun
                  |live live' b fuel id b' Hb IH Hperm Hrun
                  |live b fuel id box d b' Hb IH Hin Hrun
                  |live b id b' Hb IH Hin Hrun
                  |live b fuel calls b' Hb IH Hrun].
  - apply tree_new.
  - unfold BP_CreateProxy in Hrun. minv Hrun.
    apply on_tree_Some in Hrun0 as (t & Hc & ->). minv_all Hrun.
    apply BufferMove_tree in Hrun1. rewrite Hrun1. cbn [m_tree with_tree with_proxyCount].
    eapply tree_create; eassumption.
  - unfold BP_DestroyProxy in Hrun. minv Hrun.
    apply UnBufferMove_tree in Hrun0.
    apply on_tree_Some in Hrun as (t & Hd & ->).
    assert (E : m_tree (with_proxyCount (m_proxyCount s - 1) s) = m_tree b)
      by (destruct s; exact Hrun0).
    rewrite E in Hd.
    replace (m_tree (with_tree t (with_proxyCount (m_proxyCount s - 1) s))) with t
      by (destruct s; reflexivity).
    eapply tree_destroy; eassumption.
  - unfold BP_MoveProxy in Hrun. minv Hrun.
    apply on_tree_Some in Hrun0 as (t & Hm & ->).
    assert (Ht : tree_trace live t) by (eapply tree_move; eassumption).
    assert (E : m_tree (with_tree t b) = t) by (destruct b; reflexivity).
    destruct a.
    + apply BufferMove_tree in Hrun. rewrite Hrun, E. exact Ht.
    + minv_all Hrun. rewrite E. exact Ht.
  - unfold TouchProxy in Hrun. apply BufferMove_tree in Hrun. rewrite Hrun. exact IH.
  - eapply UpdatePairs_tree_trace; [exact IH| |exact Hrun].
    apply bp_trace_ok in Hb as (_ & (_ & _ & _ & Hmv) & _). exact Hmv.
Qed.

(** ** The claims on the heights and the boxes of the tree *)

(** C5 (amended).  After any sequence of [CreateProxy], of [DestroyProxy]
    on existing proxies and of [MoveProxy] on existing proxies, every node
    that is not on the free list satisfies: a leaf has height 0; the AABB
    of an internal node contains the union of its children's AABBs and its
    height is 1 + max of its children's heights. *)
Theorem proxy_trace_nodes_inv :
  forall (live : list Z) (s : b2DynamicTree),
    proxy_trace live s ->
    forall j n,
      zget (m_nodes s) j = Some n -> j ∉ free_list s -> node_inv (m_nodes s) n.
Proof.
  intros live s (ot & Hok & _)%proxy_trace_ok. exact (tree_ok_nodes_inv s ot Hok).
Qed.

Lemma proxy_trace_nodes_inv_witness :
  exists s,
    run_proxy_calls 10
      [CallCreateProxy (unit_box 0 0) 0; CallCreateProxy (unit_box 10 0) 0;
       CallCreateProxy (unit_box 0 1) 0; CallMoveProxy 1 (unit_box 10 0) (mkVec2 0 0);
       CallDestroyProxy 0; CallMoveProxy 3 (unit_box 20 0) (mkVec2 (-1) 0)]
      b2DynamicTree_new = Some (tt, s) /\
    proxy_trace [3; 1] s /\
    forall j n, zget (m_nodes s) j = Some n -> j ∉ free_list s -> node_inv (m_nodes s) n.
Proof.
  eexists. split; [vm_compute; reflexivity|].
  match goal with |- proxy_trace ?l ?s0 /\ _ => assert (Hs : proxy_trace l s0) end.
  { eapply (trace_move [3; 1] _ 10 3 (unit_box 20 0) (mkVec2 (-1) 0) true).
    - eapply (trace_destroy [3; 1; 0] [3; 1] _ 10 0).
      + eapply (trace_move [3; 1; 0] _ 10 1 (unit_box 10 0) (mkVec2 0 0) false).
        * eapply (trace_create [1; 0] _ 10 (unit_box 0 1) 0 3).
          -- eapply (trace_create [0] _ 10 (unit_box 10 0) 0 1).
             ++ eapply (trace_create [] _ 10 (unit_box 0 0) 0 0); [apply trace_new|].
                vm_compute. reflexivity.
             ++ vm_compute. reflexivity.
          -- vm_compute. reflexivity.
        * right. left.
        * vm_compute. reflexivity.
      + solve_Permutation.
      + vm_compute. reflexivity.
    - left.
    - vm_compute. reflexivity. }
  split; [exact Hs|]. exact (proxy_trace_nodes_inv _ _ Hs).
Defined.

(** C5 as stated fails.  [DestroyProxy] frees proxy 0 and the later
    [MoveProxy] on proxy 0 passes both assertions of [MoveProxy] (the index
    is in range and the freed node still has no children): its [RemoveLeaf]
    takes the [next] field of the freed node for a parent and walks the
    free list as if it were a path to the root.  Node 5 ends with height 1,
    children 0 and 1 and off the free list; the AABB it received in that
    walk does not contain the AABB that node 0 was given afterwards. *)
Lemma proxy_calls_move_after_destroy :
  exists s n,
    run_proxy_calls 20
      [CallCreateProxy (unit_box 0 0) 0; CallCreateProxy (unit_box 0 0) 0;
       CallCreateProxy (unit_box 5 5) 0; CallDestroyProxy 0;
       CallMoveProxy 0 (unit_box 10 0) (mkVec2 0 0)]
      b2DynamicTree_new = Some (tt, s) /\
    zget (m_nodes s) 5 = Some n /\ (5 ∉ free_list s) /\ height n = 1 /\
    ~ node_inv (m_nodes s) n.
Proof.
  eexists _, _. split; [vm_compute; reflexivity|].
  split; [vm_compute; reflexivity|]. split; [|split; [reflexivity|]].
  - vm_compute free_list. intros Hin.
    repeat (apply elem_of_cons in Hin as [Hin|Hin]; [discriminate Hin|]).
    inversion Hin.
  - unfold node_inv. intros (n1 & n2 & H1 & H2 & Hc & _).
    vm_compute in H1, H2. injection H1 as <-. injection H2 as <-.
    vm_compute in Hc. discriminate Hc.
Qed.

Lemma flt_scaled q : flt (b2_aabbMultiplier * q) 0 = flt q 0.
Proof.
  unfold b2_aabbMultiplier.
  destruct (flt q 0) eqn:E.
  - apply flt_true in E. apply flt_true. lra.
  - apply flt_false in E. apply flt_false. lra.
Qed.

Lemma predicted_fatAABB_claimed box d : predicted_fatAABB box d = claimed_fatAABB box d.
Proof.
  unfold predicted_fatAABB, claimed_fatAABB. cbv zeta. cbn [vscale x y].
  rewrite !flt_scaled. reflexivity.
Qed.

Lemma proxy_trace_leaf live s id :
  proxy_trace live s -> id ∈ live ->
  exists t box data mv,
    tree_ok s (Some t) [] /\ (id, box, data, mv) ∈ leaves t /\
    m_nodeCount s = Z.of_nat (length (ids t)).
Proof.
  intros (ot & Hok & Hlive)%proxy_trace_ok Hin.
  rewrite <- Hlive in Hin.
  apply list_elem_of_fmap in Hin as ([[[k b] dt] m] & E & Hin). cbn in E. subst k.
  destruct ot as [t|]; [|inversion Hin].
  exists t, b, dt, m. split; [exact Hok|]. split; [exact Hin|].
  destruct Hok as ((fl & Hok) & _). exact (ar_count _ _ _ Hok).
Qed.

Lemma Contains_fattened a : Contains (fattened a) a = true.
Proof.
  apply Contains_true. unfold fattened, b2_aabbExtension.
  cbn [lowerBound upperBound vsub vadd x y]. repeat split; lra.
Qed.

Lemma Contains_huge_fattened a :
  Contains (hugeAABB_of (predicted_fatAABB a (mkVec2 0 0))) (fattened a) = true.
Proof.
  apply Contains_true. unfold hugeAABB_of, predicted_fatAABB, fattened. cbv zeta.
  cbn [vscale x y]. replace (flt (b2_aabbMultiplier * 0) 0) with false by reflexivity.
  unfold b2_aabbExtension, b2_aabbMultiplier.
  cbn [lowerBound upperBound vsub vadd vscale x y]. repeat split; lra.
Qed.

(** The code's [hugeAABB] is the fat AABB of the claims inflated by four
    times [b2_aabbExtension] on all sides. *)
Lemma hugeAABB_of_inflated box d :
  hugeAABB_of (predicted_fatAABB box d)
  = inflated (4 * b2_aabbExtension) (claimed_fatAABB box d).
Proof. rewrite predicted_fatAABB_claimed. reflexivity. Qed.

Lemma MoveProxy_decides live s id n box d fuel :
  tree_trace live s -> id ∈ live -> zget (m_nodes s) id = Some n ->
  (Z.to_nat (m_nodeCount s) + 2 <= fuel)%nat ->
  exists r s',
    MoveProxy fuel id box d s = Some (r, s') /\
    (r = false <->
       Contains (aabb n) box = true /\
       Contains (inflated (4 * b2_aabbExtension) (claimed_fatAABB box d)) (aabb n) = true) /\
    (r = false -> s' = s).
Proof.
  intros Htr Hin Hn Hfuel.
  destruct (tree_trace_leaf _ _ _ Htr Hin) as (t & b & dt & m & Hok & Hl & Hcnt).
  pose proof Hok as (_ & _ & Hw).
  destruct (wf_leaf _ _ _ _ _ _ _ Hw Hl) as (_ & p & Hn').
  rewrite Hn in Hn'. injection Hn' as ->. cbn [aabb].
  destruct (MoveProxy_spec s t id b dt m fuel box d Hok Hl ltac:(lia))
    as (r & s' & Hrun & Hpost).
  exists r, s'. split; [exact Hrun|].
  rewrite <- hugeAABB_of_inflated.
  destruct (Contains b box); destruct (Contains (hugeAABB_of (predicted_fatAABB box d)) b);
    cbn [andb] in Hpost.
  - destruct Hpost as [-> ->]. tauto.
  - destruct Hpost as [-> _]. split; [split; [discriminate|]|discriminate].
    intros [_ H]. discriminate H.
  - destruct Hpost as [-> _]. split; [split; [discriminate|]|discriminate].
    intros [H _]. discriminate H.
  - destruct Hpost as [-> _]. split; [split; [discriminate|]|discriminate].
    intros [H _]. discriminate H.
Qed.

Lemma MoveProxy_after_create live s fuel a data id s1 fuel' :
  tree_trace live s -> CreateProxy fuel a data s = Some (id, s1) ->
  MoveProxy fuel' id a (mkVec2 0 0) s1 = Some (false, s1).
Proof.
  intros Htr Hrun.
  destruct (tree_trace_ok _ _ Htr) as (ot & Hok & _).
  destruct (CreateProxy_keeps _ _ _ _ _ _ _ Hok Hrun) as (t' & Hok' & Hpl & _).
  assert (Hl : (id, fattened a, data, true) ∈ leaves t') by (rewrite Hpl; left).
  pose proof Hok' as ((fl & Hok0) & _ & Hw).
  destruct (wf_leaf _ _ _ _ _ _ _ Hw Hl) as (_ & p & Hn).
  pose proof (zget_Some_range _ _ _ Hn) as Hr.
  pose proof (ar_len _ _ _ Hok0) as Hlen.
  assert (Hwp : wp (MoveProxy fuel' id a (mkVec2 0 0)) s1 (fun r s' => r = false /\ s' = s1)).
  { unfold MoveProxy. do 8 wp_step. cbv zeta. wp_step. wp_step. node_red.
    rewrite Contains_fattened, Contains_huge_fattened. wp_step. split; reflexivity. }
  destruct Hwp as (r & s' & Hrun' & -> & ->). exact Hrun'.
Qed.

(** C2.  In a state reached by operations of the tree (creations,
    destructions, moves, cleared moved flags, shifts of the origin: the
    trees of a broad-phase are among them) and for an existing proxy [id]
    whose node stores the AABB [aabb n]: [MoveProxy] returns, and it returns
    false exactly when the stored AABB contains the new one and the new fat
    AABB, inflated by four times [b2_aabbExtension] on all sides, contains
    the stored one; the state is then unchanged.  And [MoveProxy] with no
    displacement and the AABB [a] that a proxy has been created with
    returns false and leaves the state as it is: right after the creation,
    and later for as long as the node stores the AABB of the creation. *)
Theorem MoveProxy_false_iff :
  forall (live : list Z) (s : b2DynamicTree),
    tree_trace live s ->
    (forall id n box d fuel,
       id ∈ live -> zget (m_nodes s) id = Some n ->
       (Z.to_nat (m_nodeCount s) + 2 <= fuel)%nat ->
       exists r s',
         MoveProxy fuel id box d s = Some (r, s') /\
         (r = false <->
            Contains (aabb n) box = true /\
            Contains (inflated (4 * b2_aabbExtension) (claimed_fatAABB box d)) (aabb n)
              = true) /\
         (r = false -> s' = s)) /\
    (forall fuel a data id s1,
       CreateProxy fuel a data s = Some (id, s1) ->
       forall fuel', MoveProxy fuel' id a (mkVec2 0 0) s1 = Some (false, s1)) /\
    (forall id n a fuel,
       id ∈ live -> zget (m_nodes s) id = Some n -> aabb n = fattened a ->
       (Z.to_nat (m_nodeCount s) + 2 <= fuel)%nat ->
       MoveProxy fuel id a (mkVec2 0 0) s = Some (false, s)).
Proof.
  intros live s Htr. split; [|split].
  - intros id n box d fuel. apply MoveProxy_decides. exact Htr.
  - intros fuel a data id s1 Hrun fuel'. eapply MoveProxy_after_create; eassumption.
  - intros id n a fuel Hin Hn Ha Hfuel.
    destruct (MoveProxy_decides live s id n a (mkVec2 0 0) fuel Htr Hin Hn Hfuel)
      as (r & s' & Hrun & Hiff & Hsame).
    assert (Hr : r = false).
    { apply Hiff. rewrite Ha, <- hugeAABB_of_inflated.
      split; [apply Contains_fattened|apply Contains_huge_fattened]. }
    rewrite Hrun, (Hsame Hr), Hr. reflexivity.
Qed.

(** A proxy created with the unit square, its flag cleared, and moved to a
    smaller box inside it: the stored AABB is not inside the new fat AABB,
    it is inside the inflated one, and [MoveProxy] returns false. *)
Lemma MoveProxy_false_iff_witness :
  let box := mkAABB (mkVec2 (1 # 5) (1 # 5)) (mkVec2 (9 # 10) (9 # 10)) in
  exists s n,
    (CreateProxy 5 (unit_box 0 0) 0 >> ClearMoved 0) b2DynamicTree_new = Some (tt, s) /\
    tree_trace [0] s /\ zget (m_nodes s) 0 = Some n /\
    Contains (claimed_fatAABB box (mkVec2 0 0)) (aabb n) = false /\
    exists r s',
      MoveProxy 5 0 box (mkVec2 0 0) s = Some (r, s') /\
      (r = false <->
         Contains (aabb n) box = true /\
         Contains (inflated (4 * b2_aabbExtension) (claimed_fatAABB box (mkVec2 0 0))) (aabb n)
           = true) /\
      (r = false -> s' = s) /\ r = false.
Proof.
  intros box.
  eexists _, _. split; [vm_compute; reflexivity|].
  match goal with |- tree_trace ?l ?s0 /\ _ => assert (Hs : tree_trace l s0) end.
  { eapply (tree_clear [0] _ 0);
      [eapply (tree_create [] _ 5 (unit_box 0 0) 0 0);
         [apply tree_new|vm_compute; reflexivity]
      |left|vm_compute; reflexivity]. }
  split; [exact Hs|].
  split; [vm_compute; reflexivity|].
  match goal with
  | |- Contains _ (aabb ?n) = false /\ _ =>
      destruct (proj1 (MoveProxy_false_iff _ _ Hs) 0 n box (mkVec2 0 0) 5%nat)
        as (r & s' & Hrun & Hiff & Hsame); [left|vm_compute; reflexivity|vm_compute; lia|]
  end.
  split; [vm_compute; reflexivity|].
  exists r, s'. split; [exact Hrun|]. split; [exact Hiff|]. split; [exact Hsame|].
  apply Hiff. split; vm_compute; reflexivity.
Defined.

(** C3.  In a state reached by operations of the tree (creations,
    destructions, moves, cleared moved flags, shifts of the origin: the
    trees of a broad-phase are among them) and for an existing proxy [id],
    whatever its moved flag: when [MoveProxy] returns true the node of the
    proxy holds the new AABB inflated by [b2_aabbExtension] on all sides and
    extended on each axis on one side only (the lower bound decreased by
    [b2_aabbMultiplier] times the displacement when that is negative, the
    upper bound increased by it otherwise), and its moved flag is set. *)
Theorem MoveProxy_true_stores_prediction :
  forall (live : list Z) (s s' : b2DynamicTree) id box d fuel,
    tree_trace live s -> id ∈ live ->
    MoveProxy fuel id box d s = Some (true, s') ->
    exists n',
      zget (m_nodes s') id = Some n' /\
      aabb n' = claimed_fatAABB box d /\ moved n' = true.
Proof.
  intros live s s' id box d fuel Htr Hin Hrun.
  destruct (tree_trace_leaf _ _ _ Htr Hin) as (t & b & dt & m & Hok & Hl & Hcnt).
  pose proof (MoveProxy_keeps _ _ _ _ _ _ _ _ _ _ _ Hok Hl Hrun) as Hpost.
  destruct (Contains b box && Contains (hugeAABB_of (predicted_fatAABB box d)) b).
  - destruct Hpost as [Hf _]. discriminate Hf.
  - destruct Hpost as (_ & t' & rest & Hok' & _ & Hp2).
    assert (Hl' : (id, predicted_fatAABB box d, dt, true) ∈ leaves t') by (rewrite Hp2; left).
    destruct Hok' as (_ & _ & Hw').
    destruct (wf_leaf _ _ _ _ _ _ _ Hw' Hl') as (_ & p & Hn).
    eexists. split; [exact Hn|]. split; [apply predicted_fatAABB_claimed|reflexivity].
Qed.

(** A proxy whose moved flag has been cleared, then moved away. *)
Lemma MoveProxy_true_stores_prediction_witness :
  exists s s',
    (CreateProxy 5 (unit_box 0 0) 0 >> ClearMoved 0) b2DynamicTree_new = Some (tt, s) /\
    tree_trace [0] s /\
    WasMoved 0 s = Some (false, s) /\
    MoveProxy 5 0 (unit_box 3 0) (mkVec2 (-1) 2) s = Some (true, s') /\
    exists n',
      zget (m_nodes s') 0 = Some n' /\
      aabb n' = claimed_fatAABB (unit_box 3 0) (mkVec2 (-1) 2) /\ moved n' = true.
Proof.
  eexists _, _. split; [vm_compute; reflexivity|].
  match goal with |- tree_trace ?l ?s0 /\ _ => assert (Hs : tree_trace l s0) end.
  { eapply (tree_clear [0] _ 0);
      [eapply (tree_create [] _ 5 (unit_box 0 0) 0 0);
         [apply tree_new|vm_compute; reflexivity]
      |left|vm_compute; reflexivity]. }
  split; [exact Hs|]. split; [vm_compute; reflexivity|].
  match goal with
  | |- ?R /\ _ => assert (Hrun : R) by (vm_compute; reflexivity)
  end.
  split; [exact Hrun|].
  exact (MoveProxy_true_stores_prediction _ _ _ _ _ _ _ Hs ltac:(left) Hrun).
Defined.

(** ** [ComputeHeight] and [GetHeight] *)

Lemma ComputeHeight_from_spec s t : forall p fuel,
  wf (m_nodes s) p t -> Z.of_nat (length (m_nodes s)) = m_nodeCapacity s ->
  theight t < Z.of_nat fuel ->
  ComputeHeight_from fuel (root_of t) s = Some (theight t, s).
Proof.
  induction t as [i b d m|i l IHl r IHr]; intros p fuel Hw Hlen Hfuel.
  - destruct fuel as [|fuel]; [cbn in Hfuel; lia|].
    cbn [wf root_of theight] in *. pose proof (zget_Some_range _ _ _ Hw) as Hr.
    assert (Hwp : wp (ComputeHeight_from (S fuel) i) s (fun h s' => h = 0 /\ s' = s)).
    { cbn [ComputeHeight_from]. do 6 wp_step.
      replace (IsLeaf _) with true by reflexivity. wp_step. split; reflexivity. }
    destruct Hwp as (h & s' & Hrun & -> & ->). exact Hrun.
  - destruct fuel as [|fuel]; [pose proof (theight_nonneg (Nd i l r)); lia|].
    cbn [wf root_of theight] in *.
    destruct Hw as ((n & nl & nr & Hn & Hnl & Hnr & Hp & Hc1 & Hc2 & Hh & Ha) & Hl & Hr).
    pose proof (zget_Some_range _ _ _ Hn) as Hri.
    pose proof (zget_Some_range _ _ _ Hnl) as Hrl.
    assert (Hwp : wp (ComputeHeight_from (S fuel) i) s (fun h s' =>
              h = 1 + Z.max (theight l) (theight r) /\ s' = s)).
    { cbn [ComputeHeight_from]. do 6 wp_step.
      replace (IsLeaf n) with false
        by (symmetry; unfold IsLeaf; apply Z.eqb_neq; unfold b2_nullNode; lia).
      rewrite Hc1, Hc2. wp_step.
      eapply wp_run; [apply (IHl i fuel Hl Hlen); lia|]. wp_step.
      eapply wp_run; [apply (IHr i fuel Hr Hlen); lia|]. wp_step.
      split; [rewrite b2Max_spec; reflexivity|reflexivity]. }
    destruct Hwp as (h & s' & Hrun & -> & ->). exact Hrun.
Qed.

(** C6 on the empty tree: [ComputeHeight()] calls [ComputeHeight(m_root)]
    with the null root, which fails the assertion on the node index, while
    [GetHeight] returns 0. *)
Theorem ComputeHeight_empty_tree :
  (forall fuel, ComputeHeight fuel b2DynamicTree_new = None) /\
  GetHeight b2DynamicTree_new = Some (0, b2DynamicTree_new).
Proof.
  split; [|reflexivity]. intros [|fuel]; reflexivity.
Qed.

(** On a tree that holds a proxy, [ComputeHeight] returns what [GetHeight]
    returns. *)
Theorem ComputeHeight_GetHeight :
  forall (live : list Z) (s : b2DynamicTree) fuel,
    proxy_trace live s -> live <> [] ->
    (Z.to_nat (m_nodeCount s) <= fuel)%nat ->
    exists h, ComputeHeight fuel s = Some (h, s) /\ GetHeight s = Some (h, s).
Proof.
  intros live s fuel Htr Hne Hfuel.
  destruct live as [|id live]; [congruence|].
  destruct (proxy_trace_leaf _ _ id Htr ltac:(left)) as (t & b & dt & m & Hok & Hl & Hcnt).
  destruct Hok as ((fl & Hok) & Hrt & Hw).
  pose proof (theight_lt_ids t) as Hh.
  exists (theight t). split.
  - unfold ComputeHeight, bind, get. rewrite Hrt.
    apply (ComputeHeight_from_spec s t b2_nullNode fuel Hw (ar_len _ _ _ Hok)). lia.
  - destruct (wf_root _ _ _ Hw) as (n & Hn & _ & Hhn & _).
    pose proof (zget_Some_range _ _ _ Hn) as Hr.
    unfold GetHeight, bind, get. rewrite Hrt.
    replace (root_of t =? b2_nullNode) with false
      by (symmetry; apply Z.eqb_neq; unfold b2_nullNode; lia).
    unfold fld, node, bind, ret. rewrite Hn, Hhn. reflexivity.
Qed.

Lemma ComputeHeight_GetHeight_witness :
  exists s,
    run_proxy_calls 5 [CallCreateProxy (unit_box 0 0) 0; CallCreateProxy (unit_box 4 0) 0]
      b2DynamicTree_new = Some (tt, s) /\
    ComputeHeight 3 s = Some (1, s) /\ GetHeight s = Some (1, s).
Proof.
  eexists. split; [vm_compute; reflexivity|].
  match goal with
  | |- ComputeHeight _ ?s0 = _ /\ _ => assert (Hs : proxy_trace [1; 0] s0)
  end.
  { eapply (trace_create [0] _ 5 (unit_box 4 0) 0 1).
    - eapply (trace_create [] _ 5 (unit_box 0 0) 0 0); [apply trace_new|].
      vm_compute. reflexivity.
    - vm_compute. reflexivity. }
  destruct (ComputeHeight_GetHeight _ _ 3%nat Hs ltac:(discriminate) ltac:(vm_compute; lia))
    as (h & Hc & Hg).
  assert (h = 1) as -> by (vm_compute in Hg; congruence).
  split; assumption.
Defined.
(** ** More on boxes *)

Lemma IsValid_true a :
  IsValid a = true <->
  (x (lowerBound a) <= x (upperBound a))%Q /\ (y (lowerBound a) <= y (upperBound a))%Q.
Proof.
  unfold IsValid, vIsValid. cbn [vsub x y]. rewrite !andb_true_r, andb_true_iff, !fle_true.
  split; intros [H1 H2]; split; lra.
Qed.

Lemma b2TestOverlap_true a b :
  b2TestOverlap a b = true <->
  (x (lowerBound b) <= x (upperBound a))%Q /\ (y (lowerBound b) <= y (upperBound a))%Q /\
  (x (lowerBound a) <= x (upperBound b))%Q /\ (y (lowerBound a) <= y (upperBound b))%Q.
Proof.
  rewrite <- not_false_iff_true, b2TestOverlap_false.
  unfold gap_x, gap_y. rewrite !Qmax_pos. split.
  - intros H. repeat split; apply Qnot_lt_le; intros G; apply H; [left; left|right; left|left; right|right; right]; lra.
  - intros (H1 & H2 & H3 & H4) [[G|G]|[G|G]]; lra.
Qed.

(** [Combine] gives the least box that contains its two arguments. *)
Theorem Combine_least_upper_bound :
  forall a b : b2AABB,
    Contains (Combine a b) a = true /\
    Contains (Combine a b) b = true /\
    (forall c, Contains c a = true -> Contains c b = true ->
               Contains c (Combine a b) = true) /\
    Combine_into a b = Combine a b.
Proof.
  intros a b. rewrite !Contains_true. cbn [Combine lowerBound upperBound vmin vmax x y].
  pose proof (b2MinF_le (x (lowerBound a)) (x (lowerBound b))).
  pose proof (b2MinF_le (y (lowerBound a)) (y (lowerBound b))).
  pose proof (b2MaxF_ge (x (upperBound a)) (x (upperBound b))).
  pose proof (b2MaxF_ge (y (upperBound a)) (y (upperBound b))).
  split; [tauto|]. split; [tauto|]. split; [|reflexivity].
  intros c. rewrite !Contains_true. cbn [Combine lowerBound upperBound vmin vmax x y].
  intros (? & ? & ? & ?) (? & ? & ? & ?).
  repeat split; first [apply b2MinF_glb|apply b2MaxF_lub]; assumption.
Qed.

(** Two valid boxes overlap exactly when they share a point. *)
Theorem b2TestOverlap_common_point :
  forall a b : b2AABB,
    IsValid a = true -> IsValid b = true ->
    (b2TestOverlap a b = true <-> exists p, inside p a /\ inside p b).
Proof.
  intros a b Ha%IsValid_true Hb%IsValid_true. rewrite b2TestOverlap_true. unfold inside. split.
  - intros (H1 & H2 & H3 & H4).
    exists (mkVec2 (Qmax (x (lowerBound a)) (x (lowerBound b)))
                   (Qmax (y (lowerBound a)) (y (lowerBound b)))).
    cbn [x y].
    pose proof (Q.le_max_l (x (lowerBound a)) (x (lowerBound b))).
    pose proof (Q.le_max_r (x (lowerBound a)) (x (lowerBound b))).
    pose proof (Q.le_max_l (y (lowerBound a)) (y (lowerBound b))).
    pose proof (Q.le_max_r (y (lowerBound a)) (y (lowerBound b))).
    repeat split; try assumption; apply Q.max_lub; tauto.
  - intros (p & [[? ?] [? ?]] & [[? ?] [? ?]]). repeat split; lra.
Qed.

Lemma b2TestOverlap_common_point_witness :
  IsValid (unit_box 0 0) = true /\ IsValid (unit_box 1 1) = true /\
  (b2TestOverlap (unit_box 0 0) (unit_box 1 1) = true <->
   exists p, inside p (unit_box 0 0) /\ inside p (unit_box 1 1)).
Proof.
  split; [reflexivity|]. split; [reflexivity|].
  apply b2TestOverlap_common_point; reflexivity.
Defined.

(** [Contains] orders the boxes, and what a box contains overlaps at most
    what the box overlaps. *)
Theorem Contains_order :
  forall a b c : b2AABB,
    Contains a a = true /\
    (Contains a b = true -> Contains b c = true -> Contains a c = true) /\
    (Contains a b = true -> b2TestOverlap b c = true -> b2TestOverlap a c = true) /\
    (Contains a b = true -> IsValid b = true ->
       IsValid a = true /\ b2TestOverlap a b = true /\
       (GetPerimeter b <= GetPerimeter a)%Q).
Proof.
  intros a b c. rewrite !Contains_true, !b2TestOverlap_true, !IsValid_true.
  unfold GetPerimeter.
  split; [repeat split; apply Qle_refl|].
  split; [intros (? & ? & ? & ?) (? & ? & ? & ?); repeat split; lra|].
  split; [intros (? & ? & ? & ?) (? & ? & ? & ?); repeat split; lra|].
  intros (? & ? & ? & ?) (? & ?). repeat split; lra.
Qed.

(** A box is its centre plus and minus its extents, and its perimeter is
    four times the sum of the extents. *)
Theorem GetCenter_GetExtents :
  forall a : b2AABB,
    let c := GetCenter a in
    let e := GetExtents a in
    (x (lowerBound a) == x c - x e /\ y (lowerBound a) == y c - y e /\
     x (upperBound a) == x c + x e /\ y (upperBound a) == y c + y e /\
     GetPerimeter a == 4 * (x e + y e))%Q /\
    (IsValid a = true <-> (0 <= x e)%Q /\ (0 <= y e)%Q).
Proof.
  intros a c e. subst c e. unfold GetCenter, GetExtents, GetPerimeter.
  rewrite IsValid_true. cbn [vscale vadd vsub x y].
  split; [repeat split; lra|].
  split; intros [? ?]; split; lra.
Qed.
(** ** The stack allocator over a run *)

Module StackRuns.
Import Stack.

(** The entries are laid out in the arena one after the other from [off];
    the ones served by the system heap take no room in it. *)
Fixpoint laid (off : Z) (es : list b2StackEntry) : Prop :=
  match es with
  | [] => True
  | e :: es =>
      0 <= size e /\
      (if usedMalloc e then exists a, data e = HeapBlock a else data e = ArenaAt off) /\
      laid (if usedMalloc e then off else off + size e) es
  end.

Record stack_inv (s : b2StackAllocator) : Prop := mkStackInv {
  si_ok : stack_ok s;
  si_count : m_entryCount s <= b2_maxStackEntries;
  si_laid : laid 0 (entries s);
  si_index : m_index s = arena_size (entries s);
  si_alloc : m_allocation s = total_size (entries s);
  si_max : m_allocation s <= m_maxAllocation s;
  si_fit : m_index s <= b2_stackSize
}.

Lemma total_size_app es e : total_size (es ++ [e]) = total_size es + size e.
Proof. unfold total_size. induction es as [|e' es IH]; cbn in *; lia. Qed.

Lemma arena_size_app es e :
  arena_size (es ++ [e]) = arena_size es + (if usedMalloc e then 0 else size e).
Proof. unfold arena_size. induction es as [|e' es IH]; cbn in *; lia. Qed.

Lemma laid_app es e : forall off,
  laid off (es ++ [e]) <->
  laid off es /\ 0 <= size e /\
  (if usedMalloc e then exists a, data e = HeapBlock a
   else data e = ArenaAt (off + arena_size es)).
Proof.
  induction es as [|e' es IH]; intros off; cbn [app laid].
  - unfold arena_size. cbn. rewrite Z.add_0_r. tauto.
  - rewrite IH. replace (arena_size (e' :: es))
      with ((if usedMalloc e' then 0 else size e') + arena_size es) by reflexivity.
    destruct (usedMalloc e'); [rewrite Z.add_0_l|rewrite Z.add_assoc]; tauto.
Qed.

Lemma arena_size_nonneg es off : laid off es -> 0 <= arena_size es.
Proof.
  revert off. induction es as [|e es IH]; intros off; cbn [laid].
  - intros _. reflexivity.
  - intros (Hs & _ & Hl). apply IH in Hl.
    change (arena_size (e :: es)) with ((if usedMalloc e then 0 else size e) + arena_size es).
    destruct (usedMalloc e); lia.
Qed.

Lemma entries_Allocate sz s p s' :
  stack_ok s -> Allocate sz s = Some (p, s') ->
  entries s' = entries s ++ [mkEntry p sz (m_index s + sz >? b2_stackSize)].
Proof.
  intros [Hlen Hpos] (_ & _ & _ & Hlt & Hc & _ & _ & Hset & _)%StackFacts.Allocate_inv.
  unfold entries. apply zset_Some in Hset as [Hr ->]. unfold upd. rewrite Hc.
  case_decide; [|lia]. replace (Z.to_nat (m_entryCount s + 1)) with (S (Z.to_nat (m_entryCount s))) by lia.
  apply take_S_insert. lia.
Qed.

Lemma entries_Free p s s' :
  Free p s = Some (tt, s') ->
  exists e, top s = Some e /\ entries s = entries s' ++ [e].
Proof.
  intros (e & Ht & _ & Hc & _ & He & _)%StackFacts.Free_inv. exists e. split; [exact Ht|].
  unfold top in Ht. destruct (0 <? m_entryCount s) eqn:E; [|discriminate]. apply Z.ltb_lt in E.
  unfold zget in Ht. case_decide; [|lia]. unfold entries. rewrite He, Hc.
  replace (Z.to_nat (m_entryCount s)) with (S (Z.to_nat (m_entryCount s - 1))) by lia.
  apply take_S_r. exact Ht.
Qed.

Lemma stack_inv_new h : stack_inv (b2StackAllocator_new h).
Proof.
  split; cbn [b2StackAllocator_new m_entryCount m_index m_allocation m_maxAllocation].
  - split; [reflexivity|cbn; lia].
  - unfold b2_maxStackEntries. lia.
  - exact I.
  - reflexivity.
  - reflexivity.
  - lia.
  - unfold b2_stackSize. lia.
Qed.

Lemma stack_inv_Allocate sz s p s' :
  stack_inv s -> 0 <= sz -> Allocate sz s = Some (p, s') -> stack_inv s'.
Proof.
  intros [Hok Hcnt Hl Hi Ha Hm Hf] Hsz Hrun.
  pose proof (entries_Allocate _ _ _ _ Hok Hrun) as He.
  pose proof (StackFacts.Allocate_inv _ _ _ _ Hrun)
    as (_ & _ & _ & Hlt & Hc & Hal & Hmax & Hset & Hfit).
  destruct Hok as [Hlen Hpos].
  split.
  - split; [|lia]. rewrite (zset_length _ _ _ _ Hset). exact Hlen.
  - lia.
  - rewrite He. apply laid_app. split; [exact Hl|]. split; [exact Hsz|]. cbn [usedMalloc data].
    destruct (m_index s + sz >? b2_stackSize).
    + destruct Hfit as [_ Hp]. unfold b2Alloc in Hp. injection Hp as -> _. eauto.
    + destruct Hfit as (_ & -> & _). rewrite Hi. reflexivity.
  - rewrite He, arena_size_app. cbn [usedMalloc size].
    destruct (m_index s + sz >? b2_stackSize); lia.
  - rewrite He, total_size_app. cbn [size]. lia.
  - rewrite Hmax, b2Max_spec. lia.
  - destruct (m_index s + sz >? b2_stackSize) eqn:E; [lia|].
    rewrite Z.gtb_ltb in E. apply Z.ltb_ge in E. lia.
Qed.

Lemma stack_inv_Free p s s' : stack_inv s -> Free p s = Some (tt, s') -> stack_inv s'.
Proof.
  intros [Hok Hcnt Hl Hi Ha Hm Hf] Hrun.
  destruct (entries_Free _ _ _ Hrun) as (e & Ht & He).
  pose proof (StackFacts.Free_inv _ _ _ Hrun) as (e' & Ht' & _ & Hc & Hal & Hes & Hmax & Hidx).
  rewrite Ht in Ht'. injection Ht' as <-.
  rewrite He in Hl, Hi, Ha. apply laid_app in Hl as (Hl & Hsz & Hd).
  rewrite arena_size_app in Hi. rewrite total_size_app in Ha.
  unfold top in Ht. destruct (0 <? m_entryCount s) eqn:E; [|discriminate]. apply Z.ltb_lt in E.
  destruct Hok as [Hlen Hpos].
  split.
  - split; [rewrite Hes; exact Hlen|lia].
  - lia.
  - exact Hl.
  - destruct (usedMalloc e); destruct Hidx as [-> _]; lia.
  - lia.
  - lia.
  - destruct (usedMalloc e); destruct Hidx as [-> _]; lia.
Qed.

Lemma reachable_inv s : reachable s -> stack_inv s.
Proof.
  induction 1 as [h|s sz p s' _ IH Hsz Hrun|s p s' _ IH Hrun].
  - apply stack_inv_new.
  - eapply stack_inv_Allocate; eauto.
  - eapply stack_inv_Free; eauto.
Qed.

Lemma laid_block es : forall off (j : nat) ej oj,
  laid off es -> es !! j = Some ej -> data ej = ArenaAt oj ->
  off <= oj /\ oj + size ej <= off + arena_size es.
Proof.
  induction es as [|e es IH]; intros off j ej oj Hl Hj Hdj; [discriminate|].
  cbn [laid] in Hl. destruct Hl as (Hs & Hd & Hl).
  change (arena_size (e :: es)) with ((if usedMalloc e then 0 else size e) + arena_size es).
  pose proof (arena_size_nonneg _ _ Hl) as Hnn.
  destruct j as [|j].
  - cbn in Hj. injection Hj as ->.
    destruct (usedMalloc ej); [destruct Hd as [a Hd]; congruence|].
    rewrite Hdj in Hd. injection Hd as Hd. lia.
  - cbn in Hj. specialize (IH _ _ _ _ Hl Hj Hdj). destruct (usedMalloc e); lia.
Qed.

Lemma laid_blocks es : forall off (i j : nat) ei ej oi oj,
  laid off es -> (i < j)%nat -> es !! i = Some ei -> es !! j = Some ej ->
  data ei = ArenaAt oi -> data ej = ArenaAt oj ->
  off <= oi /\ oi + size ei <= oj /\ oj + size ej <= off + arena_size es.
Proof.
  induction es as [|e es IH]; intros off i j ei ej oi oj Hl Hij Hi Hj Hdi Hdj.
  - discriminate.
  - cbn [laid] in Hl. destruct Hl as (Hs & Hd & Hl).
    change (arena_size (e :: es)) with ((if usedMalloc e then 0 else size e) + arena_size es).
    destruct j as [|j]; [lia|]. cbn in Hj.
    destruct i as [|i].
    + cbn in Hi. injection Hi as ->.
      destruct (usedMalloc ei); [destruct Hd as [a Hd]; congruence|].
      rewrite Hdi in Hd. injection Hd as Hd.
      pose proof (laid_block _ _ _ _ _ Hl Hj Hdj). lia.
    + cbn in Hi. specialize (IH _ i j ei ej oi oj Hl ltac:(lia) Hi Hj Hdi Hdj).
      destruct (usedMalloc e); lia.
Qed.

(** In every state of an allocator that is asked for blocks of non-negative
    sizes, [m_allocation] is the total size of the entries in use, [m_index]
    is the size of those that lie in the arena and stays within it, at most
    [b2_maxStackEntries] entries are in use, and [GetMaxAllocation] is at
    least the current total. *)
Theorem reachable_accounting :
  forall s : b2StackAllocator,
    reachable s ->
    m_allocation s = total_size (entries s) /\
    m_index s = arena_size (entries s) /\
    0 <= m_index s <= b2_stackSize /\
    Z.of_nat (length (entries s)) = m_entryCount s /\
    0 <= m_entryCount s <= b2_maxStackEntries /\
    m_allocation s <= GetMaxAllocation s.
Proof.
  intros s [[Hlen Hpos] Hcnt Hl Hi Ha Hm Hf]%reachable_inv.
  split; [exact Ha|]. split; [exact Hi|].
  split; [rewrite Hi at 1; split; [eapply arena_size_nonneg, Hl|exact Hf]|].
  split; [unfold entries; rewrite length_take; lia|].
  split; [lia|exact Hm].
Qed.

Lemma reachable_accounting_witness :
  exists p s,
    Allocate 100 (b2StackAllocator_new (mkHeap 0 [])) = Some (p, s) /\
    reachable s /\
    m_allocation s = total_size (entries s) /\
    m_index s = arena_size (entries s) /\
    0 <= m_index s <= b2_stackSize /\
    Z.of_nat (length (entries s)) = m_entryCount s /\
    0 <= m_entryCount s <= b2_maxStackEntries /\
    m_allocation s <= GetMaxAllocation s.
Proof.
  eexists _, _. split; [vm_compute; reflexivity|].
  match goal with |- reachable ?s /\ _ =>
    assert (Hr : reachable s)
      by (eapply (reach_allocate (b2StackAllocator_new (mkHeap 0 [])) 100);
          [apply reach_new|lia|vm_compute; reflexivity])
  end.
  split; [exact Hr|]. exact (reachable_accounting _ Hr).
Defined.

(** The blocks that the allocator hands out inside its arena lie within
    the arena and do not overlap: the block of an entry ends where the
    next one in the arena starts or before. *)
Theorem reachable_arena_blocks :
  forall (s : b2StackAllocator) (i j : nat) (ei ej : b2StackEntry) (oi oj : Z),
    reachable s -> (i < j)%nat ->
    entries s !! i = Some ei -> entries s !! j = Some ej ->
    data ei = ArenaAt oi -> data ej = ArenaAt oj ->
    0 <= oi /\ oi + size ei <= oj /\ oj + size ej <= m_index s /\ m_index s <= b2_stackSize.
Proof.
  intros s i j ei ej oi oj [Hok Hcnt Hl Hi Ha Hm Hf]%reachable_inv Hij Hei Hej Hdi Hdj.
  pose proof (laid_blocks _ _ _ _ _ _ _ _ Hl Hij Hei Hej Hdi Hdj). lia.
Qed.

Lemma reachable_arena_blocks_witness :
  exists s ei ej,
    (Allocate 100 >> Allocate 200000 >> Allocate 28) (b2StackAllocator_new (mkHeap 0 []))
      = Some (ArenaAt 100, s) /\
    reachable s /\
    entries s !! 0%nat = Some ei /\ entries s !! 2%nat = Some ej /\
    0 <= 0 /\ 0 + size ei <= 100 /\ 100 + size ej <= m_index s /\ m_index s <= b2_stackSize.
Proof.
  pose (s0 := b2StackAllocator_new (mkHeap 0 [])).
  destruct (Allocate 100 s0) as [[p1 s1]|] eqn:E1; [|discriminate].
  destruct (Allocate 200000 s1) as [[p2 s2]|] eqn:E2;
    [|vm_compute in E1; injection E1 as <- <-; discriminate].
  destruct (Allocate 28 s2) as [[p3 s3]|] eqn:E3;
    [|vm_compute in E1; injection E1 as <- <-; vm_compute in E2; injection E2 as <- <-;
      discriminate].
  assert (Hr : reachable s3).
  { apply (reach_allocate s2 28 p3); [|lia|exact E3].
    apply (reach_allocate s1 200000 p2); [|lia|exact E2].
    apply (reach_allocate s0 100 p1); [apply reach_new|lia|exact E1]. }
  vm_compute in E1; injection E1 as <- <-. vm_compute in E2; injection E2 as <- <-.
  vm_compute in E3; injection E3 as <- <-.
  eexists _, _, _. split; [vm_compute; reflexivity|].
  split; [exact Hr|].
  split; [vm_compute; reflexivity|]. split; [vm_compute; reflexivity|].
  apply (reachable_arena_blocks _ 0 2 _ _ 0 100 Hr);
    [apply Nat.lt_0_succ|vm_compute; reflexivity|vm_compute; reflexivity
    |reflexivity|reflexivity].
Defined.

(** The limits of the allocator: while fewer than [b2_maxStackEntries]
    entries are in use a request is served as soon as its sums stay in the
    range of [int32], with [b2_maxStackEntries] entries in use every request
    is refused; [Free] is refused on an empty stack; and the assertions of
    the destructor hold exactly when every block has been given back. *)
Theorem reachable_limits :
  forall s : b2StackAllocator,
    reachable s ->
    (forall sz, m_entryCount s < b2_maxStackEntries ->
       is_int32 sz = true -> is_int32 (m_index s + sz) = true ->
       is_int32 (m_allocation s + sz) = true ->
       exists p s', Allocate sz s = Some (p, s')) /\
    (m_entryCount s = b2_maxStackEntries -> forall sz, Allocate sz s = None) /\
    (m_entryCount s = 0 -> forall p, Free p s = None) /\
    (b2StackAllocator_delete s = Some (tt, s) <-> m_entryCount s = 0).
Proof.
  intros s Hr. pose proof (reachable_inv _ Hr) as [Hok Hcnt Hl Hi Ha Hm Hf].
  split; [|split; [|split]].
  - intros sz Hlt Hsz Hsum Hal. apply StackFacts.Allocate_total; assumption.
  - intros E sz. destruct (Allocate sz s) as [[p s']|] eqn:Hrun; [|reflexivity].
    apply StackFacts.Allocate_inv in Hrun as (_ & _ & _ & Hlt & _). lia.
  - intros E p. unfold Free, bind, get, b2Assert, fail. rewrite E. reflexivity.
  - unfold b2StackAllocator_delete, bind, get, b2Assert, ret, fail. split.
    + destruct (m_index s =? 0); [|discriminate].
      destruct (m_entryCount s =? 0) eqn:E; [|discriminate]. intros _. lia.
    + intros E. assert (m_index s = 0) as ->.
      { rewrite Hi. unfold entries. rewrite E. reflexivity. }
      rewrite E. reflexivity.
Qed.

Lemma reachable_limits_witness :
  let s := b2StackAllocator_new (mkHeap 0 []) in
  reachable s /\
  (exists p s', Allocate 8 s = Some (p, s')) /\
  Free (ArenaAt 0) s = None /\
  b2StackAllocator_delete s = Some (tt, s).
Proof.
  intros s. assert (Hr : reachable s) by apply reach_new.
  destruct (reachable_limits s Hr) as (Ha & _ & Hf & Hd).
  split; [exact Hr|].
  split; [apply Ha; [cbn; unfold b2_maxStackEntries; lia|reflexivity..]|].
  split; [apply Hf; reflexivity|].
  apply Hd. reflexivity.
Defined.

End StackRuns.
(** ** What the tree stores for a proxy *)


Lemma accessor_run {A} (f : b2TreeNode -> A) s id n :
  0 <= id < m_nodeCapacity s -> zget (m_nodes s) id = Some n ->
  (let* ok := in_capacity id in b2Assert ok >> fld f id) s = Some (f n, s).
Proof.
  intros Hr Hn. unfold in_capacity, fld, node, bind, get, ret, b2Assert. cbv beta iota.
  rewrite range_true by exact Hr. unfold ret. cbv beta iota. rewrite Hn. reflexivity.
Qed.

Lemma proxy_of_node s id n :
  0 <= id < m_nodeCapacity s -> zget (m_nodes s) id = Some n ->
  proxy_of s id = Some (aabb n, userData n, moved n).
Proof.
  intros Hr Hn. unfold proxy_of, GetFatAABB, GetUserData, WasMoved.
  rewrite !(accessor_run _ _ _ _ Hr Hn). reflexivity.
Qed.

Lemma tree_ok_range s t extra j :
  tree_ok s (Some t) extra -> j ∈ ids t -> 0 <= j < m_nodeCapacity s.
Proof.
  intros [[fl Har] _] Hj. eapply arena_range; [exact Har|].
  apply elem_of_app. right. apply elem_of_app. right. exact Hj.
Qed.

Lemma proxy_of_leaf s t id box data mv :
  tree_ok s (Some t) [] -> (id, box, data, mv) ∈ leaves t ->
  proxy_of s id = Some (box, data, mv).
Proof.
  intros Hok Hin. pose proof Hok as [_ [_ Hwf]].
  destruct (wf_leaf _ _ _ _ _ _ _ Hwf Hin) as (Hid & p' & Hn).
  rewrite (proxy_of_node _ _ _ (tree_ok_range _ _ _ _ Hok Hid) Hn). reflexivity.
Qed.

Lemma leaves_NoDup_ids s t extra : tree_ok s (Some t) extra -> NoDup (leaf_id <$> leaves t).
Proof.
  intros [[fl Har] _]. apply leaf_ids_NoDup.
  apply arena_NoDup in Har. apply NoDup_app in Har as (_ & _ & Har).
  apply NoDup_app in Har as (_ & _ & Har). exact Har.
Qed.

(** Two leaves of a tree with the same proxy are the same leaf. *)
Lemma leaf_unique s t id l1 l2 :
  tree_ok s (Some t) [] -> l1 ∈ leaves t -> l2 ∈ leaves t ->
  leaf_id l1 = id -> leaf_id l2 = id -> l1 = l2.
Proof.
  intros Hok H1 H2 E1 E2.
  destruct l1 as [[[k1 b1] d1] m1], l2 as [[[k2 b2] d2] m2]. cbn in E1, E2. subst k1 k2.
  pose proof (proxy_of_leaf _ _ _ _ _ _ Hok H1) as P1.
  pose proof (proxy_of_leaf _ _ _ _ _ _ Hok H2) as P2.
  congruence.
Qed.

Lemma Permutation_leaf_in {A} (l l' : list A) x y :
  l' ≡ₚ x :: l -> y ∈ l -> y ∈ l'.
Proof. intros -> H. right. exact H. Qed.

(** [CreateProxy] hands out an identifier that no existing proxy has, and
    stores the user data, the fattened AABB (which contains the AABB given)
    and a raised moved flag, which the accessors then return; what they
    return for the other proxies does not change. *)
Theorem CreateProxy_stores :
  forall (live : list Z) (s s' : b2DynamicTree) fuel box data id,
    tree_trace live s ->
    CreateProxy fuel box data s = Some (id, s') ->
    (id ∉ live) /\
    GetUserData id s' = Some (data, s') /\
    GetFatAABB id s' = Some (fattened box, s') /\
    WasMoved id s' = Some (true, s') /\
    Contains (fattened box) box = true /\
    (forall id', id' ∈ live -> proxy_of s' id' = proxy_of s id').
Proof.
  intros live s s' fuel box data id (ot & Hok & Hlive)%tree_trace_ok Hrun.
  destruct (CreateProxy_keeps _ _ _ _ _ _ _ Hok Hrun) as (t' & Hok' & Hpl & Hfresh).
  assert (Hin : (id, fattened box, data, true) ∈ leaves t') by (rewrite Hpl; left).
  pose proof Hok' as [_ [_ Hwf']].
  destruct (wf_leaf _ _ _ _ _ _ _ Hwf' Hin) as (Hid & p' & Hn).
  pose proof (tree_ok_range _ _ _ _ Hok' Hid) as Hr.
  split; [|split; [|split; [|split; [|split]]]].
  - intros Hl. rewrite <- Hlive in Hl.
    pose proof (leaves_NoDup_ids _ _ _ Hok') as Hnd. rewrite Hpl in Hnd.
    cbn [fmap list_fmap leaf_id fst] in Hnd. apply NoDup_cons in Hnd as [Hnd _].
    exact (Hnd Hl).
  - unfold GetUserData. rewrite (accessor_run _ _ _ _ Hr Hn). reflexivity.
  - unfold GetFatAABB. rewrite (accessor_run _ _ _ _ Hr Hn). reflexivity.
  - unfold WasMoved. rewrite (accessor_run _ _ _ _ Hr Hn). reflexivity.
  - apply Contains_fattened.
  - intros id' Hin'.
    destruct (live_leaf_in ot live id' Hlive Hin') as (t & b & dt & m & -> & Hl).
    rewrite (proxy_of_leaf _ _ _ _ _ _ Hok Hl).
    apply (proxy_of_leaf _ _ _ _ _ _ Hok'). rewrite Hpl. right. exact Hl.
Qed.

Lemma CreateProxy_stores_witness :
  exists s s',
    tree_trace [0] s /\ CreateProxy 5 (unit_box 3 0) 77 s = Some (1, s') /\
    (1 ∉ [0]) /\
    GetUserData 1 s' = Some (77, s') /\
    GetFatAABB 1 s' = Some (fattened (unit_box 3 0), s') /\
    proxy_of s' 0 = proxy_of s 0.
Proof.
  eexists _, _.
  match goal with |- tree_trace ?l ?s0 /\ _ => assert (Hs : tree_trace l s0) end.
  { eapply (tree_create [] _ 5 (unit_box 0 0) 0 0); [apply tree_new|vm_compute; reflexivity]. }
  split; [exact Hs|].
  match goal with |- ?R /\ _ => assert (Hrun : R) by (vm_compute; reflexivity) end.
  split; [exact Hrun|].
  destruct (CreateProxy_stores _ _ _ _ _ _ _ Hs Hrun) as (H1 & H2 & H3 & _ & _ & H6).
  split; [exact H1|]. split; [exact H2|]. split; [exact H3|].
  apply H6. left.
Defined.
